(** * jinjamator-core: task discovery, task endpoints, web-UI start-up and
    password redaction

    Shallow embedding of
      - [jinjamator/daemon/api/endpoints/tasks.py]  ([discover_tasks],
        [APIJinjamatorTask.get], [APIJinjamatorTask.post], [TaskList.get]),
      - [jinjamator/daemon/__init__.py]             ([initialize]),
      - [jinjamator/tools/password.py]              ([redact]).

    Python strings are [string]; a [dict] is an association list in insertion
    order; module-level mutable state is passed explicitly; an exception is a
    value of [exn] carried by [result].  The lists and dictionaries that
    [redact] rewrites in place live in a store and are referred to by their
    location, so that an object reached twice is one object. *)

From Stdlib Require Import String Ascii List Bool Arith Lia ZArith.
Import ListNotations.
Local Open Scope list_scope.
Local Open Scope string_scope.

(* ===================================================================== *)
(** ** Python strings *)
(* ===================================================================== *)

Module PyStr.

(** [s.startswith(p)] *)
Fixpoint startswith (s p : string) {struct p} : bool :=
  match p with
  | EmptyString => true
  | String c p' =>
      match s with
      | EmptyString => false
      | String d s' => Ascii.eqb c d && startswith s' p'
      end
  end.

(** [p in s] for two strings: [p] occurs in [s] as a substring. *)
Fixpoint str_in (p s : string) : bool :=
  match s with
  | EmptyString => startswith s p
  | String _ s' => startswith s p || str_in p s'
  end.

(** [x in l] for a list of strings. *)
Fixpoint list_in (x : string) (l : list string) : bool :=
  match l with
  | [] => false
  | y :: l' => String.eqb x y || list_in x l'
  end.

(** The scan of [str.replace] for a non-empty [old]: [skip] counts the
    characters of the current match that are still to be dropped. *)
Fixpoint replace_from (old new : string) (skip : nat) (s : string) : string :=
  match s with
  | EmptyString => EmptyString
  | String c s' =>
      match skip with
      | S k => replace_from old new k s'
      | O =>
          if startswith s old
          then new ++ replace_from old new (String.length old - 1) s'
          else String c (replace_from old new 0 s')
      end
  end.

(** With an empty [old], [str.replace] puts [new] before every character and
    at the end. *)
Fixpoint intersperse_all (new s : string) : string :=
  match s with
  | EmptyString => new
  | String c s' => new ++ String c (intersperse_all new s')
  end.

(** [s.replace(old, new)]: every non-overlapping occurrence, leftmost first. *)
Definition replace (s old new : string) : string :=
  match old with
  | EmptyString => intersperse_all new s
  | String _ _ => replace_from old new 0 s
  end.

(** [s.split(sep)] for the one-character separator [os.path.sep]. *)
Fixpoint split (sep : ascii) (s : string) : list string :=
  match s with
  | EmptyString => [EmptyString]
  | String c s' =>
      if Ascii.eqb c sep then EmptyString :: split sep s'
      else match split sep s' with
           | h :: t => String c h :: t
           | [] => [String c EmptyString]
           end
  end.

(** [s[1:]] *)
Definition slice_from_1 (s : string) : string :=
  match s with
  | EmptyString => EmptyString
  | String _ s' => s'
  end.

(** [s.endswith(p)] for a one-character [p]. *)
Fixpoint endswith_char (s : string) (c : ascii) : bool :=
  match s with
  | EmptyString => false
  | String d EmptyString => Ascii.eqb d c
  | String _ s' => endswith_char s' c
  end.

(** [str.lower] on ASCII letters. *)
Definition lower_ascii (c : ascii) : ascii :=
  let n := nat_of_ascii c in
  if Nat.leb 65 n && Nat.leb n 90 then ascii_of_nat (n + 32) else c.

Fixpoint lower (s : string) : string :=
  match s with
  | EmptyString => EmptyString
  | String c s' => String (lower_ascii c) (lower s')
  end.

(** [c in s] for one character. *)
Fixpoint has_char (c : ascii) (s : string) : bool :=
  match s with
  | EmptyString => false
  | String a s' => Ascii.eqb a c || has_char c s'
  end.

(** [sep.join(l)] *)
Fixpoint join_with (sep : string) (l : list string) : string :=
  match l with
  | [] => EmptyString
  | [x] => x
  | x :: l' => x ++ sep ++ join_with sep l'
  end.

End PyStr.

(* ===================================================================== *)
(** ** [os.path] (posixpath) *)
(* ===================================================================== *)

Module OsPath.
Import PyStr.

Definition sep : ascii := "/"%char.
Definition sep_str : string := "/".

Fixpoint has_sep (s : string) : bool :=
  match s with
  | EmptyString => false
  | String c s' => Ascii.eqb c sep || has_sep s'
  end.

Fixpoint all_sep (s : string) : bool :=
  match s with
  | EmptyString => true
  | String c s' => Ascii.eqb c sep && all_sep s'
  end.

(** [p[:p.rfind(sep) + 1]]: a character is kept when a separator stands at
    or after it. *)
Fixpoint head_to_last_sep (p : string) : string :=
  match p with
  | EmptyString => EmptyString
  | String c p' => if has_sep p then String c (head_to_last_sep p') else EmptyString
  end.

(** [head.rstrip(sep)] *)
Fixpoint rstrip_sep (s : string) : string :=
  match s with
  | EmptyString => EmptyString
  | String c s' => if all_sep s then EmptyString else String c (rstrip_sep s')
  end.

(** [os.path.dirname(p)] *)
Definition dirname (p : string) : string :=
  let head := head_to_last_sep p in
  if negb (String.eqb head EmptyString) && negb (all_sep head)
  then rstrip_sep head
  else head.

(** One step of [os.path.join]: an absolute component restarts the path. *)
Definition join2 (path b : string) : string :=
  if startswith b sep_str then b
  else if String.eqb path EmptyString || endswith_char path sep then path ++ b
  else path ++ sep_str ++ b.

(** [os.path.join(a, *p)] *)
Definition join (a : string) (p : list string) : string := fold_left join2 p a.

End OsPath.

(* ===================================================================== *)
(** ** Python values, dictionaries, exceptions *)
(* ===================================================================== *)

(** The JSON-like values that task schemas and configuration objects are
    made of.  Dictionaries keep their items in insertion order. *)
#[warnings="-register-all"]
Inductive pyobj : Type :=
  | PNone
  | PBool (b : bool)
  | PInt (z : Z)
  | PStr (s : string)
  | PList (l : list pyobj)
  | PDict (d : list (string * pyobj)).

Module PyDict.
Section Ops.
Context {V : Type}.

(** [d.get(k)] *)
Fixpoint get (d : list (string * V)) (k : string) : option V :=
  match d with
  | [] => None
  | (k', v) :: d' => if String.eqb k k' then Some v else get d' k
  end.

(** [d.get(k, default)] *)
Definition get_default (d : list (string * V)) (k : string) (default : V) : V :=
  match get d k with Some v => v | None => default end.

(** [k in d] *)
Definition mem (k : string) (d : list (string * V)) : bool :=
  match get d k with Some _ => true | None => false end.

(** [d[k] = v]: an existing key keeps its place, a new key goes last. *)
Fixpoint set (d : list (string * V)) (k : string) (v : V) : list (string * V) :=
  match d with
  | [] => [(k, v)]
  | (k', v') :: d' =>
      if String.eqb k k' then (k, v) :: d' else (k', v') :: set d' k v
  end.

(** [del d[k]] for a key that is present; nothing changes otherwise. *)
Fixpoint remove (d : list (string * V)) (k : string) : list (string * V) :=
  match d with
  | [] => []
  | (k', v') :: d' =>
      if String.eqb k k' then d' else (k', v') :: remove d' k
  end.

Definition keys (d : list (string * V)) : list string := map fst d.
Definition values (d : list (string * V)) : list V := map snd d.
End Ops.
End PyDict.

Inductive exn_class : Type :=
  | Exception_
  | TypeError_
  | KeyError_
  | UnboundLocalError_
  | RecursionError_
  | AssertionError_
  | AttributeError_
  | ImportError_
  | ModuleNotFoundError_
  | SystemExit_
  | KeyboardInterrupt_.

Record exn : Type := Exn { exn_cls : exn_class; exn_msg : string }.

(** [isinstance(e, Exception)]: what [except Exception] catches. *)
Definition is_Exception (e : exn) : bool :=
  match exn_cls e with
  | SystemExit_ | KeyboardInterrupt_ => false
  | _ => true
  end.

(** [isinstance(e, ModuleNotFoundError)] *)
Definition is_ModuleNotFoundError (e : exn) : bool :=
  match exn_cls e with
  | ModuleNotFoundError_ => true
  | _ => false
  end.

(** [isinstance(e, KeyError)] *)
Definition is_KeyError (e : exn) : bool :=
  match exn_cls e with
  | KeyError_ => true
  | _ => false
  end.

(** [str(e)] *)
Definition str_exn (e : exn) : string := exn_msg e.

Inductive result (A : Type) : Type :=
  | Ok (a : A)
  | Raise (e : exn).
Arguments Ok {A} a.
Arguments Raise {A} e.

Definition bind {A B : Type} (m : result A) (f : A -> result B) : result B :=
  match m with
  | Ok a => f a
  | Raise e => Raise e
  end.

Declare Scope py_scope.
Delimit Scope py_scope with py.
Notation "x <- m ;; k" := (bind m (fun x => k))
  (at level 61, m at next level, right associativity) : py_scope.
Notation "m ;; k" := (bind m (fun _ => k))
  (at level 61, right associativity) : py_scope.

Inductive level : Type := DEBUG | INFO | ERROR.
Definition log_record : Type := (level * string)%type.


(* ===================================================================== *)
(** ** [jinjamator/tools/password.py] *)
(* ===================================================================== *)

Module Password.
Import PyStr.

(** [redact] rewrites lists and dictionaries in place, and the same list or
    dictionary can be reached from several places of its argument.  Lists
    and dictionaries therefore live in a store and are referred to by their
    location; a value is a reference or something immutable. *)

(** The keys of a dictionary: strings, and the hashable values that are not
    strings -- integers, [None], tuples of keys. *)
#[warnings="-register-all"]
Inductive key : Type :=
  | KStr (s : string)
  | KInt (z : Z)
  | KNone
  | KTuple (items : list key).

Definition loc : Type := nat.

Inductive val : Type :=
  | VNone
  | VBool (b : bool)
  | VInt (z : Z)
  | VStr (s : string)
  (** a list or a dictionary, by its location in the store *)
  | VRef (l : loc)
  (** any other object: a tuple, a float, a byte string, ... *)
  | VOpaque (n : nat).

Inductive obj : Type :=
  | OList (items : list val)
  | ODict (items : list (key * val)).

Definition store : Type := list obj.

(** The store and the module-level list [redacted_passwords]. *)
Definition state : Type := (store * list string)%type.

(** [k == "pass"] *)
Definition is_pass (k : key) : bool :=
  match k with
  | KStr s => String.eqb s "pass"
  | _ => false
  end.

(** ["pass" in k]: a substring test on a string, a membership test on a
    tuple, a [TypeError] on a key that is not iterable. *)
Definition key_has_pass (k : key) : result bool :=
  match k with
  | KStr s => Ok (str_in "pass" s)
  | KTuple items => Ok (existsb is_pass items)
  | KInt _ => Raise (Exn TypeError_ "argument of type 'int' is not iterable")
  | KNone => Raise (Exn TypeError_ "argument of type 'NoneType' is not iterable")
  end.

Definition isinstance_str (v : val) : bool :=
  match v with VStr _ => true | _ => false end.

(** The slots of an object in order: the items of a list, the values of a
    dictionary with their keys. *)
Definition slots (o : obj) : list (option key * val) :=
  match o with
  | OList items => map (fun v => (None, v)) items
  | ODict items => map (fun kv : key * val => (Some (fst kv), snd kv)) items
  end.

(** The slot that an iteration over the object at [l] is at. *)
Definition read_slot (h : store) (l : loc) (index : nat) : option (option key * val) :=
  match nth_error h l with
  | Some o => nth_error (slots o) index
  | None => None
  end.

Fixpoint set_nth {A : Type} (l : list A) (n : nat) (x : A) : list A :=
  match l, n with
  | [], _ => []
  | _ :: l', O => x :: l'
  | y :: l', S n' => y :: set_nth l' n' x
  end.

(** [obj[index] = v] on a list; on a dictionary [obj[k] = v] for the key
    [k] of the item that the loop is at -- the keys of a dictionary are
    distinct, so the assignment goes to that item. *)
Definition write_obj (o : obj) (index : nat) (v : val) : obj :=
  match o with
  | OList items => OList (set_nth items index v)
  | ODict items =>
      match nth_error items index with
      | Some (k, _) => ODict (set_nth items index (k, v))
      | None => o
      end
  end.

Definition write_slot (h : store) (l : loc) (index : nat) (v : val) : store :=
  match nth_error h l with
  | Some o => set_nth h l (write_obj o index v)
  | None => h
  end.

(** The two statements that record a password. *)
Definition record (redacted_passwords : list string) (s : string) : list string :=
  if list_in s redacted_passwords then redacted_passwords
  else (redacted_passwords ++ [s])%list.

Section Loop.
Variable body : state -> nat -> result state.

(** A [for] loop over the positions of a container; an exception that
    leaves the body ends it. *)
Fixpoint for_range (indices : list nat) (st : state) : result state :=
  match indices with
  | [] => Ok st
  | index :: indices' =>
      match body st index with
      | Ok st' => for_range indices' st'
      | Raise e => Raise e
      end
  end.
End Loop.

(** [redact(obj, is_password)] with [depth] frames left on the interpreter
    stack: every call takes one, and a call without one raises
    [RecursionError].  The result is the store and the password list after
    the call, and the value returned as second component of the pair.  A
    call that raises has rewritten the slots that it left behind; what the
    store is then is not part of the model. *)
Fixpoint redact (depth : nat) (h : store) (redacted_passwords : list string)
    (obj : val) (is_password : bool) {struct depth}
    : result (store * list string * val) :=
  match depth with
  | O => Raise (Exn RecursionError_ "maximum recursion depth exceeded")
  | S depth' =>
      match obj with
      | VStr s =>
          if is_password
          then Ok (h, record redacted_passwords s, VStr "__redacted__")
          else Ok (h, redacted_passwords, obj)
      | VRef l =>
          match nth_error h l with
          | Some (OList items) =>
              match
                for_range
                  (fun st index =>
                     match read_slot (fst st) l index with
                     | Some (_, item) =>
                         match redact depth' (fst st) (snd st) item false with
                         | Ok (h', pws', item') =>
                             Ok (write_slot h' l index item', pws')
                         | Raise e => Raise e
                         end
                     | None => Ok st
                     end)
                  (seq 0 (List.length items)) (h, redacted_passwords)
              with
              | Ok (h', pws') => Ok (h', pws', obj)
              | Raise e => Raise e
              end
          | Some (ODict items) =>
              match
                for_range
                  (fun st index =>
                     match read_slot (fst st) l index with
                     | Some (Some k, v) =>
                         match key_has_pass k with
                         | Ok has_pass =>
                             match
                               if has_pass && isinstance_str v
                               then redact depth' (fst st) (snd st) v true
                               else redact depth' (fst st) (snd st) v false
                             with
                             | Ok (h', pws', v') =>
                                 Ok (write_slot h' l index v', pws')
                             | Raise e => Raise e
                             end
                         | Raise e => Raise e
                         end
                     | _ => Ok st
                     end)
                  (seq 0 (List.length items)) (h, redacted_passwords)
              with
              | Ok (h', pws') => Ok (h', pws', obj)
              | Raise e => Raise e
              end
          | None => Ok (h, redacted_passwords, obj)
          end
      | _ => Ok (h, redacted_passwords, obj)
      end
  end.

(** [n] successive calls of [redact] on the same object. *)
Fixpoint redact_times (n : nat) (depth : nat) (h : store)
    (redacted_passwords : list string) (obj : val)
    : result (store * list string * val) :=
  match n with
  | O => Ok (h, redacted_passwords, obj)
  | S n' =>
      match redact depth h redacted_passwords obj false with
      | Ok (h', pws', obj') => redact_times n' depth h' pws' obj'
      | Raise e => Raise e
      end
  end.

(** *** Positions, and what the properties are stated with *)

Fixpoint key_eqb (a b : key) {struct a} : bool :=
  match a, b with
  | KStr s, KStr t => String.eqb s t
  | KInt x, KInt y => Z.eqb x y
  | KNone, KNone => true
  | KTuple l, KTuple m =>
      (fix all2 (l m : list key) {struct l} : bool :=
         match l, m with
         | [], [] => true
         | x :: l', y :: m' => key_eqb x y && all2 l' m'
         | _, _ => false
         end) l m
  | _, _ => false
  end.

(** Positions inside a value. *)
Inductive step : Type :=
  | Index (n : nat)
  | Key (k : key).

Fixpoint find_key (items : list (option key * val)) (k : key) (index : nat)
    : option nat :=
  match items with
  | [] => None
  | (Some k', _) :: items' =>
      if key_eqb k k' then Some index else find_key items' k (S index)
  | (None, _) :: items' => find_key items' k (S index)
  end.

(** The slot that a step selects in an object: [obj[n]] in a list, [obj[k]]
    in a dictionary. *)
Definition select (o : obj) (st : step) : option nat :=
  match o, st with
  | OList items, Index n => if Nat.ltb n (List.length items) then Some n else None
  | ODict _, Key k => find_key (slots o) k 0
  | _, _ => None
  end.

Fixpoint lookup (h : store) (path : list step) (v : val) : option val :=
  match path with
  | [] => Some v
  | st :: path' =>
      match v with
      | VRef l =>
          match nth_error h l with
          | Some o =>
              match select o st with
              | Some index =>
                  match nth_error (slots o) index with
                  | Some (_, x) => lookup h path' x
                  | None => None
                  end
              | None => None
              end
          | None => None
          end
      | _ => None
      end
  end.

(** The step enters a dictionary under a key with ['pass'] in it. *)
Definition step_pass (st : step) : bool :=
  match st with
  | Key k => match key_has_pass k with Ok b => b | Raise _ => false end
  | Index _ => false
  end.

(** The position is a dictionary slot under a key with ['pass'] in it. *)
Fixpoint password_position (path : list step) : bool :=
  match path with
  | [] => false
  | [st] => step_pass st
  | _ :: path' => password_position path'
  end.

(** At the root the argument [is_password] decides, below it the position. *)
Definition position_flag (is_password : bool) (path : list step) : bool :=
  match path with
  | [] => is_password
  | _ :: _ => password_position path
  end.

(** A value that is not a list or a dictionary. *)
Definition is_leaf (v : val) : bool :=
  match v with
  | VRef _ => false
  | _ => true
  end.

(** What becomes of a leaf: a string at a password position is replaced,
    everything else is kept. *)
Definition redacted_leaf (v : val) (hit : bool) : val :=
  match v with
  | VStr _ => if hit then VStr "__redacted__" else v
  | _ => v
  end.

(** The password list after a call is the list before it with new entries
    added at its end. *)
Definition extends (a b : list string) : Prop := exists added, b = (a ++ added)%list.

(** A store whose objects refer to objects at smaller locations only, as
    in a store filled from the leaves upwards: no object contains itself. *)
Definition refs_below (bound : nat) (o : obj) : Prop :=
  Forall (fun slot : option key * val =>
            match snd slot with
            | VRef l => l < bound
            | _ => True
            end) (slots o).

Definition ranked (h : store) : Prop :=
  forall l o, nth_error h l = Some o -> refs_below l o.

(** Every key of every dictionary can be asked for ['pass']. *)
Definition keys_iterable (h : store) : Prop :=
  forall l o, nth_error h l = Some o ->
    Forall (fun slot : option key * val =>
              match fst slot with
              | Some k => exists b, key_has_pass k = Ok b
              | None => True
              end) (slots o).

(** The frames a call on the value needs at most in a ranked store. *)
Definition frames (v : val) : nat :=
  match v with
  | VRef l => S (S l)
  | _ => 1
  end.

(** The store holds a string under a key with ['pass'] in it. *)
Definition holds_password (h : store) (s : string) : Prop :=
  exists l o index k,
    nth_error h l = Some o
    /\ nth_error (slots o) index = Some (Some k, VStr s)
    /\ key_has_pass k = Ok true.

(** An object with every string blanked: what is left is its structure,
    the keys of a dictionary and the slots that are not strings. *)
Definition blank_val (v : val) : val :=
  match v with
  | VStr _ => VStr ""
  | _ => v
  end.

Definition blank (o : obj) : obj :=
  match o with
  | OList items => OList (map blank_val items)
  | ODict items => ODict (map (fun kv : key * val => (fst kv, blank_val (snd kv))) items)
  end.

(** *** The loops, seen slot by slot *)

Definition is_dict (o : obj) : bool :=
  match o with ODict _ => true | OList _ => false end.

(** The argument [is_password] of the call on the value of a slot: [False]
    in a list, and in a dictionary the value of
    ["pass" in k and isinstance(v, str)]. *)
Definition slot_flag (k : option key) (v : val) : result bool :=
  match k with
  | None => Ok false
  | Some k =>
      match key_has_pass k with
      | Ok has_pass => Ok (has_pass && isinstance_str v)
      | Raise e => Raise e
      end
  end.

(** One iteration of either loop of [redact] over the object at [l]. *)
Definition visit
    (call : store -> list string -> val -> bool -> result (store * list string * val))
    (l : loc) (st : state) (index : nat) : result state :=
  match read_slot (fst st) l index with
  | Some (k, v) =>
      match slot_flag k v with
      | Ok flag =>
          match call (fst st) (snd st) v flag with
          | Ok (h', pws', v') => Ok (write_slot h' l index v', pws')
          | Raise e => Raise e
          end
      | Raise e => Raise e
      end
  | None => Ok st
  end.

(** The slot stands under a key with ['pass'] in it. *)
Definition slot_pass (k : option key) : bool :=
  match k with
  | Some k => match key_has_pass k with Ok b => b | Raise _ => false end
  | None => false
  end.

(** How a slot can differ after calls of [redact]: not at all, or a string
    under a key with ['pass'] in it has become the marker and is in the
    password list [P]. *)
Definition val_le (P : list string) (pass : bool) (v v' : val) : Prop :=
  v' = v
  \/ (pass = true /\ exists s, v = VStr s /\ In s P /\ v' = VStr "__redacted__").

Definition slot_le (P : list string) (x y : option key * val) : Prop :=
  fst y = fst x /\ val_le P (slot_pass (fst x)) (snd x) (snd y).

Definition obj_le (P : list string) (o o' : obj) : Prop :=
  is_dict o' = is_dict o /\ Forall2 (slot_le P) (slots o) (slots o').

Definition heap_le (P : list string) (h h' : store) : Prop :=
  Forall2 (obj_le P) h h'.

Definition state_le (st st' : state) : Prop :=
  heap_le (snd st') (fst st) (fst st') /\ extends (snd st) (snd st').

(** What a call, or a stretch of a loop, does to the state: a later store,
    a longer list, and no password twice in the list if none was. *)
Definition run_le (st st' : state) : Prop :=
  state_le st st' /\ (NoDup (snd st) -> NoDup (snd st')).

(** Where the entries of the password list come from: every entry added
    was held by the store under a key with ['pass'] in it, or is the
    marker, which a call finds there once it has replaced a password. *)
Definition recorded_from (st st' : state) : Prop :=
  state_le st st'
  /\ forall s, In s (snd st') ->
       In s (snd st) \/ holds_password (fst st) s \/ s = "__redacted__".

End Password.

(* ===================================================================== *)
(** ** [jinjamator/plugins/content/jm/environment.py] *)
(* ===================================================================== *)

Module Environment.
Import PyStr OsPath.

(** The line separator ["\n"]. *)
Definition newline : ascii := "010"%char.

(** [type(o).__name__] *)
Definition type_name (o : pyobj) : string :=
  match o with
  | PNone => "NoneType"
  | PBool _ => "bool"
  | PInt _ => "int"
  | PStr _ => "str"
  | PList _ => "list"
  | PDict _ => "dict"
  end.

(** The three readers of [_jinjamator._configuration]. *)
Definition site_path (configuration : list (string * pyobj)) : pyobj :=
  PyDict.get_default configuration "jinjamator_site_path" PNone.

Definition jinjamator_base_directory (configuration : list (string * pyobj)) : pyobj :=
  PyDict.get_default configuration "jinjamator_base_directory" PNone.

Definition jinjamator_global_tasks_base_dirs (configuration : list (string * pyobj)) : pyobj :=
  PyDict.get_default configuration "global_tasks_base_dirs" PNone.

(** [python_requirements()]; [read] is [open(path, "r")] followed by
    [fh.read()].  [os.path.join] takes a string as its first argument and
    raises [TypeError] for anything else. *)
Definition python_requirements (configuration : list (string * pyobj))
    (read : string -> result string) : result (list string) :=
  match jinjamator_base_directory configuration with
  | PStr base =>
      (content <- read (join base ["requirements.txt"]);;
       Ok (split newline content))%py
  | o => Raise (Exn TypeError_
                  ("expected str, bytes or os.PathLike object, not " ++ type_name o))
  end.

(** [get(var, default)]: [os.environ.get(var, default)] *)
Definition get (environ : list (string * string)) (var : string)
    (default : option string) : option string :=
  match PyDict.get environ var with
  | Some v => Some v
  | None => default
  end.

(** [os.environ.pop(var)] *)
Definition environ_pop (environ : list (string * string)) (var : string)
    : result (list (string * string) * string) :=
  match PyDict.get environ var with
  | Some v => Ok (PyDict.remove environ var, v)
  | None => Raise (Exn KeyError_ ("'" ++ var ++ "'"))
  end.

(** [pop(var, default)]: the environment after the call and the value
    returned. *)
Definition pop (environ : list (string * string)) (var : string)
    (default : option string) : result (list (string * string) * option string) :=
  match environ_pop environ var with
  | Ok (environ', data) => Ok (environ', Some data)
  | Raise e =>
      if is_KeyError e then Ok (environ, default) else Raise e
  end.

End Environment.

(* ===================================================================== *)
(** ** [jinjamator/daemon/api/endpoints/tasks.py] *)
(* ===================================================================== *)

Module Tasks.
Import PyStr OsPath.

(** The [task_info] dictionary built for a candidate directory. *)
Record task_info : Type := {
  id : string;
  path : string;
  base_dir : string;
  description : string
}.

(** [api.schema_model(name, schema)] *)
Record schema_model : Type := {
  model_name : string;
  model_schema : pyobj
}.

(** The module-level state of [tasks.py] together with what discovery
    leaves in the collaborators it writes to: the routes added to the
    namespace [ns] (by endpoint name) and the records sent to [log] at the
    levels INFO and ERROR.  [available_tasks_by_id] is declared in the
    module and never read or written, so it has no field. *)
Record Registry : Type := {
  available_tasks_by_path : list (string * task_info);
  task_models : list (string * schema_model);
  routes : list string;
  log : list log_record
}.

Definition empty_registry : Registry :=
  {| available_tasks_by_path := []; task_models := []; routes := []; log := [] |}.

Definition set_available_tasks_by_path (r : Registry) (d : list (string * task_info)) :=
  {| available_tasks_by_path := d; task_models := task_models r;
     routes := routes r; log := log r |}.

Definition set_task_models (r : Registry) (d : list (string * schema_model)) :=
  {| available_tasks_by_path := available_tasks_by_path r; task_models := d;
     routes := routes r; log := log r |}.

Definition add_route (r : Registry) (endpoint : string) :=
  {| available_tasks_by_path := available_tasks_by_path r;
     task_models := task_models r;
     routes := (routes r ++ [endpoint])%list; log := log r |}.

Definition log_write (r : Registry) (l : level) (msg : string) :=
  {| available_tasks_by_path := available_tasks_by_path r;
     task_models := task_models r;
     routes := routes r; log := (log r ++ [(l, msg)])%list |}.

(** What the code reads from outside this repository's sources: the file
    system through [glob], the hash, the documentation helper, the task
    runtime, the router, and the request parser.  A call that can raise
    returns a [result]. *)
Record World : Type := {
  (** [glob.glob(pattern, recursive=True)] *)
  glob : string -> list string;
  (** [xxhash.xxh64(s).hexdigest()] *)
  xxh64_hexdigest : string -> string;
  (** [get_section_from_task_doc(task_dir)]: a string or [None] *)
  get_section_from_task_doc : string -> result (option string);
  (** [JinjamatorTask()], the merge of the full configuration, the merge of
      a site's [defaults.yaml] when one is given, [task.load(path)] and
      [task.get_jsonform_schema()] *)
  get_jsonform_schema : option string -> string -> result (list (string * pyobj));
  (** [ns.route(url, endpoint=...)] applied to the resource class: what the
      registration of the resource with the API and the application does,
      given the endpoints that the namespace held before *)
  ns_route : list string -> string -> result unit;
  (** [site_path_by_name] of the environments endpoint *)
  site_path_by_name : list (string * string);
  (** [task_arguments.parse_args(request)] *)
  parse_args : list (string * string) -> result (list (string * option string));
  (** the payload validation of [api.expect(model)] *)
  validates : schema_model -> pyobj -> bool
}.

(** [x or default] for an optional string. *)
Definition py_or (x : option string) (default : string) : string :=
  match x with
  | None => default
  | Some EmptyString => default
  | Some s => s
  end.

(** [dir_chunk.startswith(".") or dir_chunk in ['__pycache__']] *)
Definition hidden_chunk (dir_chunk : string) : bool :=
  startswith dir_chunk "." || list_in dir_chunk ["__pycache__"].

(** The filter loop: [append] is cleared at the first hidden chunk. *)
Fixpoint scan_chunks (chunks : list string) (append : bool) : bool :=
  match chunks with
  | [] => append
  | dir_chunk :: chunks' =>
      if hidden_chunk dir_chunk then false else scan_chunks chunks' append
  end.

Definition append_flag (tasks_base_dir task_dir : string) : bool :=
  scan_chunks (split sep (replace task_dir tasks_base_dir "")) true.

(** [dir_name = task_dir.replace(tasks_base_dir,'')[1:]] *)
Definition dir_name_of (tasks_base_dir task_dir : string) : string :=
  slice_from_1 (replace task_dir tasks_base_dir "").

Definition build_task_info (w : World) (tasks_base_dir task_dir : string)
    (doc : option string) : task_info :=
  {| id := xxh64_hexdigest w task_dir;
     path := dir_name_of tasks_base_dir task_dir;
     base_dir := tasks_base_dir;
     description := py_or doc "no description" |}.

(** The body of the [try] statement; the state reached when an exception
    leaves it is kept.  The decorator [ns.route] enters the resource in the
    namespace first and registers it with the API and the application
    next, so the endpoint is in the namespace also when that registration
    raises. *)
Definition try_register (w : World) (task_dir : string) (ti : task_info)
    (r : Registry) : Registry * option exn :=
  match get_jsonform_schema w None (join (base_dir ti) [path ti]) with
  | Raise e => (r, Some e)
  | Ok full =>
      match PyDict.get full "schema" with
      | None => (r, Some (Exn KeyError_ "'schema'"))
      | Some data =>
          let r1 := set_task_models r
                      (PyDict.set (task_models r) (path ti)
                         {| model_name := id ti; model_schema := data |}) in
          let r2 := log_write r1 INFO ("registred model for task " ++ task_dir) in
          let r3 := add_route r2 (path ti) in
          match ns_route w (routes r2) (path ti) with
          | Raise e => (r3, Some e)
          | Ok _ => (r3, None)
          end
      end
  end.

(** The body of the innermost [for] loop, for one path returned by [glob]. *)
Definition discover_one (w : World) (tasks_base_dir tasklet_dir : string)
    (r : Registry) : Registry * option exn :=
  let task_dir := dirname tasklet_dir in
  if append_flag tasks_base_dir task_dir then
    match get_section_from_task_doc w task_dir with
    | Raise e => (r, Some e)
    | Ok doc =>
        let ti := build_task_info w tasks_base_dir task_dir doc in
        if negb (PyDict.mem (id ti) (available_tasks_by_path r)) then
          let r1 := set_available_tasks_by_path r
                      (PyDict.set (available_tasks_by_path r) (path ti) ti) in
          match try_register w task_dir ti r1 with
          | (r2, None) => (r2, None)
          | (r2, Some e) =>
              if is_Exception e
              then (log_write r2 ERROR
                      ("unable to register " ++ task_dir ++ ": " ++ str_exn e),
                    None)
              else (r2, Some e)
          end
        else (r, None)
    end
  else (r, None).

Section ForLoop.
Context {A : Type}.
Variable body : A -> Registry -> Registry * option exn.

(** A [for] loop over [l]: an exception that leaves the body ends it. *)
Fixpoint for_each (l : list A) (r : Registry) : Registry * option exn :=
  match l with
  | [] => (r, None)
  | x :: l' =>
      match body x r with
      | (r', None) => for_each l' r'
      | (r', Some e) => (r', Some e)
      end
  end.
End ForLoop.

(** [discover_tasks(app)], with
    [app.config["JINJAMATOR_TASKS_BASE_DIRECTORIES"]] as [base_directories].
    Its first statement adds an argument to the request parser, which is
    the world's [parse_args]. *)
Definition discover_tasks (w : World) (base_directories : list string)
    (r : Registry) : Registry * option exn :=
  for_each
    (fun tasks_base_dir : string =>
       for_each
         (fun file_ext : string =>
            for_each (discover_one w tasks_base_dir)
              (glob w (join tasks_base_dir ["**"; "*." ++ file_ext])))
         ["py"; "j2"])
    base_directories r.

(** [TaskList.get]: the descriptors in the order of the dictionary. *)
Definition TaskList_get (r : Registry) : list task_info :=
  PyDict.values (available_tasks_by_path r).

(** *** [APIJinjamatorTask] *)

Record response : Type := { json : pyobj }.

Definition jsonify (o : pyobj) : response := {| json := o |}.

(** [v in l] for a value that is a string or [None]. *)
Definition py_in (v : option string) (l : list string) : bool :=
  match v with
  | Some s => list_in s l
  | None => false
  end.

(** Truth value of a string or [None]. *)
Definition truthy (v : option string) : bool :=
  match v with
  | None => false
  | Some EmptyString => false
  | Some _ => true
  end.

(** ["{}/defaults.yaml".format(site_path_by_name.get(environment_site))] *)
Definition defaults_yaml (w : World) (environment_site : string) : string :=
  match PyDict.get (site_path_by_name w) environment_site with
  | Some p => p ++ "/defaults.yaml"
  | None => "None/defaults.yaml"
  end.

(** [if environment_site:] the site's [defaults.yaml] is merged before the
    task is loaded. *)
Definition preloaded_defaults (w : World) (environment_site : option string)
    : option string :=
  match environment_site with
  | Some site => if truthy environment_site then Some (defaults_yaml w site) else None
  | None => None
  end.

(** The sections of the full schema; a missing section reads as [{}]. *)
Definition section (full_schema : list (string * pyobj)) (name : string) : pyobj :=
  PyDict.get_default full_schema name (PDict []).

(** The schema that a parsed request makes the handler synthesize. *)
Definition synthesized (w : World) (args : list (string * option string))
    (endpoint : string) : result (list (string * pyobj)) :=
  get_jsonform_schema w
    (preloaded_defaults w (PyDict.get_default args "preload-defaults-from-site" None))
    (replace endpoint "api." "").

(** [APIJinjamatorTask.get] after the arguments are parsed.  [endpoint] is
    [request.endpoint]. *)
Definition get_parsed (w : World) (args : list (string * option string))
    (endpoint : string) : result response :=
  let schema_type := PyDict.get_default args "schema-type" (Some "full") in
  let environment_site := PyDict.get_default args "preload-defaults-from-site" None in
  let relative_task_path := replace endpoint "api." "" in
  (full_schema <-
     get_jsonform_schema w
       (preloaded_defaults w environment_site)
       relative_task_path;;
   if py_in schema_type [""; "full"] then Ok (jsonify (PDict full_schema))
   else if py_in schema_type ["schema"] then Ok (jsonify (section full_schema "schema"))
   else if py_in schema_type ["data"] then Ok (jsonify (section full_schema "data"))
   else if py_in schema_type ["options"] then Ok (jsonify (section full_schema "options"))
   else if py_in schema_type ["view"] then Ok (jsonify (section full_schema "view"))
   else Raise (Exn UnboundLocalError_
                 "local variable 'response' referenced before assignment"))%py.

Record request : Type := {
  endpoint : string;
  query : list (string * string);
  payload : pyobj
}.

(** [APIJinjamatorTask.get] *)
Definition get (w : World) (req : request) : result response :=
  (args <- parse_args w (query req);;
   get_parsed w args (endpoint req))%py.

(** [log.info] called with the positional arguments [args]: the message is
    a required one. *)
Definition log_info (args : list string) (r : Registry) : result Registry :=
  match args with
  | [] => Raise (Exn TypeError_
                   "info() missing 1 required positional argument: 'msg'")
  | msg :: _ => Ok (log_write r INFO msg)
  end.

(** The value of the [return] statement of [post]. *)
Definition post_return : pyobj := PDict [].

(** [APIJinjamatorTask.post] *)
Definition post (r : Registry) : result (Registry * pyobj) :=
  (r' <- log_info [] r;;
   Ok (r', post_return))%py.

(** A POST request to a task's route: the payload is validated against the
    model given to [api.expect], then [post] runs. *)
Definition post_request (w : World) (r : Registry) (relative_path : string)
    (req : request) : result (Registry * pyobj) :=
  match PyDict.get (task_models r) relative_path with
  | None => Raise (Exn Exception_ "404 Not Found")
  | Some model =>
      if validates w model (payload req) then post r
      else Raise (Exn Exception_ "400 Bad Request: Input payload validation failed")
  end.

(** A response carries a job identifier when it is an object with a
    [job_id] member. *)
Definition has_job_id (o : pyobj) : bool :=
  match o with
  | PDict d => PyDict.mem "job_id" d
  | _ => false
  end.

End Tasks.

(* ===================================================================== *)
(** ** A discovery pass as one loop, and what a registry may satisfy *)
(* ===================================================================== *)

Module Discovery.
Import PyStr OsPath Tasks.

(** The pairs of base directory and matched file in the order in which the
    three loops of [discover_tasks] reach them. *)
Definition candidates (w : World) (base_directories : list string)
    : list (string * string) :=
  flat_map
    (fun tasks_base_dir : string =>
       flat_map
         (fun file_ext : string =>
            map (pair tasks_base_dir)
              (glob w (join tasks_base_dir ["**"; "*." ++ file_ext])))
         ["py"; "j2"])
    base_directories.

Definition discover_pair (w : World) (c : string * string) (r : Registry)
    : Registry * option exn :=
  discover_one w (fst c) (snd c) r.

(** [b] is [a] with more elements at its end. *)
Definition prefix_of {A : Type} (a b : list A) : Prop :=
  exists added, b = (a ++ added)%list.

(** Nothing is taken out of the four tables, and nothing is moved. *)
Definition registry_grows (r r' : Registry) : Prop :=
  prefix_of (PyDict.keys (available_tasks_by_path r))
            (PyDict.keys (available_tasks_by_path r'))
  /\ prefix_of (PyDict.keys (task_models r)) (PyDict.keys (task_models r'))
  /\ prefix_of (routes r) (routes r')
  /\ prefix_of (log r) (log r').

(** Every descriptor is stored under its own [path], and no path twice. *)
Definition keyed_by_path (r : Registry) : Prop :=
  NoDup (PyDict.keys (available_tasks_by_path r))
  /\ Forall (fun kv : string * task_info => path (snd kv) = fst kv)
       (available_tasks_by_path r).

(** Every descriptor has a description and belongs to a configured base
    directory. *)
Definition described (base_directories : list string) (r : Registry) : Prop :=
  Forall (fun kv : string * task_info =>
            description (snd kv) <> "" /\ In (base_dir (snd kv)) base_directories)
    (available_tasks_by_path r).

(** Every route has a model, and every model a descriptor. *)
Definition routes_backed (r : Registry) : Prop :=
  (forall endpoint, In endpoint (routes r) ->
     PyDict.mem endpoint (task_models r) = true)
  /\ (forall k, PyDict.mem k (task_models r) = true ->
        PyDict.mem k (available_tasks_by_path r) = true).

(** What one iteration of the innermost loop can do to a registry [r]. *)
Inductive step_outcome (w : World) (base tasklet : string) (r : Registry)
    : Registry * option exn -> Prop :=
  | Skipped : step_outcome w base tasklet r (r, None)
  | DocFailed (e : exn) : step_outcome w base tasklet r (r, Some e)
  | Entered (ti : task_info) (r' : Registry) (o : option exn) :
      append_flag base (dirname tasklet) = true ->
      path ti = dir_name_of base (dirname tasklet) ->
      base_dir ti = base ->
      description ti <> "" ->
      PyDict.mem (id ti) (available_tasks_by_path r) = false ->
      available_tasks_by_path r'
      = PyDict.set (available_tasks_by_path r) (path ti) ti ->
      (task_models r' = task_models r /\ routes r' = routes r
       \/ exists m,
            task_models r' = PyDict.set (task_models r) (path ti) m
            /\ (routes r' = routes r \/ routes r' = (routes r ++ [path ti])%list)) ->
      prefix_of (log r) (log r') ->
      step_outcome w base tasklet r (r', o).

End Discovery.

(* ===================================================================== *)
(** ** [jinjamator/daemon/__init__.py] *)
(* ===================================================================== *)

Module Daemon.
Import PyStr.

(** The Flask application as [initialize] changes it: the blueprints
    registered on it, and the records sent to [log]. *)
Record App : Type := {
  blueprints : list string;
  log : list log_record
}.

Definition register (app : App) (blueprint : string) : App :=
  {| blueprints := (blueprints app ++ [blueprint])%list; log := log app |}.

Definition log_write (app : App) (l : level) (msg : string) : App :=
  {| blueprints := blueprints app; log := (log app ++ [(l, msg)])%list |}.

(** What [initialize] calls outside this file. *)
Record Host : Type := {
  (** [configure] up to [init_aaa], and the set-up of the API blueprint:
      the exception that leaves these steps, if one does *)
  setup : option exn;
  (** [importlib.import_module(classname)]: the module's [webui] attribute
      when it has one *)
  import_module : string -> result (option string);
  (** [flask_app.register_blueprint(blueprint)] for the web UI: whether the
      application holds the blueprint after the call, and the exception
      that leaves the call, if one does.  Flask enters a blueprint before
      it runs the blueprint's deferred functions, which can raise. *)
  register_blueprint : string -> bool * option exn
}.

Definition disabled_names : list string :=
  ["none"; "false"; "disable"; "no"; "disabled"].

(** The [try] statement of [initialize]. *)
Definition try_webui (h : Host) (classname : string) (app : App) : App * option exn :=
  match import_module h classname with
  | Raise e => (app, Some e)
  | Ok webui_blueprint =>
      match webui_blueprint with
      | None => (app, Some (Exn AttributeError_
                              ("module '" ++ classname ++ "' has no attribute 'webui'")))
      | Some webui =>
          let '(entered, raised) := register_blueprint h webui in
          (if entered then register app webui else app, raised)
      end
  end.

(** [initialize(flask_app, cfg)], with [cfg.get("web_ui_class")] as
    [web_ui_class]. *)
Definition initialize (h : Host) (web_ui_class : option string) (app : App)
    : App * option exn :=
  match setup h with
  | Some e => (app, Some e)
  | None =>
      let app1 := register app "api" in
      match web_ui_class with
      | None => (app1, Some (Exn AttributeError_
                               "'NoneType' object has no attribute 'lower'"))
      | Some cls =>
          if list_in (lower cls) disabled_names
          then (log_write app1 DEBUG "WEBUI disabled", None)
          else
            let app2 := log_write app1 DEBUG ("using class " ++ cls ++ " as webui") in
            match try_webui h cls app2 with
            | (app3, None) => (app3, None)
            | (app3, Some e) =>
                if is_ModuleNotFoundError e
                then (log_write app3 ERROR
                        ("No module named '" ++ cls ++
                         "', did you install the jinjamator-daemon-webui package? -> WEBUI disabled"),
                      None)
                else (app3, Some e)
            end
      end
  end.

End Daemon.

(* ===================================================================== *)
(** ** [jinjamator/daemon/__init__.py]: [run] *)
(* ===================================================================== *)

Module Run.
Import PyStr Tasks Daemon.

(** What [run] does to the outside once discovery is over, in order. *)
Inductive action : Type :=
  (** [log.info(f">>>>> Starting daemon at http://{host}:{port}// <<<<<")] *)
  | LogStarting (host port : pyobj)
  (** [log.info(f">>>>> Restarting daemon at http://{host}:{port}/ <<<<<")] *)
  | LogRestarting (host port : pyobj)
  (** [app.run(debug=False, host=host, port=port)] *)
  | AppRun (host port : pyobj)
  (** [os.fork()] has returned *)
  | Forked (pid : Z)
  (** [queue.start(argv=argv)] of the Celery application on [broker] *)
  | WorkerStart (broker : pyobj) (argv : list pyobj)
  (** [os.waitpid(pid, 0)] *)
  | WaitPid (pid : Z).

(** What [run] reads from the process and calls outside this file. *)
Record Platform : Type := {
  (** [os.environ] *)
  os_environ : list (string * string);
  (** [os.fork()]: the value it returns in this process *)
  os_fork : result Z;
  (** [discover_output_plugins(app)] and [discover_environments(app)]:
      the exception that leaves them, if one does *)
  discover_output_plugins : option exn;
  discover_environments : option exn
}.

(** Truth value of a configuration value. *)
Definition truth (o : pyobj) : bool :=
  match o with
  | PNone => false
  | PBool b => b
  | PInt z => negb (Z.eqb z 0)
  | PStr s => negb (String.eqb s "")
  | PList l => match l with [] => false | _ => true end
  | PDict d => match d with [] => false | _ => true end
  end.

(** [cfg[key]] *)
Definition cfg_item (cfg : list (string * pyobj)) (key : string) : result pyobj :=
  match PyDict.get cfg key with
  | Some v => Ok v
  | None => Raise (Exn KeyError_ ("'" ++ key ++ "'"))
  end.

(** The child of the fork: the worker, then [sys.exit(0)]. *)
Definition worker (cfg : list (string * pyobj)) : list action * option exn :=
  match cfg_item cfg "celery_broker" with
  | Raise e => ([], Some e)
  | Ok broker =>
      match cfg_item cfg "celery_beat_database" with
      | Raise e => ([], Some e)
      | Ok beat =>
          ([WorkerStart broker
              [PStr "celery"; PStr "worker"; PStr "-A"; PStr "jinjamator.task.celery";
               PStr "-c"; PyDict.get_default cfg "max_celery_worker" (PStr "2");
               PStr "--max-tasks-per-child"; PStr "1";
               PStr "-b"; broker; PStr "-B"; PStr "-s"; beat]],
           Some (Exn SystemExit_ "0"))
      end
  end.

(** The statements of [run] after the discovery calls. *)
Definition serve (p : Platform) (cfg : list (string * pyobj))
    : list action * option exn :=
  let port := PyDict.get_default cfg "daemon_listen_port" (PStr "5000") in
  let host := PyDict.get_default cfg "daemon_listen_address" (PStr "127.0.0.1") in
  if negb (PyDict.mem "WERKZEUG_RUN_MAIN" (os_environ p)) then
    if negb (truth (PyDict.get_default cfg "no_worker" PNone)) then
      match os_fork p with
      | Raise e => ([], Some e)
      | Ok pid =>
          if Z.eqb pid 0 then
            let '(done, o) := worker cfg in (Forked pid :: done, o)
          else
            if negb (truth (PyDict.get_default cfg "just_worker" PNone)) then
              ([Forked pid;
                LogStarting host port;
                AppRun (PyDict.get_default cfg "daemon_listen_address" (PStr "127.0.0.1"))
                       (PyDict.get_default cfg "daemon_listen_port" (PStr "5000"));
                WaitPid pid],
               None)
            else ([Forked pid; WaitPid pid], None)
      end
    else
      ([LogStarting host port;
        AppRun (PyDict.get_default cfg "daemon_listen_address" (PStr "127.0.0.1"))
               (PyDict.get_default cfg "daemon_listen_port" (PStr "5000"))],
       None)
  else ([LogRestarting host port; AppRun host port], None).

(** The state [run] leaves behind. *)
Record Outcome : Type := {
  app_after : App;
  registry_after : Registry;
  actions : list action;
  raised : option exn
}.

(** [run(cfg)], with [cfg.get("web_ui_class")] and
    [cfg.get("global_tasks_base_dirs")] as [web_ui_class] and
    [base_directories], as [initialize] and [discover_tasks] take them. *)
Definition run (h : Host) (w : World) (p : Platform)
    (cfg : list (string * pyobj)) (web_ui_class : option string)
    (base_directories : list string) (app : App) (r : Registry) : Outcome :=
  match initialize h web_ui_class app with
  | (app1, Some e) =>
      {| app_after := app1; registry_after := r; actions := []; raised := Some e |}
  | (app1, None) =>
      match discover_output_plugins p with
      | Some e =>
          {| app_after := app1; registry_after := r; actions := []; raised := Some e |}
      | None =>
          match discover_environments p with
          | Some e =>
              {| app_after := app1; registry_after := r; actions := [];
                 raised := Some e |}
          | None =>
              match discover_tasks w base_directories r with
              | (r1, Some e) =>
                  {| app_after := app1; registry_after := r1; actions := [];
                     raised := Some e |}
              | (r1, None) =>
                  let '(done, o) := serve p cfg in
                  {| app_after := app1; registry_after := r1; actions := done;
                     raised := o |}
              end
          end
      end
  end.

Definition is_app_run (a : action) : bool :=
  match a with AppRun _ _ => true | _ => false end.

Definition is_fork (a : action) : bool :=
  match a with Forked _ => true | _ => false end.

End Run.

(* ===================================================================== *)
(** ** The properties in the specification's words, and concrete worlds *)
(* ===================================================================== *)

Module SpecWords.
Import PyStr OsPath.

Fixpoint drop (n : nat) (s : string) : string :=
  match n, s with
  | S n', String _ s' => drop n' s'
  | _, _ => s
  end.

(** "the candidate's absolute path with the owning base directory removed
    as a prefix" *)
Definition strip_prefix (base candidate : string) : string :=
  if startswith candidate base then drop (String.length base) candidate
  else candidate.

(** "... and the single leading path separator removed": the path of the
    task relative to its base directory. *)
Definition relative_path (base candidate : string) : string :=
  let rest := strip_prefix base candidate in
  if startswith rest sep_str then slice_from_1 rest else rest.

(** The path components from the base directory (excluded) down to the
    candidate directory (included). *)
Definition components_below_base (base candidate : string) : list string :=
  split sep (relative_path base candidate).

(** "any path component strictly between the base directory and the
    candidate": the candidate's own name is left out as well. *)
Definition components_strictly_between (base candidate : string) : list string :=
  removelast (components_below_base base candidate).

(** The selectors of the read operation. *)
Definition recognized_selectors : list string :=
  [""; "full"; "schema"; "data"; "options"; "view"].

End SpecWords.

Module Claims.
Import PyStr OsPath Tasks SpecWords.

(** The claim on the filter read with "strictly between": a hidden
    component above the candidate keeps it out, and a candidate without one
    passes the filter. *)
Definition filter_strictly_between : Prop :=
  forall (w : World) (base tasklet : string) (r : Registry),
    let candidate := dirname tasklet in
    startswith candidate base = true ->
    (existsb hidden_chunk (components_strictly_between base candidate) = true ->
     discover_one w base tasklet r = (r, None))
    /\ (existsb hidden_chunk (components_strictly_between base candidate) = false ->
        append_flag base candidate = true).


(** The claim on [redact] as it stands, for every input object: the call
    returns the object, and in it every string is as it was or, at a
    password position, replaced. *)
Definition redact_returns_for_every_object : Prop :=
  forall (h : Password.store) (pws : list string) (obj : Password.val),
    exists depth h' pws',
      Password.redact depth h pws obj false = Ok (h', pws', obj)
      /\ forall path s,
           Password.lookup h path obj = Some (Password.VStr s) ->
           Password.lookup h' path obj
           = Some (Password.VStr (if Password.password_position path
                                  then "__redacted__" else s)).

End Claims.

Module Scenarios.
Import PyStr OsPath Tasks.

(** Stands for the hexadecimal digest of [xxhash]: a function of the path
    string alone. *)
Definition digest (s : string) : string := "xxh64(" ++ s ++ ")".

(** Flask's [add_url_rule] refuses a second view class for an endpoint. *)
Definition flask_route (endpoints : list string) (endpoint : string) : result unit :=
  if list_in endpoint endpoints
  then Raise (Exn AssertionError_
                ("View function mapping is overwriting an existing endpoint function: api."
                 ++ endpoint))
  else Ok tt.

(** A router that takes every registration. *)
Definition lenient_route (endpoints : list string) (endpoint : string) : result unit :=
  Ok tt.

(** Modelled from the spec: the request parser [task_arguments] of
    [jinjamator.daemon.api.parsers], which is not among the sources.  The
    spec gives [schema-type] as an enumeration of full, schema, data,
    options and view with default full, and [preload-defaults-from-site] as
    an optional string; [discover_tasks] gives the latter the default ['']. *)
Definition parse_args_enum (query : list (string * string))
    : result (list (string * option string)) :=
  let schema_type := PyDict.get_default query "schema-type" "full" in
  if list_in schema_type ["full"; "schema"; "data"; "options"; "view"]
  then Ok [("schema-type", Some schema_type);
           ("preload-defaults-from-site",
            Some (PyDict.get_default query "preload-defaults-from-site" ""))]
  else Raise (Exn Exception_
                ("400 Bad Request: The value '" ++ schema_type
                 ++ "' is not a valid choice for 'schema-type'.")).

(** A parser without choices: every query value is handed on. *)
Definition parse_args_any (query : list (string * string))
    : result (list (string * option string)) :=
  Ok (map (fun kv => (fst kv, Some (snd kv))) query).

Definition no_such_task (p : string) : exn :=
  Exn Exception_ ("no task found at " ++ p).

(** A world given by tables: the files matched by each pattern, the outcome
    of the documentation helper per directory (default: no description),
    and the outcome of loading a task per path. *)
Definition world
    (files : list (string * list string))
    (docs : list (string * result (option string)))
    (tasks : list (string * result (list (string * pyobj))))
    (route : list string -> string -> result unit)
    (parser : list (string * string) -> result (list (string * option string)))
    : World :=
  {| glob := fun pattern => PyDict.get_default files pattern [];
     xxh64_hexdigest := digest;
     get_section_from_task_doc := fun d => PyDict.get_default docs d (Ok None);
     get_jsonform_schema :=
       fun _ p => PyDict.get_default tasks p (Raise (no_such_task p));
     ns_route := route;
     site_path_by_name := [("prod/vienna", "/sites/prod/vienna")];
     parse_args := parser;
     validates := fun _ _ => true |}.

Definition vlan_schema : list (string * pyobj) :=
  [("schema", PDict [("type", PStr "object");
                     ("properties", PDict [("vlan_id", PDict [("type", PStr "integer")])])]);
   ("data", PDict [("vlan_id", PInt 10)]);
   ("options", PDict [("fields", PDict [])]);
   ("view", PDict [("wizard", PDict [])])].

(** One task directory holding a [.py] and a [.j2] tasklet. *)
Definition two_tasklets : World :=
  world [("/tasks/**/*.py", ["/tasks/net/vlan/task.py"]);
         ("/tasks/**/*.j2", ["/tasks/net/vlan/config.j2"])]
        [("/tasks/net/vlan", Ok (Some "configures a vlan"))]
        [("/tasks/net/vlan", Ok vlan_schema); ("net/vlan", Ok vlan_schema)]
        flask_route parse_args_enum.

Definition two_tasklets_lenient : World :=
  world [("/tasks/**/*.py", ["/tasks/net/vlan/task.py"]);
         ("/tasks/**/*.j2", ["/tasks/net/vlan/config.j2"])]
        [("/tasks/net/vlan", Ok (Some "configures a vlan"))]
        [("/tasks/net/vlan", Ok vlan_schema); ("net/vlan", Ok vlan_schema)]
        lenient_route parse_args_any.

(** A task whose definition cannot be loaded next to one that can. *)
Definition one_broken : World :=
  world [("/tasks/**/*.py", ["/tasks/bad/task.py"; "/tasks/good/task.py"])]
        []
        [("/tasks/bad", Raise (Exn Exception_ "TaskLoadError: invalid syntax"));
         ("/tasks/good", Ok vlan_schema)]
        flask_route parse_args_enum.

(** A task whose documentation cannot be read next to one that is fine,
    and the same tree without the first. *)
Definition doc_unreadable : World :=
  world [("/tasks/**/*.py", ["/tasks/a/task.py"; "/tasks/b/task.py"])]
        [("/tasks/a", Raise (Exn Exception_ "UnicodeDecodeError: invalid start byte"))]
        [("/tasks/a", Ok vlan_schema); ("/tasks/b", Ok vlan_schema)]
        flask_route parse_args_enum.

Definition doc_unreadable_absent : World :=
  world [("/tasks/**/*.py", ["/tasks/b/task.py"])]
        []
        [("/tasks/a", Ok vlan_schema); ("/tasks/b", Ok vlan_schema)]
        flask_route parse_args_enum.

(** A task below a directory that is named like the base directory. *)
Definition base_name_again : World :=
  world [("/tasks/**/*.py", ["/tasks/net/tasks/vlan/task.py"])]
        []
        [("/tasks/net/tasks/vlan", Ok vlan_schema)]
        flask_route parse_args_enum.

(** The example of the specification: one task and a [.git] directory. *)
Definition with_git : World :=
  world [("/tasks/**/*.py", ["/tasks/net/vlan/task.py"; "/tasks/.git/task.py"])]
        []
        [("/tasks/net/vlan", Ok vlan_schema); ("/tasks/.git", Ok vlan_schema)]
        flask_route parse_args_enum.

(** A registry in which [net/vlan] has been discovered. *)
Definition vlan_registered : Registry :=
  fst (discover_tasks with_git ["/tasks"] empty_registry).

Definition get_request (selector : string) : request :=
  {| endpoint := "api.net/vlan";
     query := [("schema-type", selector)];
     payload := PNone |}.

Definition post_request_vlan : request :=
  {| endpoint := "api.net/vlan";
     query := [];
     payload := PDict [("vlan_id", PInt 10)] |}.

(** A host on which the web-UI package is not installed. *)
Definition no_webui_package : Daemon.Host :=
  {| Daemon.setup := None;
     Daemon.import_module :=
       fun name => Raise (Exn ModuleNotFoundError_ ("No module named '" ++ name ++ "'"));
     Daemon.register_blueprint := fun _ => (true, None) |}.

Definition fresh_app : Daemon.App :=
  {| Daemon.blueprints := []; Daemon.log := [] |}.

(** The process that Werkzeug's reloader starts, a first start in the
    parent of the fork, and the same in its child. *)
Definition reloaded : Run.Platform :=
  {| Run.os_environ := [("WERKZEUG_RUN_MAIN", "true")];
     Run.os_fork := Ok 0%Z;
     Run.discover_output_plugins := None;
     Run.discover_environments := None |}.

Definition parent_process : Run.Platform :=
  {| Run.os_environ := [("HOME", "/root")];
     Run.os_fork := Ok 4711%Z;
     Run.discover_output_plugins := None;
     Run.discover_environments := None |}.

Definition child_process : Run.Platform :=
  {| Run.os_environ := [("HOME", "/root")];
     Run.os_fork := Ok 0%Z;
     Run.discover_output_plugins := None;
     Run.discover_environments := None |}.

Definition daemon_cfg : list (string * pyobj) :=
  [("daemon_listen_port", PInt 8080);
   ("celery_broker", PStr "filesystem://");
   ("celery_beat_database", PStr "/var/lib/jinjamator/beat.db")].

(** [d = {'password': 'x'}; obj = [d, d, 'keep']]: the list holds the same
    dictionary twice. *)
Definition shared_dict : Password.store :=
  [Password.ODict [(Password.KStr "password", Password.VStr "x")];
   Password.OList [Password.VRef 0; Password.VRef 0; Password.VStr "keep"]].

(** [{1: 'x'}] *)
Definition int_key : Password.store :=
  [Password.ODict [(Password.KInt 1, Password.VStr "x")]].

(** [obj = []; obj.append(obj)]: a list that contains itself. *)
Definition self_containing : Password.store :=
  [Password.OList [Password.VRef 0]].

(** [{'host': 'r1', 'ports': [22, 'ssh']}] *)
Definition no_password : Password.store :=
  [Password.OList [Password.VInt 22; Password.VStr "ssh"];
   Password.ODict [(Password.KStr "host", Password.VStr "r1");
                   (Password.KStr "ports", Password.VRef 0)]].

End Scenarios.
(* ===================================================================== *)
(** * Properties *)
(* ===================================================================== *)

(** Examples that pin the string functions down on Python's own results. *)
Example replace_all_occurrences :
  PyStr.replace "/tasks/net/tasks/vlan" "/tasks" "" = "/net/vlan".
Proof. reflexivity. Qed.

Example replace_non_overlapping : PyStr.replace "aaa" "aa" "b" = "ba".
Proof. reflexivity. Qed.

Example replace_empty_old : PyStr.replace "ab" "" "-" = "-a-b-".
Proof. reflexivity. Qed.

Example split_leading_sep :
  PyStr.split OsPath.sep "/net/vlan" = [""; "net"; "vlan"].
Proof. reflexivity. Qed.

Example split_empty : PyStr.split OsPath.sep "" = [""].
Proof. reflexivity. Qed.

Example dirname_file : OsPath.dirname "/tasks/net/vlan/task.py" = "/tasks/net/vlan".
Proof. reflexivity. Qed.

Example dirname_root : OsPath.dirname "/task.py" = "/".
Proof. reflexivity. Qed.

Example dirname_double_sep : OsPath.dirname "/a//b" = "/a".
Proof. reflexivity. Qed.

Example dirname_no_sep : OsPath.dirname "task.py" = "".
Proof. reflexivity. Qed.

Example join_pattern : OsPath.join "/tasks" ["**"; "*.py"] = "/tasks/**/*.py".
Proof. reflexivity. Qed.

Example join_trailing_sep : OsPath.join "/tasks/" ["net"] = "/tasks/net".
Proof. reflexivity. Qed.

Example join_absolute : OsPath.join "/tasks" ["/etc"] = "/etc".
Proof. reflexivity. Qed.

Example lower_mixed : PyStr.lower "DisAbled" = "disabled".
Proof. reflexivity. Qed.


(** ** Facts about the string functions *)

Module PyStrFacts.
Import PyStr.

Lemma startswith_app (p s : string) : startswith (p ++ s) p = true.
Proof.
  induction p as [|c p IH]; simpl; [reflexivity|].
  rewrite Ascii.eqb_refl. exact IH.
Qed.

Lemma startswith_split (s p : string) :
  startswith s p = true -> exists t, s = p ++ t.
Proof.
  revert s. induction p as [|c p IH]; intros s H; simpl in *.
  - exists s. reflexivity.
  - destruct s as [|d s]; [discriminate|].
    apply andb_true_iff in H. destruct H as [Hc Hs].
    apply Ascii.eqb_eq in Hc. subst d.
    destruct (IH _ Hs) as [t ->]. exists t. reflexivity.
Qed.

Lemma str_in_cons_false (p : string) (c : ascii) (s : string) :
  str_in p (String c s) = false ->
  startswith (String c s) p = false /\ str_in p s = false.
Proof. simpl. intros H. apply orb_false_iff in H. exact H. Qed.

Lemma str_in_empty (s : string) : str_in "" s = true.
Proof. destruct s; reflexivity. Qed.

(** Once a match is found its remaining characters are skipped. *)
Lemma replace_from_skip (old new p s : string) :
  replace_from old new (String.length p) (p ++ s) = replace_from old new 0 s.
Proof.
  induction p as [|c p IH]; simpl.
  - destruct s; reflexivity.
  - exact IH.
Qed.

Lemma replace_from_match (c : ascii) (old' new t : string) :
  replace_from (String c old') new 0 (String c old' ++ t)
  = new ++ replace_from (String c old') new 0 t.
Proof.
  change (String c old' ++ t) with (String c (old' ++ t)).
  cbn [replace_from].
  change (String c (old' ++ t)) with (String c old' ++ t).
  rewrite startswith_app.
  cbn [String.length]. rewrite Nat.sub_succ, Nat.sub_0_r.
  rewrite replace_from_skip. reflexivity.
Qed.

(** A string without an occurrence of [old] is left as it is. *)
Lemma replace_from_absent (old new s : string) :
  str_in old s = false -> replace_from old new 0 s = s.
Proof.
  induction s as [|c s IH]; intros H; [reflexivity|].
  apply str_in_cons_false in H. destruct H as [H1 H2].
  cbn [replace_from]. rewrite H1, (IH H2). reflexivity.
Qed.

(** [str.replace] strips a leading [base] and nothing else exactly when
    [base] does not occur again. *)
Lemma replace_prefix_once (base rest : string) :
  base <> "" -> str_in base rest = false ->
  replace (base ++ rest) base "" = rest.
Proof.
  intros Hne Habs. destruct base as [|c base]; [congruence|].
  unfold replace. rewrite replace_from_match.
  rewrite replace_from_absent by exact Habs. reflexivity.
Qed.

Lemma list_in_In (x : string) (l : list string) :
  list_in x l = true <-> In x l.
Proof.
  induction l as [|y l IH]; simpl.
  - split; [discriminate | tauto].
  - rewrite orb_true_iff, IH, String.eqb_eq. split; intros [H|H]; auto.
Qed.

Lemma list_in_not_In (x : string) (l : list string) :
  list_in x l = false <-> ~ In x l.
Proof.
  rewrite <- list_in_In. destruct (list_in x l); split; intros; congruence.
Qed.

End PyStrFacts.

Module PyDictFacts.
Import PyDict.

Section Facts.
Context {V : Type}.
Implicit Types (d : list (string * V)) (k : string) (v : V).

Lemma get_set_same d k v : get (set d k v) k = Some v.
Proof.
  induction d as [|[k' v'] d IH]; simpl.
  - rewrite String.eqb_refl. reflexivity.
  - destruct (String.eqb k k') eqn:E; simpl.
    + rewrite String.eqb_refl. reflexivity.
    + rewrite E. exact IH.
Qed.

Lemma get_set_other d k k' v : k' <> k -> get (set d k v) k' = get d k'.
Proof.
  intros Hne. induction d as [|[k0 v0] d IH]; simpl.
  - destruct (String.eqb_spec k' k); [contradiction | reflexivity].
  - destruct (String.eqb_spec k k0) as [->|Hk]; simpl.
    + destruct (String.eqb_spec k' k0); [contradiction | reflexivity].
    + destruct (String.eqb_spec k' k0); [reflexivity | exact IH].
Qed.

Lemma mem_set_same d k v : mem k (set d k v) = true.
Proof. unfold mem. rewrite get_set_same. reflexivity. Qed.

Lemma get_In_keys d k v : get d k = Some v -> In k (keys d).
Proof.
  induction d as [|[k' v'] d IH]; simpl; [discriminate|].
  destruct (String.eqb_spec k k') as [->|Hk]; intros H; auto.
Qed.

Lemma get_None_keys d k : get d k = None <-> ~ In k (keys d).
Proof.
  induction d as [|[k' v'] d IH]; simpl.
  - tauto.
  - destruct (String.eqb_spec k k') as [->|Hk].
    + split; [discriminate | intros H; exfalso; apply H; auto].
    + rewrite IH. split; intros H; [intros [E|E]; [congruence | auto] | auto].
Qed.

(** Assigning to a key that is present keeps the keys; a new key is
    added last. *)
Lemma keys_set d k v :
  keys (set d k v) = if mem k d then keys d else (keys d ++ [k])%list.
Proof.
  unfold mem. induction d as [|[k' v'] d IH]; simpl; [reflexivity|].
  destruct (String.eqb_spec k k') as [->|Hk]; simpl; [reflexivity|].
  rewrite IH. destruct (get d k); reflexivity.
Qed.

(** A dictionary never holds a key twice. *)
Lemma set_NoDup d k v : NoDup (keys d) -> NoDup (keys (set d k v)).
Proof.
  intros Hnd. rewrite keys_set. unfold mem.
  destruct (get d k) eqn:E; [exact Hnd|].
  apply get_None_keys in E.
  apply NoDup_app; [exact Hnd | repeat constructor; simpl; tauto|].
  intros x Hx [<-|[]]. contradiction.
Qed.
End Facts.
End PyDictFacts.

(** ** Discovery: the hidden-directory filter and the relative path *)

Module FilterFacts.
Import PyStr OsPath Tasks SpecWords Claims PyStrFacts.

Lemma scan_chunks_existsb (chunks : list string) :
  scan_chunks chunks true = negb (existsb hidden_chunk chunks).
Proof.
  induction chunks as [|c chunks IH]; simpl; [reflexivity|].
  destruct (hidden_chunk c); simpl; [reflexivity | exact IH].
Qed.

Lemma drop_app (p s : string) : drop (String.length p) (p ++ s) = s.
Proof.
  induction p as [|c p IH]; simpl; [destruct s; reflexivity | exact IH].
Qed.

Lemma strip_prefix_app (base rest : string) : strip_prefix base (base ++ rest) = rest.
Proof. unfold strip_prefix. rewrite startswith_app. apply drop_app. Qed.

(** The empty chunk in front of a leading separator is never hidden, so the
    chunks the code inspects and the components below the base directory
    agree on hidden names. *)
Lemma hidden_components_below_base (base rest : string) :
  existsb hidden_chunk (components_below_base base (base ++ rest))
  = existsb hidden_chunk (split sep rest).
Proof.
  unfold components_below_base, relative_path. rewrite strip_prefix_app.
  destruct rest as [|c rest]; [reflexivity|].
  unfold sep_str. cbn [startswith].
  destruct (Ascii.eqb_spec "/"%char c) as [<-|Hc]; cbn [andb].
  - reflexivity.
  - reflexivity.
Qed.

Lemma append_flag_prefix_once (base rest : string) :
  base <> "" -> str_in base rest = false ->
  append_flag base (base ++ rest)
  = negb (existsb hidden_chunk (components_below_base base (base ++ rest))).
Proof.
  intros Hne Habs. unfold append_flag.
  rewrite replace_prefix_once by assumption.
  rewrite scan_chunks_existsb, hidden_components_below_base. reflexivity.
Qed.

(** Where the base directory occurs once, [dir_name] is the path below it. *)
Lemma dir_name_of_prefix_once (base rel : string) :
  base <> "" -> str_in base (sep_str ++ rel) = false ->
  dir_name_of base (base ++ sep_str ++ rel) = rel
  /\ relative_path base (base ++ sep_str ++ rel) = rel.
Proof.
  intros Hne Habs. unfold dir_name_of, relative_path.
  rewrite replace_prefix_once by assumption.
  rewrite strip_prefix_app. split; reflexivity.
Qed.

(** C5, as stated, fails: the candidate [/tasks/.git] has no component
    strictly between the base directory [/tasks] and itself, and the filter
    removes it all the same, because the candidate's own name is inspected
    too. *)
Lemma filter_strictly_between_fails : ~ filter_strictly_between.
Proof.
  intros H.
  destruct (H Scenarios.with_git "/tasks" "/tasks/.git/task.py" empty_registry eq_refl)
    as [_ H2].
  specialize (H2 eq_refl). vm_compute in H2. discriminate.
Qed.

(** C5, amended: for a candidate directory [base ++ rest] in which the base
    directory string occurs only as the leading prefix, a path component
    below the base directory -- the candidate's own name included -- that
    starts with ['.'] or equals ['__pycache__'] makes discovery leave the
    registry, the models, the routes and the log untouched; a candidate
    with no such component passes the filter, and is then entered in
    [available_tasks_by_path] once its description is read and its digest
    is not a key of that table. *)
Theorem hidden_filter_below_base
    (w : World) (base rest tasklet : string) (r : Registry) :
  base <> "" ->
  str_in base rest = false ->
  dirname tasklet = base ++ rest ->
  let hidden :=
    existsb hidden_chunk (components_below_base base (base ++ rest)) in
  (hidden = true -> discover_one w base tasklet r = (r, None))
  /\ (hidden = false -> append_flag base (base ++ rest) = true)
  /\ (hidden = false ->
      forall doc,
        get_section_from_task_doc w (base ++ rest) = Ok doc ->
        PyDict.mem (xxh64_hexdigest w (base ++ rest)) (available_tasks_by_path r) = false ->
        PyDict.mem (dir_name_of base (base ++ rest))
          (available_tasks_by_path (fst (discover_one w base tasklet r))) = true).
Proof.
  intros Hne Habs Hdir hidden.
  pose proof (append_flag_prefix_once base rest Hne Habs) as Hflag.
  fold hidden in Hflag.
  split; [|split].
  - intros Hh. unfold discover_one. rewrite Hdir, Hflag, Hh. reflexivity.
  - intros Hh. rewrite Hflag, Hh. reflexivity.
  - intros Hh doc Hdoc Hid. unfold discover_one.
    rewrite Hdir, Hflag, Hh. cbn [negb]. rewrite Hdoc.
    cbn [build_task_info id path]. rewrite Hid. cbn [negb].
    set (ti := build_task_info w base (base ++ rest) doc).
    set (r1 := set_available_tasks_by_path r _).
    assert (Hr1 : PyDict.mem (dir_name_of base (base ++ rest))
                    (available_tasks_by_path r1) = true).
    { subst r1. cbn [set_available_tasks_by_path available_tasks_by_path].
      apply PyDictFacts.mem_set_same. }
    unfold try_register.
    destruct (get_jsonform_schema w None _) as [full|e].
    + destruct (PyDict.get full "schema") as [data|].
      * destruct (ns_route w _ _) as [u|e]; [exact Hr1|].
        destruct (is_Exception e); exact Hr1.
      * exact Hr1.
    + destruct (is_Exception e); exact Hr1.
Qed.

(** The specification's example: [/tasks/net/vlan] is found and [.git] is
    left out, and nothing is assumed that the example does not satisfy. *)
Lemma hidden_filter_below_base_witness :
  discover_one Scenarios.with_git "/tasks" "/tasks/.git/task.py" empty_registry
  = (empty_registry, None)
  /\ append_flag "/tasks" "/tasks/net/vlan" = true.
Proof.
  split.
  - apply (hidden_filter_below_base Scenarios.with_git "/tasks" "/.git"
             "/tasks/.git/task.py" empty_registry);
      [discriminate | reflexivity | reflexivity | reflexivity].
  - apply (hidden_filter_below_base Scenarios.with_git "/tasks" "/net/vlan"
             "/tasks/net/vlan/task.py" empty_registry);
      [discriminate | reflexivity | reflexivity | reflexivity].
Defined.

(** Outside the amended statement: when the base directory string occurs
    again inside the path, [str.replace] removes that occurrence too, and
    with it a hidden component ([/.b/x/.b/y] under [/.b] passes the filter)
    or the separator in front of a harmless one ([/t/__pyc/tache__] under
    [/t] is filtered). *)
Example filter_base_name_again :
  append_flag "/.b" "/.b/x/.b/y" = true
  /\ existsb hidden_chunk (components_below_base "/.b" "/.b/x/.b/y") = true
  /\ append_flag "/t" "/t/__pyc/tache__" = false
  /\ existsb hidden_chunk (components_below_base "/t" "/t/__pyc/tache__") = false.
Proof. repeat split. Qed.

(** C6 fails on the code: with the base directory [/tasks] and the task
    directory [/tasks/net/tasks/vlan], [str.replace] deletes the second
    [/tasks] as well.  The descriptor is keyed [net/vlan] although the path
    relative to the base directory is [net/tasks/vlan], and joining the
    base directory and the stored path, as the code does to load the task,
    does not lead back to the task directory. *)
Theorem relative_path_base_name_again :
  dir_name_of "/tasks" (dirname "/tasks/net/tasks/vlan/task.py") = "net/vlan"
  /\ relative_path "/tasks" (dirname "/tasks/net/tasks/vlan/task.py") = "net/tasks/vlan"
  /\ PyDict.keys (available_tasks_by_path
       (fst (discover_tasks Scenarios.base_name_again ["/tasks"] empty_registry)))
     = ["net/vlan"]
  /\ join "/tasks" ["net/vlan"] <> dirname "/tasks/net/tasks/vlan/task.py".
Proof.
  repeat split; try reflexivity. vm_compute. discriminate.
Qed.

End FilterFacts.

(** ** Discovery: the registry across a pass *)

Module DiscoveryFacts.
Import PyStr OsPath Tasks SpecWords.

Section Loop.
Context {A : Type}.
Variable body : A -> Registry -> Registry * option exn.

(** What every iteration preserves holds when the loop is left, however
    it is left. *)
Lemma for_each_invariant (P : Registry -> Prop) :
  (forall x r, P r -> P (fst (body x r))) ->
  forall l r, P r -> P (fst (for_each body l r)).
Proof.
  intros Hbody l. induction l as [|x l IH]; intros r Hr; simpl; [exact Hr|].
  specialize (Hbody x r Hr).
  destruct (body x r) as [r' [e|]]; simpl in *; [exact Hbody | apply IH, Hbody].
Qed.

(** A loop whose body never lets an exception out runs to its end. *)
Lemma for_each_completes :
  (forall x r, snd (body x r) = None) ->
  forall l r, snd (for_each body l r) = None.
Proof.
  intros Hbody l. induction l as [|x l IH]; intros r; simpl; [reflexivity|].
  specialize (Hbody x r).
  destruct (body x r) as [r' [e|]]; simpl in *; [discriminate | apply IH].
Qed.
End Loop.

Lemma try_register_by_path (w : World) (task_dir : string) (ti : task_info) (r : Registry) :
  available_tasks_by_path (fst (try_register w task_dir ti r))
  = available_tasks_by_path r.
Proof.
  unfold try_register.
  destruct (get_jsonform_schema w None _) as [full|e]; [|reflexivity].
  destruct (PyDict.get full "schema") as [data|]; [|reflexivity].
  destruct (ns_route w _ _); reflexivity.
Qed.

(** One iteration leaves [available_tasks_by_path] alone or assigns one key. *)
Lemma discover_one_by_path (w : World) (base tasklet : string) (r : Registry) :
  available_tasks_by_path (fst (discover_one w base tasklet r))
  = available_tasks_by_path r
  \/ exists ti,
       available_tasks_by_path (fst (discover_one w base tasklet r))
       = PyDict.set (available_tasks_by_path r) (path ti) ti.
Proof.
  unfold discover_one.
  destruct (append_flag base (dirname tasklet)); [|left; reflexivity].
  destruct (get_section_from_task_doc w _) as [doc|e]; [|left; reflexivity].
  set (ti := build_task_info w base (dirname tasklet) doc).
  destruct (PyDict.mem (id ti) _); cbn [negb]; [left; reflexivity|].
  right. exists ti.
  set (r1 := set_available_tasks_by_path r _).
  pose proof (try_register_by_path w (dirname tasklet) ti r1) as H.
  destruct (try_register w (dirname tasklet) ti r1) as [r2 [e|]]; simpl in *.
  - destruct (is_Exception e); simpl; exact H.
  - exact H.
Qed.

(** The part of C1 that the dictionary itself gives: whatever a pass
    traverses, and however often, no relative path is bound twice. *)
Lemma discover_tasks_keys_NoDup (w : World) (bases : list string) (r : Registry) :
  NoDup (PyDict.keys (available_tasks_by_path r)) ->
  NoDup (PyDict.keys (available_tasks_by_path (fst (discover_tasks w bases r)))).
Proof.
  set (P := fun r : Registry => NoDup (PyDict.keys (available_tasks_by_path r))).
  unfold discover_tasks. apply (for_each_invariant _ P).
  intros base r0 H0. apply (for_each_invariant _ P); [|exact H0].
  intros ext r1 H1. apply (for_each_invariant _ P); [|exact H1].
  intros tasklet r2 Hnd. unfold P in *.
  destruct (discover_one_by_path w base tasklet r2) as [->|[ti ->]];
    [exact Hnd | apply PyDictFacts.set_NoDup, Hnd].
Qed.

(** The guard of line 51 looks the digest up among the relative paths: a
    candidate whose relative path is present already is processed again
    unless its digest happens to be a key too. *)
Lemma present_path_not_skipped
    (w : World) (base tasklet : string) (r : Registry) (doc : option string) :
  append_flag base (dirname tasklet) = true ->
  get_section_from_task_doc w (dirname tasklet) = Ok doc ->
  PyDict.mem (xxh64_hexdigest w (dirname tasklet)) (available_tasks_by_path r) = false ->
  discover_one w base tasklet r <> (r, None).
Proof.
  intros Happ Hdoc Hid. unfold discover_one.
  rewrite Happ, Hdoc. cbn [build_task_info id]. rewrite Hid. cbn [negb].
  set (ti := build_task_info w base (dirname tasklet) doc).
  set (r1 := set_available_tasks_by_path r _).
  assert (Hlog1 : log r1 = log r) by reflexivity.
  unfold try_register.
  destruct (get_jsonform_schema w None _) as [full|e].
  - destruct (PyDict.get full "schema") as [data|].
    + destruct (ns_route w _ _) as [u|e].
      * intros H. apply (f_equal (fun p => List.length (log (fst p)))) in H.
        simpl in H. rewrite length_app in H. simpl in H. lia.
      * destruct (is_Exception e); [|discriminate].
        intros H. apply (f_equal (fun p => List.length (log (fst p)))) in H.
        simpl in H. rewrite !length_app in H. simpl in H. lia.
    + intros H. apply (f_equal (fun p => List.length (log (fst p)))) in H.
      simpl in H. rewrite length_app in H. simpl in H. lia.
  - destruct (is_Exception e); [|discriminate].
    intros H. apply (f_equal (fun p => List.length (log (fst p)))) in H.
    simpl in H. rewrite length_app in H. simpl in H. lia.
Qed.

(** An exception inside the [try] statement is logged, and the descriptor
    assigned before the [try] stays in [available_tasks_by_path]. *)
Lemma load_failure_keeps_entry
    (w : World) (base tasklet : string) (r : Registry) (doc : option string) (e : exn) :
  append_flag base (dirname tasklet) = true ->
  get_section_from_task_doc w (dirname tasklet) = Ok doc ->
  PyDict.mem (xxh64_hexdigest w (dirname tasklet)) (available_tasks_by_path r) = false ->
  get_jsonform_schema w None (join base [dir_name_of base (dirname tasklet)]) = Raise e ->
  is_Exception e = true ->
  let ti := build_task_info w base (dirname tasklet) doc in
  discover_one w base tasklet r
  = (log_write
       (set_available_tasks_by_path r
          (PyDict.set (available_tasks_by_path r) (path ti) ti))
       ERROR ("unable to register " ++ dirname tasklet ++ ": " ++ str_exn e),
     None).
Proof.
  intros Happ Hdoc Hid Hload Hexc ti. unfold discover_one.
  rewrite Happ, Hdoc. cbn [build_task_info id]. rewrite Hid. cbn [negb].
  unfold try_register. cbn [build_task_info base_dir path].
  rewrite Hload, Hexc. reflexivity.
Qed.

(** Exceptions raised inside the [try] statement never leave an iteration,
    provided they derive from [Exception]. *)
Lemma discover_one_catches (w : World) (base tasklet : string) (r : Registry) :
  (forall d e, get_section_from_task_doc w d <> Raise e) ->
  (forall o p e, get_jsonform_schema w o p = Raise e -> is_Exception e = true) ->
  (forall eps ep e, ns_route w eps ep = Raise e -> is_Exception e = true) ->
  snd (discover_one w base tasklet r) = None.
Proof.
  intros Hdoc Hload Hroute. unfold discover_one.
  destruct (append_flag base (dirname tasklet)); [|reflexivity].
  destruct (get_section_from_task_doc w _) as [doc|e] eqn:Ed;
    [|exfalso; exact (Hdoc _ _ Ed)].
  destruct (negb _); [|reflexivity].
  unfold try_register.
  destruct (get_jsonform_schema w None _) as [full|e] eqn:El.
  - destruct (PyDict.get full "schema") as [data|]; [|reflexivity].
    destruct (ns_route w _ _) as [u|e] eqn:Er; [reflexivity|].
    rewrite (Hroute _ _ _ Er). reflexivity.
  - rewrite (Hload _ _ _ El). reflexivity.
Qed.

(** The part of C3 that the [try] statement gives: when the documentation
    helper does not raise, a pass runs over all candidates to its end,
    whatever fails while a task is loaded, its schema derived or its route
    added. *)
Lemma discover_tasks_completes (w : World) (bases : list string) (r : Registry) :
  (forall d e, get_section_from_task_doc w d <> Raise e) ->
  (forall o p e, get_jsonform_schema w o p = Raise e -> is_Exception e = true) ->
  (forall eps ep e, ns_route w eps ep = Raise e -> is_Exception e = true) ->
  snd (discover_tasks w bases r) = None.
Proof.
  intros Hdoc Hload Hroute. unfold discover_tasks.
  apply for_each_completes. intros base r0.
  apply for_each_completes. intros ext r1.
  apply for_each_completes. intros tasklet r2.
  apply discover_one_catches; assumption.
Qed.

(** C1 fails on the code: the directory [/tasks/net/vlan] holds a [.py] and
    a [.j2] tasklet and is reached once per extension.  The second time its
    relative path [net/vlan] is in the registry, yet the candidate is not
    skipped: the guard looks up the digest, the task is loaded and its
    model registered again, and the resource is entered in the namespace a
    second time, which the application refuses when it does not take two
    view classes for one endpoint.  The table itself keeps one entry. *)
Theorem rediscovery_not_skipped :
  let r := fst (discover_tasks Scenarios.two_tasklets ["/tasks"] empty_registry) in
  PyDict.keys (available_tasks_by_path r) = ["net/vlan"]
  /\ routes r = ["net/vlan"; "net/vlan"]
  /\ log r
     = [(INFO, "registred model for task /tasks/net/vlan");
        (INFO, "registred model for task /tasks/net/vlan");
        (ERROR, "unable to register /tasks/net/vlan: View function mapping is overwriting an existing endpoint function: api.net/vlan")]
  /\ routes (fst (discover_tasks Scenarios.two_tasklets_lenient ["/tasks"] empty_registry))
     = ["net/vlan"; "net/vlan"].
Proof. vm_compute. repeat split. Qed.

(** C2 fails on the code: the definition of [/tasks/bad] cannot be loaded.
    The error is caught and logged and the pass goes on to [/tasks/good],
    but the descriptor of [bad], assigned before the [try] statement, is
    still in [available_tasks_by_path] and in the task list afterwards;
    only [task_models] and the routes are without it. *)
Theorem failed_candidate_stays_listed :
  let out := discover_tasks Scenarios.one_broken ["/tasks"] empty_registry in
  snd out = None
  /\ PyDict.mem "bad" (available_tasks_by_path (fst out)) = true
  /\ map path (TaskList_get (fst out)) = ["bad"; "good"]
  /\ PyDict.keys (task_models (fst out)) = ["good"]
  /\ routes (fst out) = ["good"]
  /\ log (fst out)
     = [(ERROR, "unable to register /tasks/bad: TaskLoadError: invalid syntax");
        (INFO, "registred model for task /tasks/good")].
Proof. vm_compute. repeat split. Qed.

(** C3 fails on the code: the description is extracted while [task_info] is
    built, before the [try] statement.  When the helper raises for
    [/tasks/a], the exception leaves [discover_tasks]; [/tasks/b], which is
    registered when [/tasks/a] is absent, is never reached. *)
Theorem doc_failure_aborts_pass :
  let out := discover_tasks Scenarios.doc_unreadable ["/tasks"] empty_registry in
  let ref := discover_tasks Scenarios.doc_unreadable_absent ["/tasks"] empty_registry in
  snd out = Some (Exn Exception_ "UnicodeDecodeError: invalid start byte")
  /\ PyDict.mem "b" (available_tasks_by_path (fst out)) = false
  /\ routes (fst out) = []
  /\ snd ref = None
  /\ PyDict.mem "b" (available_tasks_by_path (fst ref)) = true
  /\ routes (fst ref) = ["b"].
Proof. vm_compute. repeat split. Qed.

End DiscoveryFacts.

(** ** The task endpoints *)

Module EndpointFacts.
Import PyStr Tasks SpecWords Claims.

Lemma get_parsed_full (w : World) (args : list (string * option string)) (ep : string) :
  PyDict.get_default args "schema-type" (Some "full") = Some "full" ->
  get_parsed w args ep
  = match synthesized w args ep with
    | Ok full_schema => Ok (jsonify (PDict full_schema))
    | Raise e => Raise e
    end.
Proof.
  intros Hst. unfold get_parsed, synthesized. rewrite Hst.
  destruct (get_jsonform_schema w _ _); reflexivity.
Qed.

Lemma get_parsed_section (w : World) (args : list (string * option string))
    (ep sel : string) :
  PyDict.get_default args "schema-type" (Some "full") = Some sel ->
  In sel ["schema"; "data"; "options"; "view"] ->
  get_parsed w args ep
  = match synthesized w args ep with
    | Ok full_schema => Ok (jsonify (section full_schema sel))
    | Raise e => Raise e
    end.
Proof.
  intros Hst Hsel. unfold get_parsed, synthesized. rewrite Hst.
  destruct (get_jsonform_schema w _ _) as [full|e]; [|reflexivity].
  simpl in Hsel. destruct Hsel as [<-|[<-|[<-|[<-|[]]]]]; reflexivity.
Qed.

Lemma get_parsed_unknown (w : World) (args : list (string * option string)) (ep : string) :
  py_in (PyDict.get_default args "schema-type" (Some "full")) recognized_selectors = false ->
  get_parsed w args ep
  = match synthesized w args ep with
    | Ok _ => Raise (Exn UnboundLocalError_
                       "local variable 'response' referenced before assignment")
    | Raise e => Raise e
    end.
Proof.
  intros Hst. unfold get_parsed, synthesized.
  destruct (get_jsonform_schema w _ _) as [full|e]; [|reflexivity].
  cbn [bind].
  destruct (PyDict.get_default args "schema-type" (Some "full")) as [s|];
    [|reflexivity].
  unfold recognized_selectors in Hst. cbn [py_in list_in] in *.
  repeat (apply orb_false_iff in Hst; destruct Hst as [?H Hst]).
  repeat match goal with H : String.eqb _ _ = false |- _ => rewrite H; clear H end.
  reflexivity.
Qed.

(** C4 fails on the code: whatever the task and however valid the payload,
    [post] calls [log.info] without a message, which raises [TypeError],
    and the value it would return next is the empty object: no request
    obtains a [job_id], and nothing is handed to job submission. *)
Theorem post_returns_no_job_id
    (w : World) (r : Registry) (relative_path : string) (req : request) :
  (exists e, post_request w r relative_path req = Raise e)
  /\ post r = Raise (Exn TypeError_ "info() missing 1 required positional argument: 'msg'")
  /\ has_job_id post_return = false.
Proof.
  split; [|split; reflexivity].
  unfold post_request.
  destruct (PyDict.get (task_models r) relative_path) as [model|]; [|eauto].
  destruct (validates w model (payload req)); [|eauto].
  eexists. reflexivity.
Qed.

(** The registered task [net/vlan] and a payload that its model accepts. *)
Example post_vlan :
  PyDict.mem "net/vlan" (task_models Scenarios.vlan_registered) = true
  /\ post_request Scenarios.with_git Scenarios.vlan_registered "net/vlan"
       Scenarios.post_request_vlan
     = Raise (Exn TypeError_ "info() missing 1 required positional argument: 'msg'").
Proof. split; reflexivity. Qed.

(** C7: two reads of the same task that differ in the selector only, one
    with [full] and one with [schema], [data], [options] or [view], and
    between which the synthesis of the schema gives the same result.  When
    the full read answers with a schema, the other read answers with that
    schema's section of the selector's name -- the value stored under that
    name, or the empty object when the full schema has no such member --
    and when the full read raises, the other read raises the same. *)
Theorem section_of_full_schema
    (w : World) (req_full req_sel : request)
    (args_full args_sel : list (string * option string)) (sel : string) :
  parse_args w (query req_full) = Ok args_full ->
  parse_args w (query req_sel) = Ok args_sel ->
  endpoint req_sel = endpoint req_full ->
  PyDict.get_default args_sel "preload-defaults-from-site" None
  = PyDict.get_default args_full "preload-defaults-from-site" None ->
  PyDict.get_default args_full "schema-type" (Some "full") = Some "full" ->
  PyDict.get_default args_sel "schema-type" (Some "full") = Some sel ->
  In sel ["schema"; "data"; "options"; "view"] ->
  match get w req_full with
  | Ok full =>
      exists full_schema,
        json full = PDict full_schema
        /\ get w req_sel = Ok (jsonify (section full_schema sel))
        /\ (forall v, PyDict.get full_schema sel = Some v ->
                      get w req_sel = Ok (jsonify v))
  | Raise e => get w req_sel = Raise e
  end.
Proof.
  intros Hpf Hps Hep Hsite Hfull Hsel Hin.
  unfold get. rewrite Hpf, Hps. cbn [bind].
  rewrite (get_parsed_full _ _ _ Hfull), (get_parsed_section _ _ _ _ Hsel Hin).
  unfold synthesized. rewrite Hep, Hsite.
  destruct (get_jsonform_schema w _ _) as [full_schema|e]; [|reflexivity].
  exists full_schema. repeat split.
  intros v Hv. unfold section, PyDict.get_default. rewrite Hv. reflexivity.
Qed.

Lemma section_of_full_schema_witness :
  exists full_schema,
    json (jsonify (PDict Scenarios.vlan_schema)) = PDict full_schema
    /\ get Scenarios.two_tasklets (Scenarios.get_request "data")
       = Ok (jsonify (section full_schema "data"))
    /\ (forall v, PyDict.get full_schema "data" = Some v ->
                  get Scenarios.two_tasklets (Scenarios.get_request "data")
                  = Ok (jsonify v)).
Proof.
  exact (section_of_full_schema Scenarios.two_tasklets
           (Scenarios.get_request "full") (Scenarios.get_request "data")
           [("schema-type", Some "full"); ("preload-defaults-from-site", Some "")]
           [("schema-type", Some "data"); ("preload-defaults-from-site", Some "")]
           "data" eq_refl eq_refl eq_refl eq_refl eq_refl eq_refl
           (or_intror (or_introl eq_refl))).
Defined.


Example unknown_selector_rejected_by_parser :
  get Scenarios.two_tasklets (Scenarios.get_request "bogus")
  = Raise (Exn Exception_
             "400 Bad Request: The value 'bogus' is not a valid choice for 'schema-type'.")
  /\ get Scenarios.two_tasklets (Scenarios.get_request "full")
     = Ok (jsonify (PDict Scenarios.vlan_schema)).
Proof. split; reflexivity. Qed.



(** What the handler does return the full schema for. *)
Lemma full_schema_selectors (w : World) (args : list (string * option string)) (ep : string) :
  py_in (PyDict.get_default args "schema-type" (Some "full")) [""; "full"] = true ->
  get_parsed w args ep
  = match synthesized w args ep with
    | Ok full_schema => Ok (jsonify (PDict full_schema))
    | Raise e => Raise e
    end.
Proof.
  intros Hst. unfold get_parsed, synthesized. rewrite Hst.
  destruct (get_jsonform_schema w _ _); reflexivity.
Qed.

End EndpointFacts.

(** ** Password redaction *)

Module PasswordFacts.
Import PyStr Password PyStrFacts.

(** *** Lists *)

Lemma set_nth_length {A : Type} (l : list A) (n : nat) (x : A) :
  List.length (set_nth l n x) = List.length l.
Proof.
  revert n. induction l as [|y l IH]; intros [|n]; simpl; try reflexivity.
  rewrite IH. reflexivity.
Qed.

Lemma nth_error_set_nth_same {A : Type} (l : list A) (n : nat) (x y : A) :
  nth_error l n = Some y -> nth_error (set_nth l n x) n = Some x.
Proof.
  revert n. induction l as [|z l IH]; intros [|n]; simpl; try discriminate.
  - reflexivity.
  - apply IH.
Qed.

Lemma nth_error_set_nth_other {A : Type} (l : list A) (n m : nat) (x : A) :
  m <> n -> nth_error (set_nth l n x) m = nth_error l m.
Proof.
  revert n m. induction l as [|z l IH]; intros [|n] [|m] Hne; simpl;
    try reflexivity; try congruence.
  apply IH. congruence.
Qed.

Lemma set_nth_same {A : Type} (l : list A) (n : nat) (x : A) :
  nth_error l n = Some x -> set_nth l n x = l.
Proof.
  revert n. induction l as [|z l IH]; intros [|n]; simpl; try discriminate.
  - intros [= ->]. reflexivity.
  - intros H. rewrite (IH n H). reflexivity.
Qed.

Lemma map_set_nth {A B : Type} (f : A -> B) (l : list A) (n : nat) (x : A) :
  map f (set_nth l n x) = set_nth (map f l) n (f x).
Proof.
  revert n. induction l as [|z l IH]; intros [|n]; simpl; try reflexivity.
  rewrite IH. reflexivity.
Qed.

Lemma Forall2_refl {A : Type} (R : A -> A -> Prop) (l : list A) :
  (forall x, R x x) -> Forall2 R l l.
Proof. intros H. induction l; constructor; auto. Qed.

Lemma Forall2_trans {A : Type} (R S T : A -> A -> Prop) (a b c : list A) :
  (forall x y z, R x y -> S y z -> T x z) ->
  Forall2 R a b -> Forall2 S b c -> Forall2 T a c.
Proof.
  intros H Hab. revert c. induction Hab as [|x y a b Hxy Hab IH]; intros c Hbc;
    inversion Hbc; subst; constructor; eauto.
Qed.

Lemma Forall2_impl {A : Type} (R S : A -> A -> Prop) (a b : list A) :
  (forall x y, R x y -> S x y) -> Forall2 R a b -> Forall2 S a b.
Proof. intros H. induction 1; constructor; auto. Qed.

Lemma Forall2_nth_error {A : Type} (R : A -> A -> Prop) (a b : list A) (n : nat) (x : A) :
  Forall2 R a b -> nth_error a n = Some x ->
  exists y, nth_error b n = Some y /\ R x y.
Proof.
  intros H. revert n. induction H as [|x0 y0 a b Hxy Hab IH]; intros [|n]; simpl;
    try discriminate.
  - intros [= ->]. exists y0. split; [reflexivity | exact Hxy].
  - apply IH.
Qed.

Lemma Forall2_nth_error_r {A : Type} (R : A -> A -> Prop) (a b : list A) (n : nat) (y : A) :
  Forall2 R a b -> nth_error b n = Some y ->
  exists x, nth_error a n = Some x /\ R x y.
Proof.
  intros H. revert n. induction H as [|x0 y0 a b Hxy Hab IH]; intros [|n]; simpl;
    try discriminate.
  - intros [= ->]. exists x0. split; [reflexivity | exact Hxy].
  - apply IH.
Qed.

Lemma Forall2_set_nth {A : Type} (R : A -> A -> Prop) (a b : list A) (n : nat) (x y : A) :
  Forall2 R a b -> nth_error a n = Some x -> R x y ->
  Forall2 R a (set_nth b n y).
Proof.
  intros H. revert n. induction H as [|x0 y0 a b Hxy Hab IH]; intros [|n]; simpl;
    try discriminate.
  - intros [= ->] Hr. constructor; assumption.
  - intros Hn Hr. constructor; [assumption | apply IH; assumption].
Qed.

(** *** The order on slots, objects and stores *)

Lemma extends_refl (a : list string) : extends a a.
Proof. exists []. symmetry. apply app_nil_r. Qed.

Lemma extends_trans (a b c : list string) : extends a b -> extends b c -> extends a c.
Proof.
  intros [x ->] [y ->]. exists (x ++ y)%list. symmetry. apply app_assoc.
Qed.

Lemma extends_incl (a b : list string) : extends a b -> incl a b.
Proof. intros [x ->]. apply incl_appl, incl_refl. Qed.

Lemma record_extends (pws : list string) (s : string) : extends pws (record pws s).
Proof.
  unfold record. destruct (list_in s pws); [apply extends_refl | exists [s]; reflexivity].
Qed.

Lemma record_In (pws : list string) (s : string) : In s (record pws s).
Proof.
  unfold record. destruct (list_in s pws) eqn:E; [apply list_in_In, E|].
  apply in_or_app. right. left. reflexivity.
Qed.

Lemma record_NoDup (pws : list string) (s : string) :
  NoDup pws -> NoDup (record pws s).
Proof.
  intros Hnd. unfold record. destruct (list_in s pws) eqn:E; [exact Hnd|].
  apply list_in_not_In in E.
  apply NoDup_app; [exact Hnd | repeat constructor; simpl; tauto|].
  intros x Hx [<-|[]]. contradiction.
Qed.

Lemma val_le_refl (P : list string) (pass : bool) (v : val) : val_le P pass v v.
Proof. left. reflexivity. Qed.

Lemma val_le_trans (P P' : list string) (pass : bool) (a b c : val) :
  incl P P' -> val_le P pass a b -> val_le P' pass b c -> val_le P' pass a c.
Proof.
  intros Hincl [->|(Hp & s & -> & Hs & ->)] [->|(Hp' & s' & Hb & Hs' & ->)].
  - left. reflexivity.
  - right. split; [exact Hp'|]. exists s'. repeat split; assumption.
  - right. split; [exact Hp|]. exists s. repeat split; auto.
  - right. split; [exact Hp|]. exists s. repeat split; auto.
Qed.

Lemma val_le_mono (P P' : list string) (pass : bool) (a b : val) :
  incl P P' -> val_le P pass a b -> val_le P' pass a b.
Proof. intros Hincl H. eapply val_le_trans; [exact Hincl | exact H | apply val_le_refl]. Qed.

Lemma val_le_str (P : list string) (pass : bool) (a b : val) :
  val_le P pass a b -> isinstance_str b = isinstance_str a.
Proof. intros [->|(_ & s & -> & _ & ->)]; reflexivity. Qed.

Lemma val_le_not_str (P : list string) (pass : bool) (a b : val) :
  val_le P pass a b -> isinstance_str a = false -> b = a.
Proof. intros [->|(_ & s & -> & _ & _)]; [reflexivity | discriminate]. Qed.

Lemma val_le_no_pass (P : list string) (a b : val) : val_le P false a b -> b = a.
Proof. intros [->|(Hp & _)]; [reflexivity | discriminate]. Qed.

Lemma slot_le_refl (P : list string) (x : option key * val) : slot_le P x x.
Proof. split; [reflexivity | apply val_le_refl]. Qed.

Lemma slot_le_trans (P P' : list string) (x y z : option key * val) :
  incl P P' -> slot_le P x y -> slot_le P' y z -> slot_le P' x z.
Proof.
  intros Hincl [Hk1 Hv1] [Hk2 Hv2]. split; [congruence|].
  rewrite Hk1 in Hv2. eapply val_le_trans; eassumption.
Qed.

Lemma obj_le_refl (P : list string) (o : obj) : obj_le P o o.
Proof. split; [reflexivity | apply Forall2_refl, slot_le_refl]. Qed.

Lemma obj_le_trans (P P' : list string) (a b c : obj) :
  incl P P' -> obj_le P a b -> obj_le P' b c -> obj_le P' a c.
Proof.
  intros Hincl [Hd1 Hs1] [Hd2 Hs2]. split; [congruence|].
  eapply Forall2_trans; [|exact Hs1|exact Hs2].
  intros x y z. apply slot_le_trans, Hincl.
Qed.

Lemma heap_le_refl (P : list string) (h : store) : heap_le P h h.
Proof. apply Forall2_refl, obj_le_refl. Qed.

Lemma heap_le_trans (P P' : list string) (a b c : store) :
  incl P P' -> heap_le P a b -> heap_le P' b c -> heap_le P' a c.
Proof.
  intros Hincl Hab Hbc. eapply Forall2_trans; [|exact Hab|exact Hbc].
  intros x y z. apply obj_le_trans, Hincl.
Qed.

Lemma heap_le_mono (P P' : list string) (a b : store) :
  incl P P' -> heap_le P a b -> heap_le P' a b.
Proof.
  intros Hincl H. eapply heap_le_trans; [exact Hincl | exact H | apply heap_le_refl].
Qed.

Lemma state_le_refl (st : state) : state_le st st.
Proof. split; [apply heap_le_refl | apply extends_refl]. Qed.

Lemma state_le_trans (a b c : state) : state_le a b -> state_le b c -> state_le a c.
Proof.
  intros [H1 E1] [H2 E2]. split; [|eapply extends_trans; eassumption].
  eapply heap_le_trans; [apply extends_incl, E2 | exact H1 | exact H2].
Qed.

(** *** Reading and writing slots *)

Lemma slots_write_obj (o : obj) (index : nat) (k : option key) (v0 v : val) :
  nth_error (slots o) index = Some (k, v0) ->
  slots (write_obj o index v) = set_nth (slots o) index (k, v)
  /\ is_dict (write_obj o index v) = is_dict o.
Proof.
  destruct o as [items|items]; simpl; intros H.
  - rewrite map_set_nth. rewrite nth_error_map in H.
    destruct (nth_error items index); [|discriminate].
    injection H as <- _. split; reflexivity.
  - rewrite nth_error_map in H.
    destruct (nth_error items index) as [[k0 v1]|]; [|discriminate].
    injection H as <- _. simpl. rewrite map_set_nth. split; reflexivity.
Qed.

Lemma read_le (P : list string) (h h' : store) (l : loc) (index : nat)
    (k : option key) (v : val) :
  heap_le P h h' ->
  read_slot h l index = Some (k, v) ->
  exists v', read_slot h' l index = Some (k, v') /\ val_le P (slot_pass k) v v'.
Proof.
  unfold read_slot. intros Hle Hr.
  destruct (nth_error h l) as [o|] eqn:Eo; [|discriminate].
  destruct (Forall2_nth_error _ _ _ _ _ Hle Eo) as [o' [Eo' [_ Hs]]].
  rewrite Eo'.
  destruct (Forall2_nth_error _ _ _ _ _ Hs Hr) as [[k' v'] [Ev' [Hk Hv]]].
  simpl in Hk, Hv. subst k'. exists v'. split; assumption.
Qed.

Lemma write_le (P : list string) (h : store) (l : loc) (index : nat)
    (k : option key) (v0 v : val) :
  read_slot h l index = Some (k, v0) ->
  val_le P (slot_pass k) v0 v ->
  heap_le P h (write_slot h l index v).
Proof.
  unfold read_slot, write_slot. intros Hr Hv.
  destruct (nth_error h l) as [o|] eqn:Eo; [|discriminate].
  apply (Forall2_set_nth _ _ _ _ o); [apply heap_le_refl | exact Eo|].
  destruct (slots_write_obj o index k v0 v Hr) as [Hs Hd].
  split; [exact Hd|]. rewrite Hs.
  apply (Forall2_set_nth _ _ _ _ (k, v0));
    [apply Forall2_refl, slot_le_refl | exact Hr|].
  split; [reflexivity | exact Hv].
Qed.

Lemma write_same (h : store) (l : loc) (index : nat) (k : option key) (v : val) :
  read_slot h l index = Some (k, v) -> write_slot h l index v = h.
Proof.
  unfold read_slot, write_slot. intros Hr.
  destruct (nth_error h l) as [o|] eqn:Eo; [|discriminate].
  apply set_nth_same. rewrite Eo. f_equal.
  destruct o as [items|items]; simpl in *; rewrite nth_error_map in Hr.
  - destruct (nth_error items index) eqn:E; [|discriminate].
    injection Hr as _ ->. rewrite (set_nth_same _ _ _ E). reflexivity.
  - destruct (nth_error items index) as [[k0 v1]|] eqn:E; [|discriminate].
    injection Hr as _ ->. rewrite (set_nth_same _ _ _ E). reflexivity.
Qed.

(** *** Loops *)

Section LoopFacts.
Variable body : state -> nat -> result state.
Variable R : state -> state -> Prop.
Hypothesis R_refl : forall st, R st st.
Hypothesis R_trans : forall a b c, R a b -> R b c -> R a c.

Lemma for_range_steps (indices : list nat) :
  (forall st index st', In index indices -> body st index = Ok st' -> R st st') ->
  forall st st', for_range body indices st = Ok st' -> R st st'.
Proof.
  induction indices as [|i indices IH]; intros Hbody st st'; simpl.
  - intros [= ->]. apply R_refl.
  - destruct (body st i) as [st1|e] eqn:E; [|discriminate]. intros H.
    eapply R_trans; [apply (Hbody st i st1 (or_introl eq_refl) E)|].
    apply IH; [|exact H]. intros s j s' Hj. apply Hbody. right. exact Hj.
Qed.

(** The iteration at a given position, between what went before and what
    came after. *)
Lemma for_range_at (indices : list nat) (index : nat) :
  (forall st j st', In j indices -> body st j = Ok st' -> R st st') ->
  In index indices ->
  forall st st', for_range body indices st = Ok st' ->
  exists a b, R st a /\ body a index = Ok b /\ R b st'.
Proof.
  induction indices as [|i indices IH]; intros Hbody Hin st st'; [destruct Hin|].
  simpl. destruct (body st i) as [st1|e] eqn:E; [|discriminate]. intros H.
  assert (Hrest : forall s j s', In j indices -> body s j = Ok s' -> R s s')
    by (intros s j s' Hj; apply Hbody; right; exact Hj).
  destruct Hin as [->|Hin].
  - exists st, st1. split; [apply R_refl|]. split; [exact E|].
    apply (for_range_steps indices Hrest _ _ H).
  - destruct (IH Hrest Hin st1 st' H) as (a & b & Ha & Hb & Hc).
    exists a, b. split; [|split; assumption].
    eapply R_trans; [apply (Hbody st i st1 (or_introl eq_refl) E) | exact Ha].
Qed.
End LoopFacts.

Lemma for_range_ext (f g : state -> nat -> result state) (indices : list nat)
    (I : state -> Prop) :
  (forall st index, I st -> f st index = g st index) ->
  (forall st index st', I st -> g st index = Ok st' -> I st') ->
  forall st, I st -> for_range f indices st = for_range g indices st.
Proof.
  intros Hfg Hinv. induction indices as [|i indices IH]; intros st Hst; simpl;
    [reflexivity|].
  rewrite (Hfg st i Hst). destruct (g st i) as [st1|e] eqn:E; [|reflexivity].
  apply IH. apply (Hinv st i st1 Hst E).
Qed.

Lemma for_range_ok (body : state -> nat -> result state) (indices : list nat)
    (I : state -> Prop) :
  (forall st index, In index indices -> I st ->
     exists st', body st index = Ok st' /\ I st') ->
  forall st, I st -> exists st', for_range body indices st = Ok st' /\ I st'.
Proof.
  induction indices as [|i indices IH]; intros Hbody st Hst; simpl.
  - exists st. split; [reflexivity | exact Hst].
  - destruct (Hbody st i (or_introl eq_refl) Hst) as [st1 [E H1]]. rewrite E.
    apply IH; [|exact H1]. intros s j Hj. apply Hbody. right. exact Hj.
Qed.

(** *** Keys and positions *)

Lemma key_eqb_eq : forall a b : key, key_eqb a b = true -> a = b.
Proof.
  fix IH 1. intros a b.
  destruct a as [s|x| |l]; destruct b as [t|y| |m]; simpl; try discriminate.
  - intros H. apply String.eqb_eq in H. congruence.
  - intros H. apply Z.eqb_eq in H. congruence.
  - reflexivity.
  - intros H. f_equal. revert m H.
    induction l as [|x l IHl]; intros [|y m]; try discriminate.
    + reflexivity.
    + intros H. apply andb_prop in H. destruct H as [H1 H2].
      f_equal; [apply IH, H1 | apply IHl, H2].
Qed.

Lemma find_key_slot (items : list (option key * val)) (k : key) (index i : nat) :
  find_key items k index = Some i ->
  exists j k' x,
    i = index + j /\ nth_error items j = Some (Some k', x) /\ key_eqb k k' = true.
Proof.
  revert index. induction items as [|[[k'|] x] items IH]; intros index; simpl;
    [discriminate | |].
  - destruct (key_eqb k k') eqn:E.
    + intros [= <-]. exists 0, k', x. repeat split; [lia | exact E].
    + intros H. destruct (IH _ H) as (j & k2 & x2 & -> & Hn & Hk).
      exists (S j), k2, x2. repeat split; [lia | exact Hn | exact Hk].
  - intros H. destruct (IH _ H) as (j & k2 & x2 & -> & Hn & Hk).
    exists (S j), k2, x2. repeat split; [lia | exact Hn | exact Hk].
Qed.

Lemma find_key_keys (items items' : list (option key * val)) (k : key) (index : nat) :
  map fst items' = map fst items ->
  find_key items' k index = find_key items k index.
Proof.
  revert items' index. induction items as [|[k1 x1] items IH]; intros [|[k2 x2] items'] index;
    simpl; try discriminate; [reflexivity|].
  intros [= -> H]. destruct k1 as [k1|].
  - destruct (key_eqb k k1); [reflexivity | apply IH, H].
  - apply IH, H.
Qed.

Lemma slots_le_keys (P : list string) (a b : list (option key * val)) :
  Forall2 (slot_le P) a b -> map fst b = map fst a.
Proof.
  induction 1 as [|x y a b [Hk _] _ IH]; simpl; [reflexivity | rewrite Hk, IH; reflexivity].
Qed.

Lemma Forall2_length' {A : Type} (R : A -> A -> Prop) (a b : list A) :
  Forall2 R a b -> List.length b = List.length a.
Proof. induction 1; simpl; congruence. Qed.

Lemma slots_length (o : obj) :
  List.length (slots o)
  = match o with OList items => List.length items | ODict items => List.length items end.
Proof. destruct o; simpl; apply length_map. Qed.

Lemma select_le (P : list string) (o o' : obj) (st : step) :
  obj_le P o o' -> select o' st = select o st.
Proof.
  intros [Hd Hs]. pose proof (Forall2_length' _ _ _ Hs) as Hlen.
  rewrite !slots_length in Hlen.
  destruct o as [items|items], o' as [items'|items']; try discriminate; destruct st; simpl;
    try reflexivity.
  - rewrite Hlen. reflexivity.
  - apply find_key_keys. apply (slots_le_keys P). exact Hs.
Qed.

Lemma select_slot_pass (o : obj) (st : step) (index : nat) (k : option key) (x : val) :
  select o st = Some index ->
  nth_error (slots o) index = Some (k, x) ->
  slot_pass k = step_pass st.
Proof.
  destruct o as [items|items], st as [n|k0]; simpl; try discriminate.
  - intros _ H. rewrite nth_error_map in H.
    destruct (nth_error items index); [|discriminate]. injection H as <- _. reflexivity.
  - intros H Hn. destruct (find_key_slot _ _ _ _ H) as (j & k' & x' & -> & Hj & Hk).
    simpl in Hn. unfold slots in Hj. rewrite Hj in Hn. injection Hn as <- _.
    apply key_eqb_eq in Hk. subst k'. reflexivity.
Qed.

Lemma select_in_range (o : obj) (st : step) (index : nat) :
  select o st = Some index -> index < List.length (slots o).
Proof.
  destruct o as [items|items], st as [n|k0]; simpl; try discriminate.
  - destruct (Nat.ltb n (List.length items)) eqn:E; [|discriminate].
    intros [= <-]. rewrite length_map. apply Nat.ltb_lt, E.
  - intros H. destruct (find_key_slot _ _ _ _ H) as (j & k' & x' & -> & Hj & _).
    apply nth_error_Some. simpl. unfold slots in Hj. rewrite Hj. discriminate.
Qed.

Lemma password_position_cons (st st' : step) (path : list step) :
  password_position (st :: st' :: path) = password_position (st' :: path).
Proof. reflexivity. Qed.

Lemma lookup_stuck (h : store) (st : step) (path : list step) (v : val) :
  is_leaf v = true -> lookup h (st :: path) v = None.
Proof. destruct v; simpl; intros H; try reflexivity; discriminate. Qed.

Lemma val_le_leaf (P : list string) (pass : bool) (a b : val) :
  val_le P pass a b -> is_leaf b = is_leaf a.
Proof. intros [->|(_ & s & -> & _ & ->)]; reflexivity. Qed.

Lemma val_le_ref (P : list string) (pass : bool) (l : loc) (b : val) :
  val_le P pass (VRef l) b -> b = VRef l.
Proof. intros H. apply (val_le_not_str _ _ _ _ H). reflexivity. Qed.

(** A position found in a store is found in every later store, with the
    same value or with the marker in place of a recorded password. *)
Lemma lookup_le (P : list string) (h h' : store) (path : list step) :
  heap_le P h h' ->
  forall v x, lookup h path v = Some x ->
  exists x', lookup h' path v = Some x' /\ val_le P (password_position path) x x'.
Proof.
  intros Hle. induction path as [|st path IH]; intros v x; simpl.
  - intros [= ->]. exists x. split; [reflexivity | apply val_le_refl].
  - destruct v as [| | | |l|]; try discriminate.
    destruct (nth_error h l) as [o|] eqn:Eo; [|discriminate].
    destruct (Forall2_nth_error _ _ _ _ _ Hle Eo) as [o' [Eo' Hoo]].
    rewrite Eo', (select_le P o o' st Hoo).
    destruct (select o st) as [index|] eqn:Es; [|discriminate].
    destruct (nth_error (slots o) index) as [[k x0]|] eqn:En; [|discriminate].
    destruct Hoo as [_ Hs].
    destruct (Forall2_nth_error _ _ _ _ _ Hs En) as [[k' x0'] [En' [Hk Hv]]].
    simpl in Hk, Hv. subst k'. rewrite En'. intros Hl.
    destruct path as [|st' path].
    + simpl in Hl. injection Hl as <-. exists x0'. split; [reflexivity|].
      rewrite <- (select_slot_pass o st index k x0 Es En). exact Hv.
    + destruct x0 as [| | | |l0|]; try (rewrite lookup_stuck in Hl by reflexivity; discriminate).
      apply val_le_ref in Hv. subst x0'.
      apply IH. exact Hl.
Qed.

(** *** The shape of the store *)

Lemma write_obj_kind (o : obj) (index : nat) (v : val) :
  is_dict (write_obj o index v) = is_dict o.
Proof.
  destruct o as [items|items]; simpl; [reflexivity|].
  destruct (nth_error items index) as [[k x]|]; reflexivity.
Qed.

Lemma write_slot_kinds (h : store) (l : loc) (index : nat) (v : val) :
  map is_dict (write_slot h l index v) = map is_dict h.
Proof.
  unfold write_slot. destruct (nth_error h l) as [o|] eqn:Eo; [|reflexivity].
  rewrite map_set_nth, write_obj_kind. apply set_nth_same.
  rewrite nth_error_map, Eo. reflexivity.
Qed.

Lemma redact_kinds (depth : nat) :
  forall h pws v flag h' pws' v',
    redact depth h pws v flag = Ok (h', pws', v') ->
    map is_dict h' = map is_dict h.
Proof.
  induction depth as [|d IH]; intros h pws v flag h' pws' v'; [discriminate|].
  simpl. destruct v as [| | |s|l|]; try (intros [= <- _ _]; reflexivity).
  - destruct flag; intros [= <- _ _]; reflexivity.
  - destruct (nth_error h l) as [[items|items]|] eqn:Eo; [| |intros [= <- _ _]; reflexivity].
    + match goal with
      | |- match for_range ?f ?ix ?st with _ => _ end = _ -> _ =>
          destruct (for_range f ix st) as [[h1 p1]|e] eqn:E; [|discriminate];
          intros [= <- _ _];
          apply (for_range_steps f
                   (fun a b : state => map is_dict (fst b) = map is_dict (fst a))) in E;
          [exact E | reflexivity | intros a b c H1 H2; congruence |]
      end.
      intros st index st' _. cbv beta.
      destruct (read_slot (fst st) l index) as [[k item]|]; [|intros [= <-]; reflexivity].
      destruct (redact d (fst st) (snd st) item false) as [[[h2 p2] v2]|e] eqn:E2;
        [|discriminate].
      intros [= <-]. simpl. rewrite write_slot_kinds. apply (IH _ _ _ _ _ _ _ E2).
    + match goal with
      | |- match for_range ?f ?ix ?st with _ => _ end = _ -> _ =>
          destruct (for_range f ix st) as [[h1 p1]|e] eqn:E; [|discriminate];
          intros [= <- _ _];
          apply (for_range_steps f
                   (fun a b : state => map is_dict (fst b) = map is_dict (fst a))) in E;
          [exact E | reflexivity | intros a b c H1 H2; congruence |]
      end.
      intros st index st' _. cbv beta.
      destruct (read_slot (fst st) l index) as [[[k|] item]|];
        try (intros [= <-]; reflexivity).
      destruct (key_has_pass k) as [has_pass|e]; [|discriminate].
      destruct (has_pass && isinstance_str item).
      * destruct (redact d (fst st) (snd st) item true) as [[[h2 p2] v2]|e] eqn:E2;
          [|discriminate].
        intros [= <-]. simpl. rewrite write_slot_kinds. apply (IH _ _ _ _ _ _ _ E2).
      * destruct (redact d (fst st) (snd st) item false) as [[[h2 p2] v2]|e] eqn:E2;
          [|discriminate].
        intros [= <-]. simpl. rewrite write_slot_kinds. apply (IH _ _ _ _ _ _ _ E2).
Qed.

Lemma visit_kinds (depth : nat) (l : loc) (st st' : state) (index : nat) :
  visit (redact depth) l st index = Ok st' ->
  map is_dict (fst st') = map is_dict (fst st).
Proof.
  unfold visit.
  destruct (read_slot (fst st) l index) as [[k v]|]; [|intros [= <-]; reflexivity].
  destruct (slot_flag k v) as [flag|e]; [|discriminate].
  destruct (redact depth (fst st) (snd st) v flag) as [[[h2 p2] v2]|e] eqn:E2;
    [|discriminate].
  intros [= <-]. simpl. rewrite write_slot_kinds. apply (redact_kinds _ _ _ _ _ _ _ _ E2).
Qed.

(** Both loops of [redact] are the loop of [visit] over the slots. *)
Lemma redact_ref (depth : nat) (h : store) (pws : list string) (l : loc) (flag : bool)
    (o : obj) :
  nth_error h l = Some o ->
  redact (S depth) h pws (VRef l) flag
  = match for_range (visit (redact depth) l) (seq 0 (List.length (slots o))) (h, pws) with
    | Ok (h', pws') => Ok (h', pws', VRef l)
    | Raise e => Raise e
    end.
Proof.
  intros Ho. simpl. rewrite Ho.
  set (I := fun st : state => map is_dict (fst st) = map is_dict h).
  assert (Hat : forall st, I st ->
            exists o', nth_error (fst st) l = Some o' /\ is_dict o' = is_dict o).
  { intros st Hst. unfold I in Hst.
    assert (H : nth_error (map is_dict (fst st)) l = Some (is_dict o))
      by (rewrite Hst, nth_error_map, Ho; reflexivity).
    rewrite nth_error_map in H. destruct (nth_error (fst st) l) as [o'|]; [|discriminate].
    exists o'. split; [reflexivity | simpl in H; congruence]. }
  assert (Hkeep : forall st index st',
            I st -> visit (redact depth) l st index = Ok st' -> I st').
  { intros st index st' Hst Hv. unfold I in *. rewrite (visit_kinds _ _ _ _ _ Hv). exact Hst. }
  destruct o as [items|items]; rewrite slots_length.
  - rewrite (for_range_ext _ (visit (redact depth) l) _ I); [reflexivity | | exact Hkeep |
      reflexivity].
    intros st index Hst. destruct (Hat st Hst) as [o' [Ho' Hd]].
    unfold visit, read_slot. rewrite Ho'.
    destruct o' as [items'|items']; [|discriminate]. simpl.
    rewrite nth_error_map. destruct (nth_error items' index); reflexivity.
  - rewrite (for_range_ext _ (visit (redact depth) l) _ I); [reflexivity | | exact Hkeep |
      reflexivity].
    intros st index Hst. destruct (Hat st Hst) as [o' [Ho' Hd]].
    unfold visit, read_slot. rewrite Ho'.
    destruct o' as [items'|items']; [discriminate|]. simpl.
    rewrite nth_error_map. destruct (nth_error items' index) as [[k v]|]; [|reflexivity].
    simpl. destruct (key_has_pass k) as [has_pass|e]; [|reflexivity].
    destruct (has_pass && isinstance_str v); reflexivity.
Qed.

(** *** What a call that returns has done *)

Lemma run_le_refl (st : state) : run_le st st.
Proof. split; [apply state_le_refl | auto]. Qed.

Lemma run_le_trans (a b c : state) : run_le a b -> run_le b c -> run_le a c.
Proof.
  intros [H1 N1] [H2 N2]. split; [eapply state_le_trans; eassumption | auto].
Qed.

Lemma slot_flag_pass (k : option key) (v : val) (flag : bool) :
  slot_flag k v = Ok flag -> flag = slot_pass k && isinstance_str v.
Proof.
  destruct k as [k|]; simpl; [|intros [= <-]; reflexivity].
  destruct (key_has_pass k); [|discriminate]. intros [= <-]. reflexivity.
Qed.

Lemma redacted_leaf_flag (v : val) (pass : bool) :
  redacted_leaf v (pass && isinstance_str v) = redacted_leaf v pass.
Proof. destruct v; simpl; try reflexivity. rewrite andb_true_r. reflexivity. Qed.

Lemma read_write (h : store) (l : loc) (index : nat) (k : option key) (v0 v : val) :
  read_slot h l index = Some (k, v0) ->
  read_slot (write_slot h l index v) l index = Some (k, v).
Proof.
  unfold read_slot, write_slot. intros Hr.
  destruct (nth_error h l) as [o|] eqn:Eo; [|discriminate].
  rewrite (nth_error_set_nth_same _ _ _ _ Eo).
  destruct (slots_write_obj o index k v0 v Hr) as [-> _].
  apply (nth_error_set_nth_same _ _ _ _ Hr).
Qed.

Lemma visit_inv (call : store -> list string -> val -> bool -> result (store * list string * val))
    (l : loc) (st st' : state) (index : nat) :
  visit call l st index = Ok st' ->
  (read_slot (fst st) l index = None /\ st' = st)
  \/ exists k v flag h1 p1 v1,
       read_slot (fst st) l index = Some (k, v)
       /\ slot_flag k v = Ok flag
       /\ call (fst st) (snd st) v flag = Ok (h1, p1, v1)
       /\ st' = (write_slot h1 l index v1, p1).
Proof.
  unfold visit.
  destruct (read_slot (fst st) l index) as [[k v]|];
    [|intros [= <-]; left; split; reflexivity].
  destruct (slot_flag k v) as [flag|e] eqn:F; [|discriminate].
  destruct (call (fst st) (snd st) v flag) as [[[h1 p1] v1]|e] eqn:E; [|discriminate].
  intros [= <-]. right. exists k, v, flag, h1, p1, v1. repeat split; assumption.
Qed.

(** The slot after the call on its value, seen from any earlier value of
    the slot. *)
Lemma val_le_settle (Pa P : list string) (pass : bool) (x xa x' : val) :
  incl Pa P ->
  val_le Pa pass x xa ->
  (forall s, xa = VStr s -> pass = true -> In s P) ->
  val_le P pass (redacted_leaf xa pass) x' ->
  x' = redacted_leaf x pass
  /\ val_le P pass x x'
  /\ (forall s, x = VStr s -> pass = true -> In s P).
Proof.
  intros Hincl [->|(Hp & s & -> & Hs & ->)] Hrec Hx'.
  - destruct x as [| | |s| |]; simpl in *;
      try (apply val_le_not_str in Hx'; [|reflexivity]; subst x';
           repeat split; [apply val_le_refl | discriminate]).
    destruct pass.
    + assert (x' = VStr "__redacted__")
        by (destruct Hx' as [->|(_ & s' & _ & _ & ->)]; reflexivity).
      subst x'. repeat split.
      * right. split; [reflexivity|]. exists s. repeat split. apply (Hrec s); reflexivity.
      * intros s' [= <-] _. apply (Hrec s); reflexivity.
    + apply val_le_no_pass in Hx'. subst x'.
      repeat split; [apply val_le_refl | discriminate].
  - subst pass. simpl in *.
    assert (x' = VStr "__redacted__")
      by (destruct Hx' as [->|(_ & s' & _ & _ & ->)]; reflexivity).
    subst x'. repeat split.
    + right. split; [reflexivity|]. exists s. repeat split. apply Hincl, Hs.
    + intros s' [= <-] _. apply Hincl, Hs.
Qed.

Section Depth.
Variable depth : nat.

(** What is known of the calls with one frame less. *)
Hypothesis calls_sound :
  forall h pws v flag h' pws' v',
    redact depth h pws v flag = Ok (h', pws', v') ->
    run_le (h, pws) (h', pws')
    /\ v' = redacted_leaf v flag
    /\ (forall s, v = VStr s -> flag = true -> In s pws').

Lemma visit_parts (l : loc) (st st' : state) (index : nat) (k : option key) (v : val) :
  visit (redact depth) l st index = Ok st' ->
  read_slot (fst st) l index = Some (k, v) ->
  exists h1 p1,
    redact depth (fst st) (snd st) v (slot_pass k && isinstance_str v)
    = Ok (h1, p1, redacted_leaf v (slot_pass k))
    /\ run_le st (h1, p1)
    /\ (forall s, v = VStr s -> slot_pass k = true -> In s p1)
    /\ st' = (write_slot h1 l index (redacted_leaf v (slot_pass k)), p1)
    /\ heap_le p1 h1 (fst st')
    /\ read_slot (fst st') l index = Some (k, redacted_leaf v (slot_pass k)).
Proof.
  intros Hv Hr. destruct (visit_inv _ _ _ _ _ Hv) as [[Hn _]|H]; [congruence|].
  destruct H as (k0 & v0 & flag & h1 & p1 & v1 & Hr0 & Hf & Hc & ->).
  rewrite Hr in Hr0. injection Hr0 as <- <-.
  apply slot_flag_pass in Hf. subst flag.
  destruct (calls_sound _ _ _ _ _ _ _ Hc) as (Hrun & Hv1 & Hrec).
  rewrite redacted_leaf_flag in Hv1. subst v1.
  destruct st as [h0 p0]. simpl in *.
  exists h1, p1. split; [exact Hc|]. split; [exact Hrun|].
  assert (Hrec' : forall s, v = VStr s -> slot_pass k = true -> In s p1).
  { intros s -> Hp. apply (Hrec s eq_refl). rewrite Hp. reflexivity. }
  split; [exact Hrec'|]. split; [reflexivity|].
  destruct Hrun as [[Hle _] _]. simpl in Hle.
  destruct (read_le _ _ _ _ _ _ _ Hle Hr) as [y [Hy Hvy]].
  split; [|apply (read_write _ _ _ _ y), Hy].
  apply (write_le _ _ _ _ k y); [exact Hy|].
  destruct Hvy as [->|(Hp & s & -> & Hs & ->)].
  - destruct v as [| | |s| |]; try apply val_le_refl.
    destruct (slot_pass k) eqn:Hp; [|apply val_le_refl].
    right. split; [reflexivity|]. exists s. repeat split. apply (Hrec' s eq_refl eq_refl).
  - rewrite Hp. apply val_le_refl.
Qed.
Lemma visit_step (l : loc) (st st' : state) (index : nat) :
  visit (redact depth) l st index = Ok st' -> run_le st st'.
Proof.
  intros Hv. destruct (read_slot (fst st) l index) as [[k v]|] eqn:Hr.
  - destruct (visit_parts l st st' index k v Hv Hr)
      as (h1 & p1 & _ & [[Hle Hext] Hnd] & _ & -> & Hw & _).
    simpl in *. split; [split|]; simpl; [|exact Hext|exact Hnd].
    eapply heap_le_trans; [apply incl_refl | exact Hle | exact Hw].
  - destruct (visit_inv _ _ _ _ _ Hv) as [[_ ->]|H]; [apply run_le_refl|].
    destruct H as (k & v & flag & h1 & p1 & v1 & Hr' & _). congruence.
Qed.
End Depth.

Lemma redact_sound (depth : nat) :
  forall h pws v flag h' pws' v',
    redact depth h pws v flag = Ok (h', pws', v') ->
    run_le (h, pws) (h', pws')
    /\ v' = redacted_leaf v flag
    /\ (forall s, v = VStr s -> flag = true -> In s pws').
Proof.
  induction depth as [|d IH]; intros h pws v flag h' pws' v'; [discriminate|].
  destruct v as [| | |s|l|];
    try (simpl; intros [= <- <- <-]; split; [apply run_le_refl|];
         split; [reflexivity | discriminate]).
  - simpl. destruct flag; intros [= <- <- <-].
    + split; [|split; [reflexivity|]].
      * split; [split; [apply heap_le_refl | apply record_extends] | apply record_NoDup].
      * intros s' [= <-] _. apply record_In.
    + split; [apply run_le_refl|]. split; [reflexivity | discriminate].
  - destruct (nth_error h l) as [o|] eqn:Eo.
    + rewrite (redact_ref d h pws l flag o Eo).
      destruct (for_range (visit (redact d) l) (seq 0 (List.length (slots o))) (h, pws))
        as [[h1 p1]|e] eqn:E; [|discriminate].
      intros [= <- <- <-]. split; [|split; [reflexivity | discriminate]].
      apply (for_range_steps _ run_le run_le_refl run_le_trans _) in E; [exact E|].
      intros st index st' _. apply (visit_step d IH).
    + simpl. rewrite Eo. intros [= <- <- <-]. split; [apply run_le_refl|].
      split; [reflexivity | discriminate].
Qed.

Lemma redact_heap_le (depth : nat) (h : store) (pws : list string) (v : val) (flag : bool)
    (h' : store) (pws' : list string) (v' : val) :
  redact depth h pws v flag = Ok (h', pws', v') -> heap_le pws' h h'.
Proof. intros H. apply (redact_sound _ _ _ _ _ _ _ _ H). Qed.

Lemma loop_run_le (depth : nat) (l : loc) (indices : list nat) (st st' : state) :
  for_range (visit (redact depth) l) indices st = Ok st' -> run_le st st'.
Proof.
  apply (for_range_steps _ run_le run_le_refl run_le_trans).
  intros a index b _. apply (visit_step depth (redact_sound depth)).
Qed.

(** The iteration at a slot of the object, between the stretch of the loop
    before it and the stretch after it. *)
Lemma loop_at (depth : nat) (l : loc) (n index : nat) (st st' : state) :
  for_range (visit (redact depth) l) (seq 0 n) st = Ok st' ->
  index < n ->
  exists a b,
    run_le st a /\ visit (redact depth) l a index = Ok b /\ run_le b st'.
Proof.
  intros H Hi.
  apply (for_range_at _ run_le run_le_refl run_le_trans (seq 0 n) index); [| |exact H].
  - intros a j b _. apply (visit_step depth (redact_sound depth)).
  - apply in_seq. lia.
Qed.

Lemma position_flag_cons (flag : bool) (st : step) (path : list step) :
  position_flag flag (st :: path) = password_position (st :: path).
Proof. reflexivity. Qed.

(** Every leaf of the argument, after the call. *)
Lemma redact_leaf (depth : nat) :
  forall h pws v flag h' pws' v' path x,
    redact depth h pws v flag = Ok (h', pws', v') ->
    lookup h path v = Some x ->
    is_leaf x = true ->
    lookup h' path v' = Some (redacted_leaf x (position_flag flag path))
    /\ (forall s, x = VStr s -> position_flag flag path = true -> In s pws').
Proof.
  induction depth as [|d IH]; intros h pws v flag h' pws' v' path x Hc Hl Hx;
    [discriminate|].
  destruct path as [|st path].
  { simpl in Hl. injection Hl as <-.
    destruct (redact_sound _ _ _ _ _ _ _ _ Hc) as (_ & -> & Hrec).
    split; [reflexivity | exact Hrec]. }
  rewrite position_flag_cons.
  destruct v as [| | | |l|]; try discriminate.
  simpl in Hl.
  destruct (nth_error h l) as [o|] eqn:Eo; [|discriminate].
  destruct (select o st) as [index|] eqn:Es; [|discriminate].
  destruct (nth_error (slots o) index) as [[k x0]|] eqn:En; [|discriminate].
  rewrite (redact_ref d h pws l flag o Eo) in Hc.
  destruct (for_range (visit (redact d) l) (seq 0 (List.length (slots o))) (h, pws))
    as [[h1 p1]|e] eqn:E; [|discriminate].
  injection Hc as <- <- <-.
  destruct (loop_at d l _ index _ _ E (select_in_range _ _ _ Es))
    as (a & b & [[Hha Hpa] _] & Hv & [[Hhb Hpb] _]).
  simpl in Hha, Hpa, Hhb, Hpb.
  assert (Hr : read_slot h l index = Some (k, x0))
    by (unfold read_slot; rewrite Eo; exact En).
  destruct (read_le _ _ _ _ _ _ _ Hha Hr) as [xa [Hra Hxa]].
  destruct (visit_parts d (redact_sound d) l a b index k xa Hv Hra)
    as (h2 & p2 & Hcall & [[Hh2 Hp2] _] & Hrec & Hb & Hw & Hrb).
  simpl in Hh2, Hp2.
  destruct (read_le _ _ _ _ _ _ _ Hhb Hrb) as [x' [Hr' Hx']].
  subst b. simpl in Hhb, Hpb, Hw, Hrb.
  assert (Hi2 : incl p2 p1) by apply extends_incl, Hpb.
  assert (Hia : incl (snd a) p1)
    by (intros s Hs; apply Hi2, (extends_incl _ _ Hp2), Hs).
  assert (Hh1 : heap_le p1 h h1) by apply (loop_run_le _ _ _ _ _ E).
  destruct (Forall2_nth_error _ _ _ _ _ Hh1 Eo) as [o1 [Eo1 Hoo]].
  unfold read_slot in Hr'. rewrite Eo1 in Hr'.
  cbn [lookup]. rewrite Eo1, (select_le _ _ _ st Hoo), Es, Hr'.
  destruct path as [|st' path].
  - simpl in Hl. injection Hl as <-. cbn [lookup password_position].
    rewrite <- (select_slot_pass o st index k x0 Es En).
    destruct (val_le_settle (snd a) p1 (slot_pass k) x0 xa x' Hia Hxa) as (-> & _ & H);
      [|exact Hx'|split; [reflexivity | exact H]].
    intros s Hs Hp. apply Hi2, (Hrec s Hs Hp).
  - destruct x0 as [| | | |l0|]; try (rewrite lookup_stuck in Hl by reflexivity; discriminate).
    apply val_le_ref in Hxa. subst xa. cbn [redacted_leaf] in *.
    apply val_le_ref in Hx'. subst x'.
    change (password_position (st :: st' :: path)) with (password_position (st' :: path)).
    destruct (lookup_le _ _ _ (st' :: path) Hha _ _ Hl) as [xx [Hlx Hxx]].
    assert (Hleaf : is_leaf xx = true) by (rewrite (val_le_leaf _ _ _ _ Hxx); exact Hx).
    destruct (IH _ _ _ _ _ _ _ _ _ Hcall Hlx Hleaf) as [Hl2 Hrec2].
    rewrite position_flag_cons in Hl2, Hrec2.
    assert (Hh21 : heap_le p1 h2 h1)
      by (eapply heap_le_trans; [exact Hi2 | exact Hw | exact Hhb]).
    destruct (lookup_le _ _ _ (st' :: path) Hh21 _ _ Hl2) as [x2 [Hlx2 Hx2]].
    rewrite Hlx2.
    destruct (val_le_settle (snd a) p1 (password_position (st' :: path)) x xx x2 Hia Hxx)
      as (-> & _ & H); [|exact Hx2|split; [reflexivity | exact H]].
    intros s Hs Hp. apply Hi2, (Hrec2 s Hs Hp).
Qed.

(** *** The structure is kept *)

Lemma val_le_blank (P : list string) (pass : bool) (a b : val) :
  val_le P pass a b -> blank_val b = blank_val a.
Proof. intros [->|(_ & s & -> & _ & ->)]; reflexivity. Qed.

Lemma obj_le_blank (P : list string) (o o' : obj) : obj_le P o o' -> blank o' = blank o.
Proof.
  intros [Hd Hs].
  destruct o as [items|items], o' as [items'|items']; try discriminate; simpl in *; f_equal.
  - clear Hd. revert items' Hs. induction items as [|x items IH]; intros [|y items'] Hs;
      inversion Hs; subst; [reflexivity|]. simpl.
    match goal with H : slot_le _ _ _ |- _ => destruct H as [_ Hv] end. simpl in Hv.
    rewrite (val_le_blank _ _ _ _ Hv). f_equal. apply IH. assumption.
  - clear Hd. revert items' Hs. induction items as [|x items IH]; intros [|y items'] Hs;
      inversion Hs; subst; [reflexivity|]. simpl.
    match goal with H : slot_le _ _ _ |- _ => destruct H as [Hk Hv] end. simpl in Hk, Hv.
    injection Hk as Hk. rewrite Hk, (val_le_blank _ _ _ _ Hv). f_equal. apply IH. assumption.
Qed.

Lemma heap_le_blank (P : list string) (h h' : store) :
  heap_le P h h' -> map blank h' = map blank h.
Proof.
  induction 1 as [|o o' h h' Ho _ IH]; simpl; [reflexivity|].
  rewrite (obj_le_blank _ _ _ Ho), IH. reflexivity.
Qed.

Lemma heap_le_none (P : list string) (h h' : store) (l : loc) :
  heap_le P h h' -> nth_error h l = None -> nth_error h' l = None.
Proof.
  intros Hle Hn. apply nth_error_None. rewrite (Forall2_length' _ _ _ Hle).
  apply nth_error_None, Hn.
Qed.

Lemma obj_le_length (P : list string) (o o' : obj) :
  obj_le P o o' -> List.length (slots o') = List.length (slots o).
Proof. intros [_ Hs]. apply (Forall2_length' _ _ _ Hs). Qed.

(** *** Calling again *)

Lemma redacted_leaf_settled (P : list string) (pass : bool) (v x : val) :
  val_le P pass (redacted_leaf v pass) x -> x = redacted_leaf v pass.
Proof.
  destruct v as [| | |s| |]; try (intros H; apply (val_le_not_str _ _ _ _ H); reflexivity).
  destruct pass; simpl.
  - intros [->|(_ & s' & _ & _ & ->)]; reflexivity.
  - apply val_le_no_pass.
Qed.

Lemma redacted_leaf_str (v : val) (pass : bool) :
  isinstance_str (redacted_leaf v pass) = isinstance_str v.
Proof. destruct v; try reflexivity. destruct pass; reflexivity. Qed.

Lemma redacted_leaf_twice (v : val) (pass : bool) :
  redacted_leaf (redacted_leaf v pass) pass = redacted_leaf v pass.
Proof. destruct v; try reflexivity. destruct pass; reflexivity. Qed.

Lemma slot_flag_any (k : option key) (v v' : val) (flag : bool) :
  slot_flag k v = Ok flag -> slot_flag k v' = Ok (slot_pass k && isinstance_str v').
Proof.
  destruct k as [k|]; simpl; [|reflexivity].
  destruct (key_has_pass k); [reflexivity | discriminate].
Qed.

Lemma for_range_fixed (body : state -> nat -> result state) (indices : list nat)
    (hx : store) :
  (forall index p, In index indices -> exists p', body (hx, p) index = Ok (hx, p')) ->
  forall p, exists p', for_range body indices (hx, p) = Ok (hx, p').
Proof.
  intros Hbody p.
  destruct (for_range_ok body indices (fun st => fst st = hx)) with (st := (hx, p))
    as [[h' p'] [E H]]; [|reflexivity|].
  - intros [h0 p0] index Hi H. simpl in H. subst h0.
    destruct (Hbody index p0 Hi) as [p1 E]. exists (hx, p1). split; [exact E | reflexivity].
  - simpl in H. subst h'. exists p'. exact E.
Qed.

(** After a call that has returned, a call on the value it returned
    returns, and finds nothing left to rewrite: not in the store the first
    call left, and not in any later store. *)
Lemma redact_again (depth : nat) :
  forall h pws v flag h1 p1 v1,
    redact depth h pws v flag = Ok (h1, p1, v1) ->
    forall P hx px,
      heap_le P h1 hx ->
      exists px', redact depth hx px v1 flag = Ok (hx, px', v1).
Proof.
  induction depth as [|d IH]; intros h pws v flag h1 p1 v1 Hc P hx px Hx; [discriminate|].
  destruct v as [| | |s|l|];
    try (simpl in Hc; injection Hc as <- <- <-; exists px; reflexivity).
  - simpl in Hc. destruct flag; injection Hc as <- <- <-; eexists; reflexivity.
  - destruct (nth_error h l) as [o|] eqn:Eo.
    + rewrite (redact_ref d h pws l flag o Eo) in Hc.
      destruct (for_range (visit (redact d) l) (seq 0 (List.length (slots o))) (h, pws))
        as [[h1' p1']|e] eqn:E; [|discriminate].
      injection Hc as <- <- <-.
      assert (Hh1 : heap_le p1' h h1') by apply (loop_run_le _ _ _ _ _ E).
      destruct (Forall2_nth_error _ _ _ _ _ Hh1 Eo) as [o1 [Eo1 Hoo1]].
      destruct (Forall2_nth_error _ _ _ _ _ Hx Eo1) as [ox [Eox Hoox]].
      rewrite (redact_ref d hx px l flag ox Eox).
      rewrite (obj_le_length _ _ _ Hoox), (obj_le_length _ _ _ Hoo1).
      destruct (for_range_fixed (visit (redact d) l) (seq 0 (List.length (slots o))) hx)
        with (p := px) as [px' Epx]; [|rewrite Epx; exists px'; reflexivity].
      intros index p Hi. apply in_seq in Hi.
      destruct (loop_at d l _ index _ _ E) as (a & b & [[Hha _] _] & Hv & [[Hhb Hpb] _]);
        [lia|]. simpl in Hha, Hhb, Hpb.
      destruct (nth_error (slots o) index) as [[k x0]|] eqn:En;
        [|apply nth_error_None in En; lia].
      assert (Hr : read_slot h l index = Some (k, x0))
        by (unfold read_slot; rewrite Eo; exact En).
      destruct (read_le _ _ _ _ _ _ _ Hha Hr) as [xa [Hra Hxa]].
      assert (Hflag : slot_flag k xa = Ok (slot_pass k && isinstance_str xa)).
      { destruct (visit_inv _ _ _ _ _ Hv) as [[Hn _]|H]; [congruence|].
        destruct H as (k' & v' & flag' & _ & _ & _ & Hr' & Hf & _).
        rewrite Hra in Hr'. injection Hr' as <- <-. apply (slot_flag_any _ _ _ _ Hf). }
      destruct (visit_parts d (redact_sound d) l a b index k xa Hv Hra)
        as (h2 & p2 & Hcall & _ & _ & Hb & Hw & Hrb).
      subst b. simpl in Hhb, Hpb, Hw, Hrb.
      set (big := (p1' ++ P)%list).
      assert (Hbx : heap_le big (write_slot h2 l index (redacted_leaf xa (slot_pass k))) hx).
      { eapply heap_le_trans; [apply incl_appl, incl_refl | exact Hhb|].
        apply (heap_le_mono P); [apply incl_appr, incl_refl | exact Hx]. }
      assert (H2x : heap_le big h2 hx).
      { eapply heap_le_trans; [|exact Hw|exact Hbx].
        intros s Hs. apply in_or_app. left. apply (extends_incl _ _ Hpb), Hs. }
      destruct (read_le _ _ _ _ _ _ _ Hbx Hrb) as [vx [Hrx Hvx]].
      apply redacted_leaf_settled in Hvx. subst vx.
      destruct (IH _ _ _ _ _ _ _ Hcall big hx p H2x) as [p' Hagain].
      exists p'. unfold visit. cbn [fst snd]. rewrite Hrx.
      rewrite (slot_flag_any _ _ (redacted_leaf xa (slot_pass k)) _ Hflag).
      rewrite redacted_leaf_str, Hagain, (write_same _ _ _ _ _ Hrx). reflexivity.
    + simpl in Hc. rewrite Eo in Hc. injection Hc as <- <- <-.
      exists px. simpl. rewrite (heap_le_none _ _ _ _ Hx Eo). reflexivity.
Qed.

(** Any number of further calls. *)
Lemma redact_times_again (depth : nat) (h : store) (pws : list string) (v : val)
    (h1 : store) (p1 : list string) (v1 : val) :
  redact depth h pws v false = Ok (h1, p1, v1) ->
  forall n px,
    NoDup px ->
    exists pn,
      redact_times n depth h1 px v1 = Ok (h1, pn, v1) /\ extends px pn /\ NoDup pn.
Proof.
  intros Hc. induction n as [|n IH]; intros px Hnd; simpl.
  - exists px. repeat split; [apply extends_refl | exact Hnd].
  - destruct (redact_again _ _ _ _ _ _ _ _ Hc p1 h1 px (heap_le_refl _ _)) as [p' Hp'].
    rewrite Hp'.
    destruct (redact_sound _ _ _ _ _ _ _ _ Hp') as ([[_ Hext] Hnd'] & _).
    simpl in Hext, Hnd'.
    destruct (IH p' (Hnd' Hnd)) as (pn & E & Hext' & Hndn).
    exists pn. repeat split; [exact E | eapply extends_trans; eassumption | exact Hndn].
Qed.

(** *** Calls that return *)

Lemma ranked_le (P : list string) (h h' : store) :
  heap_le P h h' -> ranked h -> ranked h'.
Proof.
  intros Hle Hr l o' Ho'.
  destruct (Forall2_nth_error_r _ _ _ _ _ Hle Ho') as [o [Ho [_ Hs]]].
  specialize (Hr l o Ho). unfold refs_below in *.
  revert Hr. clear -Hs. induction Hs as [|x y a b [_ Hv] _ IH]; intros Hr; constructor.
  - inversion Hr as [|? ? Hx Hrest]; subst.
    destruct Hv as [Hv|(_ & s & _ & _ & Hv)]; rewrite Hv; [exact Hx | exact I].
  - apply IH. inversion Hr; assumption.
Qed.

Lemma keys_iterable_le (P : list string) (h h' : store) :
  heap_le P h h' -> keys_iterable h -> keys_iterable h'.
Proof.
  intros Hle Hr l o' Ho'.
  destruct (Forall2_nth_error_r _ _ _ _ _ Hle Ho') as [o [Ho [_ Hs]]].
  specialize (Hr l o Ho).
  revert Hr. clear -Hs. induction Hs as [|x y a b [Hk _] _ IH]; intros Hr; constructor.
  - inversion Hr; subst. rewrite Hk. assumption.
  - apply IH. inversion Hr; assumption.
Qed.

Lemma frames_positive (v : val) : 1 <= frames v.
Proof. destruct v; simpl; lia. Qed.

(** In a store without cycles whose dictionary keys can all be asked for
    ['pass'], a call with enough frames returns. *)
Lemma redact_returns (depth : nat) :
  forall h pws v flag,
    ranked h -> keys_iterable h -> frames v <= depth ->
    exists out, redact depth h pws v flag = Ok out.
Proof.
  induction depth as [|d IH]; intros h pws v flag Hr Hk Hf.
  { pose proof (frames_positive v). lia. }
  destruct v as [| | |s|l|]; try (eexists; reflexivity).
  - simpl. destruct flag; eexists; reflexivity.
  - destruct (nth_error h l) as [o|] eqn:Eo;
      [|simpl; rewrite Eo; eexists; reflexivity].
    rewrite (redact_ref d h pws l flag o Eo).
    destruct (for_range_ok (visit (redact d) l) (seq 0 (List.length (slots o)))
                (fun st => run_le (h, pws) st)) with (st := (h, pws))
      as [[h' p'] [E _]]; [|apply run_le_refl|rewrite E; eexists; reflexivity].
    intros st index _ Hst.
    assert (Hle : heap_le (snd st) h (fst st)) by apply Hst.
    assert (Hgo : exists st', visit (redact d) l st index = Ok st').
    { unfold visit. destruct (read_slot (fst st) l index) as [[k v]|] eqn:Hrd;
        [|eexists; reflexivity].
      unfold read_slot in Hrd.
      destruct (nth_error (fst st) l) as [o'|] eqn:Eo'; [|discriminate].
      pose proof (keys_iterable_le _ _ _ Hle Hk l o' Eo') as Hkeys.
      pose proof (ranked_le _ _ _ Hle Hr l o' Eo') as Hrefs.
      unfold refs_below in Hrefs.
      rewrite Forall_forall in Hkeys, Hrefs.
      specialize (Hkeys _ (nth_error_In _ _ Hrd)).
      specialize (Hrefs _ (nth_error_In _ _ Hrd)). simpl in Hkeys, Hrefs.
      assert (Hflag : exists f, slot_flag k v = Ok f).
      { destruct k as [k|]; simpl; [|eexists; reflexivity].
        destruct Hkeys as [b ->]. eexists; reflexivity. }
      destruct Hflag as [f ->].
      destruct (IH (fst st) (snd st) v f) as [[[h2 p2] v2] ->];
        [apply (ranked_le _ _ _ Hle Hr) | apply (keys_iterable_le _ _ _ Hle Hk) |
         |eexists; reflexivity].
      simpl in Hf. destruct v; simpl; lia. }
    destruct Hgo as [st' Hv]. exists st'. split; [exact Hv|].
    eapply run_le_trans; [exact Hst|]. apply (visit_step d (redact_sound d) _ _ _ _ Hv).
Qed.

(** *** What is recorded *)

Lemma record_In_inv (pws : list string) (s s' : string) :
  In s' (record pws s) -> In s' pws \/ s' = s.
Proof.
  unfold record. destruct (list_in s pws); [auto|].
  intros H. apply in_app_or in H. destruct H as [H|[H|[]]]; auto.
Qed.

Lemma holds_password_back (P : list string) (h h' : store) (s : string) :
  heap_le P h h' -> holds_password h' s ->
  holds_password h s \/ s = "__redacted__".
Proof.
  intros Hle (l & o' & index & k & Ho' & Hn & Hk).
  destruct (Forall2_nth_error_r _ _ _ _ _ Hle Ho') as [o [Ho [_ Hs]]].
  destruct (Forall2_nth_error_r _ _ _ _ _ Hs Hn) as [[k0 x] [Hx [Hkk Hv]]].
  simpl in Hkk, Hv. subst k0.
  destruct Hv as [Hv|(_ & s' & _ & _ & Hv)].
  - left. exists l, o, index, k. subst x. auto.
  - right. congruence.
Qed.

Lemma read_holds (h : store) (l : loc) (index : nat) (k : option key) (s : string) :
  read_slot h l index = Some (k, VStr s) -> slot_pass k = true -> holds_password h s.
Proof.
  unfold read_slot. destruct (nth_error h l) as [o|] eqn:Eo; [|discriminate].
  intros Hn Hp. destruct k as [k|]; [|discriminate]. simpl in Hp.
  exists l, o, index, k. split; [exact Eo|]. split; [exact Hn|].
  destruct (key_has_pass k); congruence.
Qed.

Lemma recorded_from_refl (st : state) : recorded_from st st.
Proof. split; [apply state_le_refl | auto]. Qed.

Lemma recorded_from_trans (a b c : state) :
  recorded_from a b -> recorded_from b c -> recorded_from a c.
Proof.
  intros [H1 R1] [H2 R2]. split; [eapply state_le_trans; eassumption|].
  intros s Hs. destruct (R2 s Hs) as [H|[H|H]]; [apply R1, H | | auto].
  destruct (holds_password_back _ _ _ s (proj1 H1) H); auto.
Qed.

(** Nothing but passwords and the marker is recorded. *)
Lemma redact_origin (depth : nat) :
  forall h pws v flag h' pws' v',
    redact depth h pws v flag = Ok (h', pws', v') ->
    forall s, In s pws' ->
      In s pws \/ (flag = true /\ v = VStr s) \/ holds_password h s \/ s = "__redacted__".
Proof.
  induction depth as [|d IH]; intros h pws v flag h' pws' v'; [discriminate|].
  destruct v as [| | |s0|l|]; try (simpl; intros [= <- <- <-]; auto).
  - simpl. destruct flag; intros [= <- <- <-] s Hs; [|auto].
    destruct (record_In_inv _ _ _ Hs) as [H| ->]; auto.
  - destruct (nth_error h l) as [o|] eqn:Eo;
      [|simpl; rewrite Eo; intros [= <- <- <-]; auto].
    rewrite (redact_ref d h pws l flag o Eo).
    destruct (for_range (visit (redact d) l) (seq 0 (List.length (slots o))) (h, pws))
      as [[h1 p1]|e] eqn:E; [|discriminate].
    intros [= <- <- <-] s Hs.
    apply (for_range_steps _ recorded_from recorded_from_refl recorded_from_trans) in E.
    + destruct E as [_ H]. destruct (H s Hs) as [H1|[H1|H1]]; auto.
    + clear s Hs. intros st index st' _ Hv.
      split; [apply (visit_step d (redact_sound d) _ _ _ _ Hv)|].
      destruct (visit_inv _ _ _ _ _ Hv) as [[_ ->]|H]; [auto|].
      destruct H as (k & v & fl & h2 & p2 & v2 & Hr & Hf & Hc & ->).
      simpl. intros s Hs.
      destruct (IH _ _ _ _ _ _ _ Hc s Hs) as [H|[[Hfl ->]|[H|H]]]; auto.
      right. left. apply (read_holds _ _ _ _ _ Hr).
      apply slot_flag_pass in Hf. rewrite Hfl in Hf.
      destruct (slot_pass k); [reflexivity | discriminate].
Qed.

(** Without a password in the store a call changes nothing. *)
Lemma redact_nothing (depth : nat) :
  forall h pws v h' pws' v',
    (forall s, ~ holds_password h s) ->
    redact depth h pws v false = Ok (h', pws', v') ->
    h' = h /\ pws' = pws /\ v' = v.
Proof.
  induction depth as [|d IH]; intros h pws v h' pws' v' Hno; [discriminate|].
  destruct v as [| | |s0|l|]; try (simpl; intros [= <- <- <-]; auto).
  destruct (nth_error h l) as [o|] eqn:Eo;
    [|simpl; rewrite Eo; intros [= <- <- <-]; auto].
  rewrite (redact_ref d h pws l false o Eo).
  destruct (for_range (visit (redact d) l) (seq 0 (List.length (slots o))) (h, pws))
    as [[h1 p1]|e] eqn:E; [|discriminate].
  intros [= <- <- <-].
  assert (H : (forall s, ~ holds_password (fst (h, pws)) s) -> (h1, p1) = (h, pws)).
  2: { specialize (H Hno). injection H as -> ->. auto. }
  refine (for_range_steps (visit (redact d) l)
            (fun a b : state => (forall s, ~ holds_password (fst a) s) -> b = a)
            _ _ _ _ (h, pws) (h1, p1) E).
  - reflexivity.
  - intros a b c H1 H2 Ha. rewrite <- (H1 Ha) in Ha |- *. apply H2, Ha.
  - intros st index st' _ Hv Hst.
    destruct (visit_inv _ _ _ _ _ Hv) as [[_ ->]|H]; [reflexivity|].
    destruct H as (k & v & fl & h2 & p2 & v2 & Hr & Hf & Hc & ->).
    apply slot_flag_pass in Hf.
    destruct fl.
    + exfalso. symmetry in Hf. apply andb_prop in Hf. destruct Hf as [Hp Hs].
      destruct v; try discriminate. apply (Hst s), (read_holds _ _ _ _ _ Hr Hp).
    + destruct (IH _ _ _ _ _ _ Hst Hc) as (-> & -> & ->).
      rewrite (write_same _ _ _ _ _ Hr). destruct st; reflexivity.
Qed.

Lemma redacted_leaf_false (v : val) : redacted_leaf v false = v.
Proof. destruct v; reflexivity. Qed.

Lemma position_flag_false (path : list step) :
  position_flag false path = password_position path.
Proof. destruct path; reflexivity. Qed.

(** A dictionary with an integer among its keys: the test ['pass' in k]
    raises, however many frames the call has. *)
Lemma redact_int_key_raises (depth : nat) (pws : list string) (flag : bool) :
  redact (S (S depth)) Scenarios.int_key pws (VRef 0) flag
  = Raise (Exn TypeError_ "argument of type 'int' is not iterable").
Proof. reflexivity. Qed.

(** A list that contains itself: the calls nest until the frames are used
    up. *)
Lemma redact_self_containing_raises (depth : nat) (pws : list string) (flag : bool) :
  redact depth Scenarios.self_containing pws (VRef 0) flag
  = Raise (Exn RecursionError_ "maximum recursion depth exceeded").
Proof.
  revert flag. induction depth as [|d IH]; intros flag; [reflexivity|].
  rewrite (redact_ref d Scenarios.self_containing pws 0 flag (OList [VRef 0]) eq_refl).
  cbn [slots map List.length seq for_range]. unfold visit. cbn.
  change [OList [VRef 0]] with Scenarios.self_containing. rewrite IH. reflexivity.
Qed.

(** C10, as it stands, fails: on [{1: 'x'}] no call returns. *)
Lemma redact_returns_for_every_object_fails : ~ Claims.redact_returns_for_every_object.
Proof.
  intros H. destruct (H Scenarios.int_key [] (VRef 0)) as (depth & h' & pws' & E & _).
  destruct depth as [|[|depth]]; discriminate.
Qed.

(** C10, amended: in a store without cycles whose dictionary keys are
    strings or tuples, a call of [redact] with frames enough for the depth
    of its argument returns; on a key that is not iterable it raises
    [TypeError], on an object that contains itself [RecursionError].
    Whenever the call returns, with a password list that holds no string
    twice (it starts empty and only [redact] writes to it), it returns the
    list and the object it was given, and after it every leaf is found where
    it was: a string stored in a dictionary under a key containing ['pass']
    has become ['__redacted__'], at any depth of lists and dictionaries and
    however often its dictionary occurs, and every other string and every
    other leaf is as it was.  The list is the old list with new entries at
    its end, still without repetition, and any number of further calls on
    the same object return as well and leave each replaced string in the
    list exactly once. *)
Theorem redact_replaces_and_records
    (depth : nat) (h : store) (pws : list string) (obj : val) :
  NoDup pws ->
  (ranked h -> keys_iterable h -> frames obj <= depth ->
   exists h' pws', redact depth h pws obj false = Ok (h', pws', obj))
  /\ (forall h' pws' obj',
        redact depth h pws obj false = Ok (h', pws', obj') ->
        obj' = obj
        /\ (forall path x,
              lookup h path obj = Some x -> is_leaf x = true ->
              lookup h' path obj' = Some (redacted_leaf x (password_position path)))
        /\ (forall path s,
              lookup h path obj = Some (VStr s) ->
              lookup h' path obj'
              = Some (VStr (if password_position path then "__redacted__" else s)))
        /\ extends pws pws'
        /\ NoDup pws'
        /\ (forall path s n,
              lookup h path obj = Some (VStr s) -> password_position path = true ->
              exists hn pwsn,
                redact_times (S n) depth h pws obj = Ok (hn, pwsn, obj)
                /\ count_occ string_dec pwsn s = 1)).
Proof.
  intros Hnd. split.
  - intros Hr Hk Hf.
    destruct (redact_returns depth h pws obj false Hr Hk Hf) as [[[h' pws'] obj'] E].
    destruct (redact_sound _ _ _ _ _ _ _ _ E) as (_ & Hv & _).
    rewrite redacted_leaf_false in Hv. subst obj'. exists h', pws'. exact E.
  - intros h' pws' obj' E.
    destruct (redact_sound _ _ _ _ _ _ _ _ E) as ([[_ Hext] Hnd'] & Hv & _).
    simpl in Hext, Hnd'. rewrite redacted_leaf_false in Hv. subst obj'.
    assert (Hleaf : forall path x,
              lookup h path obj = Some x -> is_leaf x = true ->
              lookup h' path obj = Some (redacted_leaf x (password_position path))).
    { intros path x Hl Hx.
      destruct (redact_leaf _ _ _ _ _ _ _ _ _ _ E Hl Hx) as [H _].
      rewrite position_flag_false in H. exact H. }
    split; [reflexivity|]. split; [exact Hleaf|]. split; [|split; [|split]].
    + intros path s Hl. rewrite (Hleaf path (VStr s) Hl eq_refl). simpl.
      destruct (password_position path); reflexivity.
    + exact Hext.
    + exact (Hnd' Hnd).
    + intros path s n Hl Hp.
      destruct (redact_leaf _ _ _ _ _ _ _ _ _ _ E Hl eq_refl) as [_ Hrec].
      rewrite position_flag_false in Hrec. specialize (Hrec s eq_refl Hp).
      destruct (redact_times_again _ _ _ _ _ _ _ E n pws' (Hnd' Hnd))
        as (pn & En & Hextn & Hndn).
      exists h', pn. split; [cbn [redact_times]; rewrite E; exact En|].
      apply (proj1 (NoDup_count_occ' string_dec pn) Hndn).
      apply (extends_incl _ _ Hextn), Hrec.
Qed.

Lemma redact_replaces_and_records_witness :
  (exists h' pws', redact 3 Scenarios.shared_dict [] (VRef 1) false = Ok (h', pws', VRef 1))
  /\ lookup [ODict [(KStr "password", VStr "__redacted__")];
             OList [VRef 0; VRef 0; VStr "keep"]]
            [Index 1; Key (KStr "password")] (VRef 1)
     = Some (VStr "__redacted__")
  /\ exists hn pwsn,
       redact_times 3 3 Scenarios.shared_dict [] (VRef 1) = Ok (hn, pwsn, VRef 1)
       /\ count_occ string_dec pwsn "x" = 1.
Proof.
  destruct (redact_replaces_and_records 3 Scenarios.shared_dict [] (VRef 1) (NoDup_nil string))
    as [Hreturns Hafter].
  destruct (Hafter [ODict [(KStr "password", VStr "__redacted__")];
                    OList [VRef 0; VRef 0; VStr "keep"]]
                   ["x"; "__redacted__"] (VRef 1) eq_refl)
    as (_ & _ & Hstr & _ & _ & Htimes).
  split; [|split].
  - apply Hreturns.
    + intros l o Ho. destruct l as [|[|[|l]]]; simpl in Ho; try discriminate;
        injection Ho as <-; repeat constructor.
    + intros l o Ho. destruct l as [|[|[|l]]]; simpl in Ho; try discriminate;
        injection Ho as <-; repeat constructor; simpl; eexists; reflexivity.
    + simpl. lia.
  - exact (Hstr [Index 1; Key (KStr "password")] "x" eq_refl).
  - exact (Htimes [Index 1; Key (KStr "password")] "x" 2 eq_refl eq_refl).
Defined.

End PasswordFacts.

(** ** Start-up of the daemon *)

Module DaemonFacts.
Import PyStr Daemon.

(** C9: the configured web-UI class is a name that does not switch the UI
    off, the steps before the web-UI block have run, and importing the
    named module raises [ModuleNotFoundError].  Then [initialize] returns
    normally: the failure is logged as an error, and the application is
    left with the API blueprint and no web-UI blueprint. *)
Theorem missing_webui_is_not_fatal
    (h : Host) (cls : string) (app : App) (e : exn) :
  setup h = None ->
  list_in (lower cls) disabled_names = false ->
  import_module h cls = Raise e ->
  is_ModuleNotFoundError e = true ->
  let out := initialize h (Some cls) app in
  snd out = None
  /\ blueprints (fst out) = (blueprints app ++ ["api"])%list
  /\ log (fst out)
     = (log app ++
        [(DEBUG, ("using class " ++ cls ++ " as webui")%string);
         (ERROR, ("No module named '" ++ cls ++
                  "', did you install the jinjamator-daemon-webui package? -> WEBUI disabled")%string)])%list.
Proof.
  intros Hsetup Hcls Himp Hmnf. unfold initialize, try_webui.
  rewrite Hsetup, Hcls, Himp, Hmnf. simpl.
  repeat split. rewrite <- app_assoc. reflexivity.
Qed.

Lemma missing_webui_is_not_fatal_witness :
  snd (initialize Scenarios.no_webui_package (Some "jinjamator_daemon_webui")
         Scenarios.fresh_app) = None
  /\ blueprints (fst (initialize Scenarios.no_webui_package
                        (Some "jinjamator_daemon_webui") Scenarios.fresh_app))
     = ["api"].
Proof.
  pose proof (missing_webui_is_not_fatal Scenarios.no_webui_package
                "jinjamator_daemon_webui" Scenarios.fresh_app
                (Exn ModuleNotFoundError_ "No module named 'jinjamator_daemon_webui'")
                eq_refl eq_refl eq_refl eq_refl) as H.
  exact (conj (proj1 H) (proj1 (proj2 H))).
Defined.

(** A name that switches the UI off, in any case of letters, imports
    nothing. *)
Lemma disabled_webui (h : Host) (cls : string) (app : App) :
  setup h = None ->
  list_in (lower cls) disabled_names = true ->
  initialize h (Some cls) app
  = (log_write (register app "api") DEBUG "WEBUI disabled", None).
Proof.
  intros Hsetup Hcls. unfold initialize. rewrite Hsetup, Hcls. reflexivity.
Qed.

(** The handler is for [ModuleNotFoundError] alone: any other exception of
    the import leaves [initialize]. *)
Lemma other_import_error_propagates (h : Host) (cls : string) (app : App) (e : exn) :
  setup h = None ->
  list_in (lower cls) disabled_names = false ->
  import_module h cls = Raise e ->
  is_ModuleNotFoundError e = false ->
  snd (initialize h (Some cls) app) = Some e.
Proof.
  intros Hsetup Hcls Himp Hmnf. unfold initialize, try_webui.
  rewrite Hsetup, Hcls, Himp, Hmnf. reflexivity.
Qed.

End DaemonFacts.

(** ** More on [redact] *)

Module RedactFacts.
Import PyStr Password PasswordFacts.

(** X1: a second call of [redact] on the object that a first call has
    returned returns as well, whatever the password list holds by then, and
    returns the same object with the store as the first call left it:
    rewriting is idempotent. *)
Theorem redact_idempotent
    (depth : nat) (h : store) (pws : list string) (obj : val) (flag : bool)
    (h1 : store) (pws1 : list string) (obj1 : val) :
  redact depth h pws obj flag = Ok (h1, pws1, obj1) ->
  forall pws', exists pws2, redact depth h1 pws' obj1 flag = Ok (h1, pws2, obj1).
Proof.
  intros H pws'. apply (redact_again _ _ _ _ _ _ _ _ H pws1 h1 pws'), heap_le_refl.
Qed.

Lemma redact_idempotent_witness :
  exists pws2,
    redact 3 [ODict [(KStr "password", VStr "__redacted__")];
              OList [VRef 0; VRef 0; VStr "keep"]] ["old"] (VRef 1) false
    = Ok ([ODict [(KStr "password", VStr "__redacted__")];
           OList [VRef 0; VRef 0; VStr "keep"]], pws2, VRef 1).
Proof.
  exact (redact_idempotent 3 Scenarios.shared_dict [] (VRef 1) false
           [ODict [(KStr "password", VStr "__redacted__")];
            OList [VRef 0; VRef 0; VStr "keep"]]
           ["x"; "__redacted__"] (VRef 1) eq_refl ["old"]).
Defined.

(** X2: the password list after a call that has returned is the list
    before it with entries added at its end, and every entry added is a
    string that the store held under a key containing ['pass'] before the
    call, or the marker ['__redacted__'] itself, which the call finds in a
    dictionary that it reaches a second time. *)
Theorem redact_records_passwords_only
    (depth : nat) (h : store) (pws : list string) (obj : val)
    (h' : store) (pws' : list string) (obj' : val) :
  redact depth h pws obj false = Ok (h', pws', obj') ->
  extends pws pws'
  /\ forall s, In s pws' -> In s pws \/ holds_password h s \/ s = "__redacted__".
Proof.
  intros H. split; [apply (redact_sound _ _ _ _ _ _ _ _ H)|].
  intros s Hs. destruct (redact_origin _ _ _ _ _ _ _ _ H s Hs) as [H1|[[H1 _]|H1]];
    [auto | discriminate | auto].
Qed.

Lemma redact_records_passwords_only_witness :
  extends ["old"] ["old"; "x"; "__redacted__"]
  /\ forall s, In s ["old"; "x"; "__redacted__"] ->
       In s ["old"] \/ holds_password Scenarios.shared_dict s \/ s = "__redacted__".
Proof.
  exact (redact_records_passwords_only 3 Scenarios.shared_dict ["old"] (VRef 1)
           [ODict [(KStr "password", VStr "__redacted__")];
            OList [VRef 0; VRef 0; VStr "keep"]]
           ["old"; "x"; "__redacted__"] (VRef 1) eq_refl).
Defined.

(** X3: in a store without cycles that holds no string under a dictionary
    key containing ['pass'] and whose dictionary keys are strings or
    tuples, a call of [redact] with frames enough returns and leaves the
    store, the password list and the object exactly as they were. *)
Theorem redact_nothing_to_redact
    (depth : nat) (h : store) (pws : list string) (obj : val) :
  ranked h -> keys_iterable h -> frames obj <= depth ->
  (forall s, ~ holds_password h s) ->
  redact depth h pws obj false = Ok (h, pws, obj).
Proof.
  intros Hr Hk Hf Hno.
  destruct (redact_returns depth h pws obj false Hr Hk Hf) as [[[h' pws'] obj'] E].
  destruct (redact_nothing _ _ _ _ _ _ _ Hno E) as (-> & -> & ->). exact E.
Qed.

Lemma redact_nothing_to_redact_witness :
  redact 3 Scenarios.no_password ["old"] (VRef 1) false
  = Ok (Scenarios.no_password, ["old"], VRef 1).
Proof.
  apply redact_nothing_to_redact.
  - intros l o Ho. destruct l as [|[|[|l]]]; simpl in Ho; try discriminate;
      injection Ho as <-; repeat constructor.
  - intros l o Ho. destruct l as [|[|[|l]]]; simpl in Ho; try discriminate;
      injection Ho as <-; repeat constructor; simpl; eexists; reflexivity.
  - simpl. lia.
  - intros s (l & o & index & k & Ho & Hn & Hk).
    destruct l as [|[|[|l]]]; simpl in Ho; try discriminate; injection Ho as <-;
      destruct index as [|[|[|index]]]; simpl in Hn; try discriminate;
      injection Hn as <- _; discriminate.
Defined.

(** X4: a call of [redact] that has returned has changed strings only: in
    the whole store the lists have kept their lengths, the dictionaries
    their keys in their order, and every slot that did not hold a string
    its value; the object returned is the object given, or a string for a
    string. *)
Theorem redact_keeps_structure
    (depth : nat) (h : store) (pws : list string) (obj : val) (flag : bool)
    (h' : store) (pws' : list string) (obj' : val) :
  redact depth h pws obj flag = Ok (h', pws', obj') ->
  map blank h' = map blank h /\ blank_val obj' = blank_val obj.
Proof.
  intros H. destruct (redact_sound _ _ _ _ _ _ _ _ H) as ([[Hle _] _] & -> & _).
  split; [apply (heap_le_blank _ _ _ Hle)|].
  destruct obj; try reflexivity. destruct flag; reflexivity.
Qed.

Lemma redact_keeps_structure_witness :
  map blank [ODict [(KStr "password", VStr "__redacted__")];
             OList [VRef 0; VRef 0; VStr "keep"]]
  = map blank Scenarios.shared_dict
  /\ blank_val (VRef 1) = blank_val (VRef 1).
Proof.
  exact (redact_keeps_structure 3 Scenarios.shared_dict [] (VRef 1) false
           [ODict [(KStr "password", VStr "__redacted__")];
            OList [VRef 0; VRef 0; VStr "keep"]]
           ["x"; "__redacted__"] (VRef 1) eq_refl).
Defined.

(** X5: the object is rewritten in place, so a second call finds the
    marker where a password was and records it: when a call on an object
    that holds a password has returned, a second call returns as well, and
    after it ['__redacted__'] itself is in the password list. *)
Theorem second_call_records_marker
    (depth : nat) (h : store) (pws : list string) (obj : val)
    (path : list step) (s : string)
    (h1 : store) (pws1 : list string) (obj1 : val) :
  lookup h path obj = Some (VStr s) ->
  password_position path = true ->
  redact depth h pws obj false = Ok (h1, pws1, obj1) ->
  exists pws2,
    redact_times 2 depth h pws obj = Ok (h1, pws2, obj)
    /\ In "__redacted__" pws2.
Proof.
  intros Hl Hp E.
  destruct (redact_sound _ _ _ _ _ _ _ _ E) as (_ & Hv & _).
  rewrite redacted_leaf_false in Hv. subst obj1.
  destruct (redact_leaf _ _ _ _ _ _ _ _ _ _ E Hl eq_refl) as [Hl1 _].
  rewrite position_flag_false, Hp in Hl1. cbn [redacted_leaf] in Hl1.
  destruct (redact_again _ _ _ _ _ _ _ _ E pws1 h1 pws1 (heap_le_refl _ _)) as [pws2 E2].
  exists pws2. split; [cbn [redact_times]; rewrite E, E2; reflexivity|].
  destruct (redact_leaf _ _ _ _ _ _ _ _ _ _ E2 Hl1 eq_refl) as [_ Hrec].
  rewrite position_flag_false in Hrec. apply (Hrec _ eq_refl Hp).
Qed.

Lemma second_call_records_marker_witness :
  exists pws2,
    redact_times 2 3 [ODict [(KStr "password", VStr "s3cret")]] [] (VRef 0)
    = Ok ([ODict [(KStr "password", VStr "__redacted__")]], pws2, VRef 0)
    /\ In "__redacted__" pws2.
Proof.
  exact (second_call_records_marker 3 [ODict [(KStr "password", VStr "s3cret")]] [] (VRef 0)
           [Key (KStr "password")] "s3cret"
           [ODict [(KStr "password", VStr "__redacted__")]] ["s3cret"] (VRef 0)
           eq_refl eq_refl eq_refl).
Defined.

End RedactFacts.

(** ** The environment helpers of the content plugin *)

Module EnvironmentFacts.
Import PyStr OsPath Environment.

Lemma get_remove_same {V : Type} (d : list (string * V)) (k : string) :
  NoDup (PyDict.keys d) -> PyDict.get (PyDict.remove d k) k = None.
Proof.
  induction d as [|[k' v'] d IH]; intros Hnd; simpl; [reflexivity|].
  inversion Hnd as [|? ? Hnin Hnd']; subst.
  destruct (String.eqb_spec k k') as [->|Hk].
  - apply PyDictFacts.get_None_keys. exact Hnin.
  - simpl. destruct (String.eqb_spec k k'); [contradiction | apply IH, Hnd'].
Qed.

Lemma get_remove_other {V : Type} (d : list (string * V)) (k k' : string) :
  k' <> k -> PyDict.get (PyDict.remove d k) k' = PyDict.get d k'.
Proof.
  intros Hne. induction d as [|[k0 v0] d IH]; simpl; [reflexivity|].
  destruct (String.eqb_spec k k0) as [->|Hk]; simpl.
  - destruct (String.eqb_spec k' k0); [contradiction | reflexivity].
  - destruct (String.eqb_spec k' k0); [reflexivity | exact IH].
Qed.

(** X6: [pop] never raises.  It returns what [get] returns for the same
    variable and default; afterwards the variable is unset, so that [get]
    answers with its default, and every other variable reads as before. *)
Theorem pop_then_get
    (environ : list (string * string)) (var : string) (default : option string) :
  NoDup (PyDict.keys environ) ->
  exists environ',
    pop environ var default = Ok (environ', get environ var default)
    /\ (forall d, get environ' var d = d)
    /\ (forall other d, other <> var -> get environ' other d = get environ other d).
Proof.
  intros Hnd. unfold pop, environ_pop, get.
  destruct (PyDict.get environ var) as [v|] eqn:E.
  - exists (PyDict.remove environ var). split; [reflexivity|]. split.
    + intros d. rewrite (get_remove_same _ _ Hnd). reflexivity.
    + intros other d Hne. rewrite (get_remove_other _ _ _ Hne). reflexivity.
  - exists environ. cbn. split; [reflexivity|]. split.
    + intros d. rewrite E. reflexivity.
    + reflexivity.
Qed.

Lemma pop_then_get_witness :
  exists environ',
    pop [("HOME", "/root"); ("JINJAMATOR_SITE", "vienna")] "JINJAMATOR_SITE" None
    = Ok (environ', Some "vienna")
    /\ (forall d, get environ' "JINJAMATOR_SITE" d = d)
    /\ (forall other d, other <> "JINJAMATOR_SITE" ->
          get environ' other d
          = get [("HOME", "/root"); ("JINJAMATOR_SITE", "vienna")] other d).
Proof.
  refine (pop_then_get [("HOME", "/root"); ("JINJAMATOR_SITE", "vienna")]
            "JINJAMATOR_SITE" None _).
  repeat constructor; simpl; intuition discriminate.
Defined.

Lemma split_nonempty (c : ascii) (s : string) : split c s <> [].
Proof.
  destruct s as [|a s]; simpl; [discriminate|].
  destruct (Ascii.eqb a c); [discriminate|].
  destruct (split c s); discriminate.
Qed.

Lemma join_with_split (c : ascii) (s : string) :
  join_with (String c "") (split c s) = s.
Proof.
  induction s as [|a s IH]; [reflexivity|].
  cbn [split]. destruct (Ascii.eqb_spec a c) as [->|Hne].
  - pose proof (split_nonempty c s) as Hs.
    destruct (split c s) as [|h t] eqn:E; [contradiction|].
    change (join_with (String c "") ("" :: h :: t))
      with ("" ++ String c "" ++ join_with (String c "") (h :: t)).
    rewrite IH. reflexivity.
  - pose proof (split_nonempty c s) as Hs.
    destruct (split c s) as [|h t] eqn:E; [contradiction|].
    destruct t as [|h' t].
    + simpl in *. rewrite IH. reflexivity.
    + change (join_with (String c "") (String a h :: h' :: t))
        with (String a (h ++ String c "" ++ join_with (String c "") (h' :: t))).
      change (join_with (String c "") (h :: h' :: t))
        with (h ++ String c "" ++ join_with (String c "") (h' :: t)) in IH.
      rewrite IH. reflexivity.
Qed.

Lemma split_chunks_without_sep (c : ascii) (s : string) :
  Forall (fun chunk => has_char c chunk = false) (split c s).
Proof.
  induction s as [|a s IH]; [repeat constructor|].
  cbn [split]. destruct (Ascii.eqb a c) eqn:E.
  - constructor; [reflexivity | exact IH].
  - destruct (split c s) as [|h t]; [repeat constructor; simpl; rewrite E; reflexivity|].
    inversion IH as [|? ? Hh Ht]; subst.
    constructor; [simpl; rewrite E; exact Hh | exact Ht].
Qed.

(** X7: with a base directory configured and its [requirements.txt]
    readable, [python_requirements] returns at least one line, no line
    contains a line break, and the lines joined by line breaks are the
    content of the file: a trailing line break shows as a last, empty line. *)
Theorem python_requirements_lines
    (configuration : list (string * pyobj)) (read : string -> result string)
    (base content : string) :
  jinjamator_base_directory configuration = PStr base ->
  read (join base ["requirements.txt"]) = Ok content ->
  exists lines,
    python_requirements configuration read = Ok lines
    /\ lines <> []
    /\ Forall (fun line => has_char newline line = false) lines
    /\ join_with (String newline "") lines = content.
Proof.
  intros Hbase Hread. unfold python_requirements. rewrite Hbase, Hread.
  exists (split newline content). cbn [bind].
  split; [reflexivity|]. split; [apply split_nonempty|].
  split; [apply split_chunks_without_sep | apply join_with_split].
Qed.

Lemma python_requirements_lines_witness :
  exists lines,
    python_requirements [("jinjamator_base_directory", PStr "/opt/jinjamator")]
      (fun p => if String.eqb p "/opt/jinjamator/requirements.txt"
                then Ok ("flask" ++ String newline ("celery" ++ String newline ""))
                else Raise (Exn Exception_ "FileNotFoundError"))
    = Ok lines
    /\ lines <> []
    /\ Forall (fun line => has_char newline line = false) lines
    /\ join_with (String newline "") lines
       = "flask" ++ String newline ("celery" ++ String newline "").
Proof.
  exact (python_requirements_lines
           [("jinjamator_base_directory", PStr "/opt/jinjamator")]
           (fun p => if String.eqb p "/opt/jinjamator/requirements.txt"
                     then Ok ("flask" ++ String newline ("celery" ++ String newline ""))
                     else Raise (Exn Exception_ "FileNotFoundError"))
           "/opt/jinjamator" _ eq_refl eq_refl).
Defined.

End EnvironmentFacts.

(** ** Discovery: what every pass keeps *)

Module PassFacts.
Import PyStr OsPath Tasks Discovery PyStrFacts DiscoveryFacts.

Lemma prefix_of_refl {A : Type} (a : list A) : prefix_of a a.
Proof. exists []. symmetry. apply app_nil_r. Qed.

Lemma prefix_of_trans {A : Type} (a b c : list A) :
  prefix_of a b -> prefix_of b c -> prefix_of a c.
Proof. intros [x ->] [y ->]. exists (x ++ y)%list. symmetry. apply app_assoc. Qed.

Lemma prefix_of_app {A : Type} (a x : list A) : prefix_of a (a ++ x)%list.
Proof. exists x. reflexivity. Qed.

Lemma prefix_of_incl {A : Type} (a b : list A) : prefix_of a b -> incl a b.
Proof. intros [x ->]. apply incl_appl, incl_refl. Qed.

Lemma keys_set_prefix {V : Type} (d : list (string * V)) (k : string) (v : V) :
  prefix_of (PyDict.keys d) (PyDict.keys (PyDict.set d k v)).
Proof.
  rewrite PyDictFacts.keys_set.
  destruct (PyDict.mem k d); [apply prefix_of_refl | apply prefix_of_app].
Qed.

Lemma mem_In_keys {V : Type} (d : list (string * V)) (k : string) :
  PyDict.mem k d = true <-> In k (PyDict.keys d).
Proof.
  unfold PyDict.mem. destruct (PyDict.get d k) eqn:E.
  - split; [intros _; eapply PyDictFacts.get_In_keys, E | reflexivity].
  - split; [discriminate|]. intros H. apply PyDictFacts.get_None_keys in E. contradiction.
Qed.

Lemma mem_set_mono {V : Type} (d : list (string * V)) (k k' : string) (v : V) :
  PyDict.mem k' d = true -> PyDict.mem k' (PyDict.set d k v) = true.
Proof.
  rewrite !mem_In_keys. apply prefix_of_incl, keys_set_prefix.
Qed.

Lemma Forall_set {V : Type} (P : string * V -> Prop)
    (d : list (string * V)) (k : string) (v : V) :
  Forall P d -> P (k, v) -> Forall P (PyDict.set d k v).
Proof.
  intros Hd Hkv. induction Hd as [|[k' v'] d Hx Hd IH]; simpl.
  - repeat constructor. exact Hkv.
  - destruct (String.eqb k k'); constructor; assumption.
Qed.

Lemma py_or_nonempty (doc : option string) (default : string) :
  default <> "" -> py_or doc default <> "".
Proof.
  intros Hd. destruct doc as [[|c s]|]; simpl; try exact Hd. discriminate.
Qed.

(** Every iteration is a skip, a failure of the documentation helper, or
    the entry of one descriptor. *)
Lemma discover_one_outcome (w : World) (base tasklet : string) (r : Registry) :
  step_outcome w base tasklet r (discover_one w base tasklet r).
Proof.
  unfold discover_one.
  destruct (append_flag base (dirname tasklet)) eqn:Happ; [|constructor].
  destruct (get_section_from_task_doc w _) as [doc|e]; [|constructor].
  set (ti := build_task_info w base (dirname tasklet) doc).
  destruct (PyDict.mem (id ti) _) eqn:Hid; cbn [negb]; [constructor|].
  set (r1 := set_available_tasks_by_path r _).
  assert (Hdesc : description ti <> "") by (apply py_or_nonempty; discriminate).
  unfold try_register.
  destruct (get_jsonform_schema w None _) as [full|e].
  - destruct (PyDict.get full "schema") as [data|].
    + destruct (ns_route w _ _) as [u|e].
      * apply (Entered _ _ _ _ ti); try reflexivity; try assumption.
        -- right. eexists. split; [reflexivity | right; reflexivity].
        -- apply prefix_of_app.
      * destruct (is_Exception e);
          apply (Entered _ _ _ _ ti); try reflexivity; try assumption;
          try (right; eexists; split; [reflexivity | right; reflexivity]).
        -- cbn. rewrite <- app_assoc. apply prefix_of_app.
        -- apply prefix_of_app.
    + apply (Entered _ _ _ _ ti); try reflexivity; try assumption.
      * left. split; reflexivity.
      * apply prefix_of_app.
  - destruct (is_Exception e);
      apply (Entered _ _ _ _ ti); try reflexivity; try assumption;
      try (left; split; reflexivity).
    + apply prefix_of_app.
    + apply prefix_of_refl.
Qed.

Section LoopIn.
Context {A : Type}.
Variable body : A -> Registry -> Registry * option exn.

Lemma for_each_invariant_In (P : Registry -> Prop) (l : list A) :
  (forall x r, In x l -> P r -> P (fst (body x r))) ->
  forall r, P r -> P (fst (for_each body l r)).
Proof.
  induction l as [|x l IH]; intros Hbody r Hr; simpl; [exact Hr|].
  pose proof (Hbody x r (or_introl eq_refl) Hr) as Hx.
  destruct (body x r) as [r' [e|]]; simpl in *; [exact Hx|].
  apply IH; [|exact Hx]. intros y r0 Hy. apply Hbody. right. exact Hy.
Qed.

Lemma for_each_app (l1 l2 : list A) (r : Registry) :
  for_each body (l1 ++ l2) r
  = match for_each body l1 r with
    | (r', None) => for_each body l2 r'
    | (r', Some e) => (r', Some e)
    end.
Proof.
  revert r. induction l1 as [|x l1 IH]; intros r; simpl; [reflexivity|].
  destruct (body x r) as [r' [e|]]; [reflexivity | apply IH].
Qed.
End LoopIn.

Lemma for_each_ext {A : Type} (f g : A -> Registry -> Registry * option exn) (l : list A) :
  (forall x r, f x r = g x r) -> forall r, for_each f l r = for_each g l r.
Proof.
  intros H. induction l as [|x l IH]; intros r; simpl; [reflexivity|].
  rewrite H. destruct (g x r) as [r' [e|]]; [reflexivity | apply IH].
Qed.

Lemma for_each_map {A B : Type} (f : A -> B)
    (g : B -> Registry -> Registry * option exn) (l : list A) :
  forall r, for_each (fun x => g (f x)) l r = for_each g (map f l) r.
Proof.
  induction l as [|x l IH]; intros r; simpl; [reflexivity|].
  destruct (g (f x) r) as [r' [e|]]; [reflexivity | apply IH].
Qed.

Lemma for_each_flat_map {A B : Type} (h : A -> list B)
    (g : B -> Registry -> Registry * option exn) (l : list A) :
  forall r, for_each (fun x => for_each g (h x)) l r = for_each g (flat_map h l) r.
Proof.
  induction l as [|x l IH]; intros r; simpl; [reflexivity|].
  rewrite for_each_app.
  destruct (for_each g (h x) r) as [r' [e|]]; [reflexivity | apply IH].
Qed.

(** The three nested loops are one loop over the candidates. *)
Lemma discover_tasks_flat (w : World) (bases : list string) (r : Registry) :
  discover_tasks w bases r = for_each (discover_pair w) (candidates w bases) r.
Proof.
  unfold discover_tasks, candidates.
  rewrite <- for_each_flat_map. apply for_each_ext. intros base r0.
  rewrite <- for_each_flat_map. apply for_each_ext. intros ext r1.
  rewrite <- for_each_map. reflexivity.
Qed.

Lemma candidates_base (w : World) (bases : list string) (c : string * string) :
  In c (candidates w bases) -> In (fst c) bases.
Proof.
  unfold candidates. intros H. apply in_flat_map in H. destruct H as [b [Hb H]].
  apply in_flat_map in H. destruct H as [ext [_ H]].
  apply in_map_iff in H. destruct H as [t [<- _]]. exact Hb.
Qed.

Lemma registry_grows_refl (r : Registry) : registry_grows r r.
Proof. repeat split; apply prefix_of_refl. Qed.

Lemma registry_grows_trans (a b c : Registry) :
  registry_grows a b -> registry_grows b c -> registry_grows a c.
Proof.
  intros (H1 & H2 & H3 & H4) (G1 & G2 & G3 & G4).
  repeat split; eapply prefix_of_trans; eassumption.
Qed.

Lemma discover_one_grows (w : World) (base tasklet : string) (r : Registry) :
  registry_grows r (fst (discover_one w base tasklet r)).
Proof.
  destruct (discover_one_outcome w base tasklet r)
    as [| e | ti r' o _ _ _ _ _ Hby Hmr Hlog]; try apply registry_grows_refl.
  cbn [fst]. unfold registry_grows. rewrite Hby.
  split; [apply keys_set_prefix|]. split; [|split; [|exact Hlog]].
  - destruct Hmr as [[-> _]|[m [-> _]]]; [apply prefix_of_refl | apply keys_set_prefix].
  - destruct Hmr as [[_ ->]|[m [_ [->| ->]]]];
      [apply prefix_of_refl | apply prefix_of_refl | apply prefix_of_app].
Qed.

(** X8: a pass only adds.  The relative paths, the model keys, the routes
    and the log records that were there before it are still there after
    it, in the same order and in front of whatever the pass appended;
    nothing is removed, also not for a task whose files are gone, and also
    not when the pass is left by an exception. *)
Theorem discovery_only_adds (w : World) (bases : list string) (r : Registry) :
  registry_grows r (fst (discover_tasks w bases r)).
Proof.
  rewrite discover_tasks_flat.
  apply (for_each_invariant _ (registry_grows r)); [|apply registry_grows_refl].
  intros c r0 H0. eapply registry_grows_trans; [exact H0|].
  apply discover_one_grows.
Qed.

(** X9: a registry in which every descriptor is stored under its own
    relative path, and no path twice, is still so after a pass, and the
    task list then shows each of its keys exactly once, in the order of
    registration. *)
Theorem task_list_unique (w : World) (bases : list string) (r : Registry) :
  keyed_by_path r ->
  let r' := fst (discover_tasks w bases r) in
  keyed_by_path r'
  /\ map path (TaskList_get r') = PyDict.keys (available_tasks_by_path r')
  /\ NoDup (map path (TaskList_get r')).
Proof.
  intros Hk r'.
  assert (Hk' : keyed_by_path r').
  { subst r'. rewrite discover_tasks_flat.
    apply (for_each_invariant _ keyed_by_path); [|exact Hk].
    intros c r0 [Hnd Hf]. unfold discover_pair.
    destruct (discover_one_outcome w (fst c) (snd c) r0)
      as [| e | ti r1 o _ _ _ _ _ Hby _ _]; try (split; assumption).
    cbn [fst]. unfold keyed_by_path. rewrite Hby. split.
    - apply PyDictFacts.set_NoDup, Hnd.
    - apply Forall_set; [exact Hf | reflexivity]. }
  split; [exact Hk'|].
  assert (Hmap : map path (TaskList_get r') = PyDict.keys (available_tasks_by_path r')).
  { destruct Hk' as [_ Hf]. unfold TaskList_get, PyDict.values, PyDict.keys.
    rewrite map_map. apply map_ext_Forall. exact Hf. }
  split; [exact Hmap|]. rewrite Hmap. apply Hk'.
Qed.

Lemma task_list_unique_witness :
  NoDup (map path (TaskList_get
                     (fst (discover_tasks Scenarios.two_tasklets ["/tasks"] empty_registry)))).
Proof.
  refine (proj2 (proj2 (task_list_unique Scenarios.two_tasklets ["/tasks"]
                          empty_registry _))).
  split; constructor.
Defined.

(** X10: every descriptor that a pass enters has a description that is not
    empty -- ['no description'] where the documentation gives none -- and
    the base directory of the loop that found it. *)
Theorem descriptors_described (w : World) (bases : list string) (r : Registry) :
  described bases r ->
  described bases (fst (discover_tasks w bases r)).
Proof.
  intros Hd. rewrite discover_tasks_flat.
  apply (for_each_invariant_In _ (described bases)); [|exact Hd].
  intros c r0 Hc H0. unfold discover_pair.
  destruct (discover_one_outcome w (fst c) (snd c) r0)
    as [| e | ti r1 o _ _ Hbase Hdesc _ Hby _ _]; try assumption.
  cbn [fst]. unfold described. rewrite Hby.
  apply Forall_set; [exact H0|]. cbn [snd]. split; [exact Hdesc|].
  rewrite Hbase. apply (candidates_base w bases c Hc).
Qed.

Lemma descriptors_described_witness :
  described ["/tasks"]
    (fst (discover_tasks Scenarios.one_broken ["/tasks"] empty_registry)).
Proof.
  apply (descriptors_described Scenarios.one_broken ["/tasks"] empty_registry).
  constructor.
Defined.

(** X11: a pass never leaves a route without a model or a model without a
    descriptor: the endpoints added to the namespace are keys of
    [task_models], and those are keys of [available_tasks_by_path]. *)
Theorem routes_stay_backed (w : World) (bases : list string) (r : Registry) :
  routes_backed r ->
  routes_backed (fst (discover_tasks w bases r)).
Proof.
  intros Hb. rewrite discover_tasks_flat.
  apply (for_each_invariant _ routes_backed); [|exact Hb].
  intros c r0 [Hr Hm]. unfold discover_pair.
  destruct (discover_one_outcome w (fst c) (snd c) r0)
    as [| e | ti r1 o _ _ _ _ _ Hby Hmr _]; try (split; assumption).
  cbn [fst]. unfold routes_backed. rewrite Hby.
  destruct Hmr as [[-> ->]|[m [-> Hroutes]]].
  - split; [exact Hr|]. intros k Hk. apply mem_set_mono, Hm, Hk.
  - split.
    + intros ep Hep. destruct Hroutes as [E|E]; rewrite E in Hep.
      * apply mem_set_mono, Hr, Hep.
      * apply in_app_or in Hep. destruct Hep as [Hep|[<-|[]]].
        -- apply mem_set_mono, Hr, Hep.
        -- apply PyDictFacts.mem_set_same.
    + intros k Hk. destruct (String.eqb_spec k (path ti)) as [->|Hne].
      * apply PyDictFacts.mem_set_same.
      * apply mem_set_mono, Hm. unfold PyDict.mem in *.
        rewrite PyDictFacts.get_set_other in Hk by exact Hne. exact Hk.
Qed.

Lemma routes_stay_backed_witness :
  routes_backed (fst (discover_tasks Scenarios.one_broken ["/tasks"] empty_registry)).
Proof.
  apply (routes_stay_backed Scenarios.one_broken ["/tasks"] empty_registry).
  split; [intros ep [] | intros k Hk; discriminate].
Defined.

(** X12: whatever a pass adds to [available_tasks_by_path] is the
    [dir_name] of a candidate that passed the filter for hidden
    directories: a key that is new after the pass belongs to a matched file
    whose directory has no chunk starting with ['.'] or equal to
    ['__pycache__']. *)
Theorem entered_paths_unfiltered (w : World) (bases : list string) (r : Registry)
    (k : string) :
  In k (PyDict.keys (available_tasks_by_path (fst (discover_tasks w bases r)))) ->
  In k (PyDict.keys (available_tasks_by_path r))
  \/ exists base tasklet,
       In (base, tasklet) (candidates w bases)
       /\ append_flag base (dirname tasklet) = true
       /\ k = dir_name_of base (dirname tasklet).
Proof.
  rewrite discover_tasks_flat.
  set (P := fun r' : Registry =>
              forall k, In k (PyDict.keys (available_tasks_by_path r')) ->
                In k (PyDict.keys (available_tasks_by_path r))
                \/ exists base tasklet,
                     In (base, tasklet) (candidates w bases)
                     /\ append_flag base (dirname tasklet) = true
                     /\ k = dir_name_of base (dirname tasklet)).
  revert k. change (P (fst (for_each (discover_pair w) (candidates w bases) r))).
  apply for_each_invariant_In; [|intros k Hk; left; exact Hk].
  intros [base tasklet] r0 Hc H0. unfold discover_pair. cbn [fst snd].
  destruct (discover_one_outcome w base tasklet r0)
    as [| e | ti r1 o Happ Hpath _ _ _ Hby _ _]; try exact H0.
  cbn [fst]. intros k Hk. rewrite Hby, PyDictFacts.keys_set in Hk.
  destruct (PyDict.mem (path ti) (available_tasks_by_path r0)); [apply H0, Hk|].
  apply in_app_or in Hk. destruct Hk as [Hk|[<-|[]]]; [apply H0, Hk|].
  right. exists base, tasklet. repeat split; assumption.
Qed.

Lemma entered_paths_unfiltered_witness :
  In "net/vlan" (PyDict.keys (available_tasks_by_path empty_registry))
  \/ exists base tasklet,
       In (base, tasklet) (candidates Scenarios.with_git ["/tasks"])
       /\ append_flag base (dirname tasklet) = true
       /\ "net/vlan" = dir_name_of base (dirname tasklet).
Proof.
  apply (entered_paths_unfiltered Scenarios.with_git ["/tasks"] empty_registry "net/vlan").
  vm_compute. left. reflexivity.
Defined.

Lemma for_each_pairs_grow (w : World) (l : list (string * string)) (r : Registry) :
  registry_grows r (fst (for_each (discover_pair w) l r)).
Proof.
  apply (for_each_invariant _ (registry_grows r)); [|apply registry_grows_refl].
  intros c r0 H0. eapply registry_grows_trans; [exact H0|].
  apply discover_one_grows.
Qed.

Lemma for_each_pairs_keys (w : World) (l : list (string * string)) (r : Registry) :
  incl (PyDict.keys (available_tasks_by_path r))
       (PyDict.keys (available_tasks_by_path (fst (for_each (discover_pair w) l r)))).
Proof. apply prefix_of_incl, (for_each_pairs_grow w l r). Qed.

Section Caught.
Variable w : World.
Hypothesis Hload :
  forall o p e, get_jsonform_schema w o p = Raise e -> is_Exception e = true.
Hypothesis Hroute :
  forall eps ep e, ns_route w eps ep = Raise e -> is_Exception e = true.

(** When nothing but the documentation helper can let an exception out,
    how an iteration ends does not depend on the registry, and what it
    does to the table depends on it through the guard alone. *)
Lemma discover_one_shape (base tasklet : string) :
  (append_flag base (dirname tasklet) = false
   /\ forall r, discover_one w base tasklet r = (r, None))
  \/ (exists e, get_section_from_task_doc w (dirname tasklet) = Raise e
                /\ forall r, discover_one w base tasklet r = (r, Some e))
  \/ (exists ti,
        append_flag base (dirname tasklet) = true
        /\ path ti = dir_name_of base (dirname tasklet)
        /\ id ti = xxh64_hexdigest w (dirname tasklet)
        /\ forall r,
             snd (discover_one w base tasklet r) = None
             /\ available_tasks_by_path (fst (discover_one w base tasklet r))
                = if PyDict.mem (id ti) (available_tasks_by_path r)
                  then available_tasks_by_path r
                  else PyDict.set (available_tasks_by_path r) (path ti) ti).
Proof.
  unfold discover_one.
  destruct (append_flag base (dirname tasklet)) eqn:Happ;
    [|left; split; [reflexivity | intros r; reflexivity]].
  destruct (get_section_from_task_doc w _) as [doc|e];
    [|right; left; exists e; split; [reflexivity | intros r; reflexivity]].
  right; right. exists (build_task_info w base (dirname tasklet) doc).
  repeat split; try reflexivity;
    set (ti := build_task_info w base (dirname tasklet) doc);
    destruct (PyDict.mem (id ti) _); cbn [negb]; try reflexivity;
    unfold try_register;
    destruct (get_jsonform_schema w None _) as [full|e] eqn:El;
    try (rewrite (Hload _ _ _ El); reflexivity);
    destruct (PyDict.get full "schema") as [data|]; try reflexivity;
    destruct (ns_route w _ _) as [u|e] eqn:Er; try reflexivity;
    rewrite (Hroute _ _ _ Er); reflexivity.
Qed.

Lemma rerun_keeps_keys (l : list (string * string)) :
  forall r s,
    incl (PyDict.keys (available_tasks_by_path (fst (for_each (discover_pair w) l r))))
         (PyDict.keys (available_tasks_by_path s)) ->
    PyDict.keys (available_tasks_by_path (fst (for_each (discover_pair w) l s)))
    = PyDict.keys (available_tasks_by_path s).
Proof.
  induction l as [|[base tasklet] l IH]; intros r s Hincl; [reflexivity|].
  cbn [for_each] in *. unfold discover_pair at 1 in Hincl. unfold discover_pair at 1.
  cbn [fst snd] in *.
  destruct (discover_one_shape base tasklet)
    as [[_ Hskip]|[[e [_ Hfail]]|[ti (_ & _ & _ & Hproc)]]].
  - rewrite Hskip in *. apply (IH r s Hincl).
  - rewrite Hfail. reflexivity.
  - destruct (Hproc r) as [Hr1 Hr2]. destruct (Hproc s) as [Hs1 Hs2].
    destruct (discover_one w base tasklet r) as [r' or]. cbn [fst snd] in *. subst or.
    destruct (discover_one w base tasklet s) as [s' os]. cbn [fst snd] in *. subst os.
    assert (Hks : PyDict.keys (available_tasks_by_path s')
                  = PyDict.keys (available_tasks_by_path s)).
    { rewrite Hs2. destruct (PyDict.mem (id ti) (available_tasks_by_path s)) eqn:Ems;
        [reflexivity|].
      rewrite PyDictFacts.keys_set.
      assert (Hin : PyDict.mem (path ti) (available_tasks_by_path s) = true).
      { apply mem_In_keys, Hincl, (for_each_pairs_keys w l r').
        rewrite Hr2.
        destruct (PyDict.mem (id ti) (available_tasks_by_path r)) eqn:Emr.
        - exfalso. apply mem_In_keys in Emr.
          assert (In (id ti) (PyDict.keys (available_tasks_by_path s))) as Hc.
          { apply Hincl, (for_each_pairs_keys w l r'). rewrite Hr2.
            apply mem_In_keys. rewrite <- mem_In_keys in Emr.
            destruct (PyDict.mem (id ti) (available_tasks_by_path r)); [exact Emr | discriminate]. }
          apply mem_In_keys in Hc. congruence.
        - apply mem_In_keys, PyDictFacts.mem_set_same. }
      rewrite Hin. reflexivity. }
    rewrite <- Hks. apply (IH r' s'). rewrite Hks. exact Hincl.
Qed.

(** X13: a second pass over an unchanged world enters no new task.  When
    the exceptions of the task runtime and of the router derive from
    [Exception], the relative paths in the registry, and with them the
    length of the task list, are the same after the second pass as after
    the first, although every candidate is processed again. *)
Theorem rediscovery_adds_no_path (bases : list string) (r : Registry) :
  let r1 := fst (discover_tasks w bases r) in
  let r2 := fst (discover_tasks w bases r1) in
  PyDict.keys (available_tasks_by_path r2) = PyDict.keys (available_tasks_by_path r1)
  /\ List.length (TaskList_get r2) = List.length (TaskList_get r1).
Proof.
  intros r1 r2.
  assert (Hk : PyDict.keys (available_tasks_by_path r2)
               = PyDict.keys (available_tasks_by_path r1)).
  { subst r2 r1. rewrite !discover_tasks_flat.
    apply (rerun_keeps_keys _ r). apply incl_refl. }
  split; [exact Hk|].
  apply (f_equal (@List.length string)) in Hk.
  unfold TaskList_get, PyDict.values, PyDict.keys in *.
  rewrite !length_map in *. exact Hk.
Qed.

Hypothesis Hdoc : forall d e, get_section_from_task_doc w d <> Raise e.

Lemma reach_candidates (l : list (string * string)) :
  forall r base tasklet,
    In (base, tasklet) l ->
    append_flag base (dirname tasklet) = true ->
    PyDict.mem (dir_name_of base (dirname tasklet))
      (available_tasks_by_path (fst (for_each (discover_pair w) l r))) = true
    \/ PyDict.mem (xxh64_hexdigest w (dirname tasklet))
         (available_tasks_by_path (fst (for_each (discover_pair w) l r))) = true.
Proof.
  induction l as [|[b0 t0] l IH]; intros r base tasklet Hin Happ; [destruct Hin|].
  cbv zeta. cbn [for_each].
  change (discover_pair w (b0, t0) r) with (discover_one w b0 t0 r).
  pose proof (discover_one_catches w b0 t0 r Hdoc Hload Hroute) as Hnone.
  destruct Hin as [[= -> ->]|Hin].
  - destruct (discover_one_shape base tasklet)
      as [[Hf _]|[[e [He _]]|[ti (_ & Hpath & Hid & Hproc)]]];
      [congruence | exfalso; exact (Hdoc _ _ He) |].
    destruct (Hproc r) as [_ Hby].
    destruct (discover_one w base tasklet r) as [r' o]. cbn [fst snd] in *. subst o.
    rewrite <- Hpath, <- Hid.
    destruct (PyDict.mem (id ti) (available_tasks_by_path r)) eqn:Em.
    + right. apply (proj2 (mem_In_keys _ _)). apply (for_each_pairs_keys w l r').
      rewrite Hby. apply (proj1 (mem_In_keys _ _)), Em.
    + left. apply (proj2 (mem_In_keys _ _)). apply (for_each_pairs_keys w l r').
      rewrite Hby. apply (proj1 (mem_In_keys _ _)), PyDictFacts.mem_set_same.
  - destruct (discover_one w b0 t0 r) as [r' o]. cbn [fst snd] in *. subst o.
    apply (IH r' base tasklet Hin Happ).
Qed.

(** X14: when the documentation helper does not raise and the exceptions
    of the task runtime and of the router derive from [Exception], a pass
    runs to its end and reaches every candidate: each matched file whose
    directory passes the filter has its [dir_name] in
    [available_tasks_by_path] afterwards, whether its task could be loaded
    or not, unless the guard found its digest among the keys. *)
Theorem discovery_reaches_every_candidate
    (bases : list string) (r : Registry) (base tasklet : string) :
  In (base, tasklet) (candidates w bases) ->
  append_flag base (dirname tasklet) = true ->
  let out := discover_tasks w bases r in
  snd out = None
  /\ (PyDict.mem (dir_name_of base (dirname tasklet))
        (available_tasks_by_path (fst out)) = true
      \/ PyDict.mem (xxh64_hexdigest w (dirname tasklet))
           (available_tasks_by_path (fst out)) = true).
Proof.
  intros Hin Happ out. split.
  - apply discover_tasks_completes; assumption.
  - subst out. rewrite discover_tasks_flat.
    apply (reach_candidates _ r base tasklet Hin Happ).
Qed.
End Caught.

Lemma one_broken_load_caught (o : option string) (p : string) (e : exn) :
  get_jsonform_schema Scenarios.one_broken o p = Raise e -> is_Exception e = true.
Proof.
  cbn. unfold PyDict.get_default. cbn.
  destruct (String.eqb p "/tasks/bad"); [intros [= <-]; reflexivity|].
  destruct (String.eqb p "/tasks/good"); [discriminate | intros [= <-]; reflexivity].
Qed.

Lemma flask_route_caught (eps : list string) (ep : string) (e : exn) :
  Scenarios.flask_route eps ep = Raise e -> is_Exception e = true.
Proof.
  unfold Scenarios.flask_route.
  destruct (list_in ep eps); [intros [= <-]; reflexivity | discriminate].
Qed.

Lemma rediscovery_adds_no_path_witness :
  PyDict.keys (available_tasks_by_path
    (fst (discover_tasks Scenarios.one_broken ["/tasks"]
            (fst (discover_tasks Scenarios.one_broken ["/tasks"] empty_registry)))))
  = PyDict.keys (available_tasks_by_path
      (fst (discover_tasks Scenarios.one_broken ["/tasks"] empty_registry))).
Proof.
  exact (proj1 (rediscovery_adds_no_path Scenarios.one_broken
                  one_broken_load_caught flask_route_caught
                  ["/tasks"] empty_registry)).
Defined.

Lemma discovery_reaches_every_candidate_witness :
  snd (discover_tasks Scenarios.one_broken ["/tasks"] empty_registry) = None
  /\ (PyDict.mem (dir_name_of "/tasks" (dirname "/tasks/good/task.py"))
        (available_tasks_by_path
           (fst (discover_tasks Scenarios.one_broken ["/tasks"] empty_registry))) = true
      \/ PyDict.mem (xxh64_hexdigest Scenarios.one_broken (dirname "/tasks/good/task.py"))
           (available_tasks_by_path
              (fst (discover_tasks Scenarios.one_broken ["/tasks"] empty_registry))) = true).
Proof.
  refine (discovery_reaches_every_candidate Scenarios.one_broken
            one_broken_load_caught flask_route_caught _
            ["/tasks"] empty_registry "/tasks" "/tasks/good/task.py" _ eq_refl).
  - intros d e. discriminate.
  - vm_compute. right. left. reflexivity.
Defined.

End PassFacts.

(** ** Paths between discovery, the routes and the read operation *)

Module PathFacts.
Import PyStr OsPath Tasks PyStrFacts FilterFacts.

(** X15: for a task directory [base/rel] in whose path the base directory
    occurs once, with a base directory that does not end in a separator
    and a relative part that does not start with one, discovery stores
    [rel] as the task's path, and joining the stored base directory and
    path, as is done to load the task, leads back to the task directory. *)
Theorem stored_path_leads_back (base rel : string) :
  base <> "" ->
  str_in base (sep_str ++ rel) = false ->
  endswith_char base sep = false ->
  startswith rel sep_str = false ->
  dir_name_of base (base ++ sep_str ++ rel) = rel
  /\ join base [dir_name_of base (base ++ sep_str ++ rel)] = base ++ sep_str ++ rel.
Proof.
  intros Hne Habs Hend Hstart.
  destruct (dir_name_of_prefix_once base rel Hne Habs) as [Hd _].
  split; [exact Hd|]. rewrite Hd.
  unfold join, join2. cbn [fold_left]. rewrite Hstart, Hend.
  destruct base; [congruence | reflexivity].
Qed.

Lemma stored_path_leads_back_witness :
  dir_name_of "/tasks" "/tasks/net/vlan" = "net/vlan"
  /\ join "/tasks" [dir_name_of "/tasks" "/tasks/net/vlan"] = "/tasks/net/vlan".
Proof.
  apply (stored_path_leads_back "/tasks" "net/vlan");
    [discriminate | reflexivity | reflexivity | reflexivity].
Defined.

(** X16: for a task directory [base ++ rel] in whose path the base
    directory occurs once, the stored path is [rel] without its first
    character, whatever that is: the separator when the base directory is
    written without a trailing separator, and the first letter of the
    task's own path when it is written with one. *)
Theorem trailing_separator_cuts_path (base rel : string) :
  base <> "" ->
  str_in base rel = false ->
  dir_name_of base (base ++ rel) = slice_from_1 rel.
Proof.
  intros Hne Habs. unfold dir_name_of.
  rewrite replace_prefix_once by assumption. reflexivity.
Qed.

Lemma trailing_separator_cuts_path_witness :
  dir_name_of "/tasks/" ("/tasks/" ++ "net/vlan") = "et/vlan".
Proof.
  exact (trailing_separator_cuts_path "/tasks/" "net/vlan"
           ltac:(discriminate) eq_refl).
Defined.

(** X17: the read operation finds its task by the name of the endpoint:
    for a route registered under [path], the endpoint is [api.path], and
    when ['api.'] does not occur inside [path] the task that is loaded is
    [path].  (When it does occur, every occurrence is cut out.) *)
Theorem read_loads_registered_path
    (w : World) (args : list (string * option string)) (path : string) :
  str_in "api." path = false ->
  synthesized w args ("api." ++ path)
  = get_jsonform_schema w
      (preloaded_defaults w (PyDict.get_default args "preload-defaults-from-site" None))
      path.
Proof.
  intros Habs. unfold synthesized.
  rewrite replace_prefix_once; [reflexivity | discriminate | exact Habs].
Qed.

Lemma read_loads_registered_path_witness :
  synthesized Scenarios.two_tasklets [] ("api." ++ "net/vlan")
  = Ok Scenarios.vlan_schema.
Proof.
  exact (read_loads_registered_path Scenarios.two_tasklets [] "net/vlan" eq_refl).
Defined.

(** X18: a read whose parsed arguments have no [schema-type], or have the
    empty string for it, is answered like the same read with [full]. *)
Theorem default_selector_is_full
    (w : World) (args : list (string * option string)) (ep : string) :
  PyDict.get args "schema-type" = None
  \/ PyDict.get args "schema-type" = Some (Some "") ->
  get_parsed w args ep
  = get_parsed w (PyDict.set args "schema-type" (Some "full")) ep.
Proof.
  intros Hst.
  assert (Hsame : forall a, py_in (PyDict.get_default a "schema-type" (Some "full"))
                              [""; "full"] = true ->
            get_parsed w a ep
            = match synthesized w a ep with
              | Ok full_schema => Ok (jsonify (PDict full_schema))
              | Raise e => Raise e
              end).
  { intros a Ha. unfold get_parsed, synthesized. rewrite Ha.
    destruct (get_jsonform_schema w _ _); reflexivity. }
  rewrite (Hsame args), (Hsame (PyDict.set args "schema-type" (Some "full"))).
  - unfold synthesized, PyDict.get_default.
    rewrite PyDictFacts.get_set_other by discriminate. reflexivity.
  - unfold PyDict.get_default. rewrite PyDictFacts.get_set_same. reflexivity.
  - unfold PyDict.get_default. destruct Hst as [-> | ->]; reflexivity.
Qed.

Lemma default_selector_is_full_witness :
  get_parsed Scenarios.two_tasklets [("preload-defaults-from-site", Some "")] "api.net/vlan"
  = get_parsed Scenarios.two_tasklets
      (PyDict.set [("preload-defaults-from-site", Some "")] "schema-type" (Some "full"))
      "api.net/vlan".
Proof.
  exact (default_selector_is_full Scenarios.two_tasklets
           [("preload-defaults-from-site", Some "")] "api.net/vlan"
           (or_introl eq_refl)).
Defined.

End PathFacts.

(** ** Start-up: the web-UI block, and [run] *)

Module RunFacts.
Import PyStr Tasks Daemon Run.

(** X19: a web-UI class name that reads, in any mix of upper and lower
    case, as one of [none], [false], [disable], [no] and [disabled] makes
    [initialize] import and register nothing: the result does not depend
    on what the import or the registration would do, and when the steps
    before the web-UI block succeed it is the application with the API
    blueprint alone, without an exception. *)
Theorem webui_switched_off (h h' : Host) (cls : string) (app : App) :
  setup h = setup h' ->
  list_in (lower cls) disabled_names = true ->
  initialize h (Some cls) app = initialize h' (Some cls) app
  /\ (setup h = None ->
      snd (initialize h (Some cls) app) = None
      /\ blueprints (fst (initialize h (Some cls) app))
         = (blueprints app ++ ["api"])%list).
Proof.
  intros Hs Hd. unfold initialize. rewrite <- Hs, Hd. split.
  - destruct (setup h); reflexivity.
  - intros ->. split; reflexivity.
Qed.

Lemma webui_switched_off_witness :
  initialize Scenarios.no_webui_package (Some "Disabled") Scenarios.fresh_app
  = initialize
      {| setup := None;
         import_module := fun _ => Ok (Some "webui");
         register_blueprint := fun _ => (true, None) |}
      (Some "Disabled") Scenarios.fresh_app.
Proof.
  exact (proj1 (webui_switched_off Scenarios.no_webui_package
                  {| setup := None;
                     import_module := fun _ => Ok (Some "webui");
                     register_blueprint := fun _ => (true, None) |}
                  "Disabled" Scenarios.fresh_app eq_refl eq_refl)).
Defined.

(** X20: the handler of the web-UI block is for [ModuleNotFoundError]
    alone.  Any other exception of the import or of the registration of
    the blueprint leaves [initialize], and so does the [AttributeError] of
    a module without a [webui] attribute.  When it is the import or the
    attribute that fails, the application has the API blueprint and no
    web-UI blueprint; when it is the registration, the application holds
    the web-UI blueprint exactly if Flask had entered it before the
    exception. *)
Theorem webui_error_propagates (h : Host) (cls : string) (app : App) (e : exn) :
  setup h = None ->
  list_in (lower cls) disabled_names = false ->
  is_ModuleNotFoundError e = false ->
  import_module h cls = Raise e
  \/ (exists webui entered,
        import_module h cls = Ok (Some webui)
        /\ register_blueprint h webui = (entered, Some e))
  \/ (import_module h cls = Ok None
      /\ e = Exn AttributeError_ ("module '" ++ cls ++ "' has no attribute 'webui'")) ->
  snd (initialize h (Some cls) app) = Some e
  /\ (forall webui,
        import_module h cls = Ok (Some webui) ->
        blueprints (fst (initialize h (Some cls) app))
        = if fst (register_blueprint h webui)
          then (blueprints app ++ ["api"; webui])%list
          else (blueprints app ++ ["api"])%list)
  /\ ((forall webui, import_module h cls <> Ok (Some webui)) ->
      blueprints (fst (initialize h (Some cls) app)) = (blueprints app ++ ["api"])%list).
Proof.
  intros Hs Hd Hm Hcase. unfold initialize, try_webui. rewrite Hs, Hd.
  destruct Hcase as [Hi|[(webui & entered & Hi & Hr)|[Hi ->]]]; rewrite Hi.
  - rewrite Hm. split; [reflexivity|].
    split; [intros webui H; discriminate | intros _; reflexivity].
  - rewrite Hr, Hm. split; [reflexivity|]. split.
    + intros webui' [= <-]. rewrite Hr. cbn [fst snd].
      destruct entered; cbn; [rewrite <- app_assoc|]; reflexivity.
    + intros Hno. exfalso. apply (Hno webui). reflexivity.
  - split; [reflexivity|].
    split; [intros webui H; discriminate | intros _; reflexivity].
Qed.

Lemma webui_error_propagates_witness :
  snd (initialize
         {| setup := None;
            import_module := fun _ => Ok (Some "webui");
            register_blueprint :=
              fun _ => (true, Some (Exn AssertionError_ "View function mapping is overwriting an existing endpoint function")) |}
         (Some "my_webui") Scenarios.fresh_app)
  = Some (Exn AssertionError_ "View function mapping is overwriting an existing endpoint function").
Proof.
  exact (proj1 (webui_error_propagates
                  {| setup := None;
                     import_module := fun _ => Ok (Some "webui");
                     register_blueprint :=
                       fun _ => (true, Some (Exn AssertionError_ "View function mapping is overwriting an existing endpoint function")) |}
                  "my_webui" Scenarios.fresh_app
                  (Exn AssertionError_ "View function mapping is overwriting an existing endpoint function")
                  eq_refl eq_refl eq_refl
                  (or_intror (or_introl
                     (ex_intro _ "webui" (ex_intro _ true (conj eq_refl eq_refl))))))).
Defined.

Lemma serve_cases (p : Platform) (cfg : list (string * pyobj)) :
  let host := PyDict.get_default cfg "daemon_listen_address" (PStr "127.0.0.1") in
  let port := PyDict.get_default cfg "daemon_listen_port" (PStr "5000") in
  serve p cfg = ([LogRestarting host port; AppRun host port], None)
  \/ serve p cfg = ([LogStarting host port; AppRun host port], None)
  \/ (exists e, serve p cfg = ([], Some e))
  \/ (exists done o, serve p cfg = (Forked 0 :: done, o) /\ worker cfg = (done, o))
  \/ (exists pid, pid <> 0%Z /\
        (serve p cfg = ([Forked pid; LogStarting host port; AppRun host port; WaitPid pid], None)
         \/ serve p cfg = ([Forked pid; WaitPid pid], None))).
Proof.
  intros host port. unfold serve.
  destruct (negb (PyDict.mem "WERKZEUG_RUN_MAIN" (os_environ p))); [|left; reflexivity].
  destruct (negb (truth (PyDict.get_default cfg "no_worker" PNone)));
    [|right; left; reflexivity].
  destruct (os_fork p) as [pid|e]; [|right; right; left; exists e; reflexivity].
  destruct (Z.eqb_spec pid 0) as [->|Hpid].
  - right; right; right; left. destruct (worker cfg) as [done o].
    exists done, o. split; reflexivity.
  - right; right; right; right. exists pid. split; [exact Hpid|].
    destruct (negb (truth _)); [left | right]; reflexivity.
Qed.

Lemma worker_cases (cfg : list (string * pyobj)) :
  (exists e, worker cfg = ([], Some e) /\ exn_cls e = KeyError_)
  \/ (exists broker argv,
        worker cfg = ([WorkerStart broker argv], Some (Exn SystemExit_ "0"))).
Proof.
  unfold worker, cfg_item.
  destruct (PyDict.get cfg "celery_broker") as [broker|];
    [|left; eexists; split; reflexivity].
  destruct (PyDict.get cfg "celery_beat_database") as [beat|];
    [|left; eexists; split; reflexivity].
  right. eexists. eexists. reflexivity.
Qed.

(** X21: [run] forks and serves only after the whole start-up.  Whenever
    the outcome of [run] has an action -- a fork, a worker, a server -- the
    initialization and the three discovery calls have returned without an
    exception; when one of them raises, for instance [discover_tasks] on a
    task whose documentation cannot be read, [run] does nothing further. *)
Theorem run_acts_after_startup
    (h : Host) (w : World) (p : Platform) (cfg : list (string * pyobj))
    (web_ui_class : option string) (bases : list string) (app : App) (r : Registry) :
  actions (run h w p cfg web_ui_class bases app r) <> [] ->
  snd (initialize h web_ui_class app) = None
  /\ discover_output_plugins p = None
  /\ discover_environments p = None
  /\ snd (discover_tasks w bases r) = None
  /\ registry_after (run h w p cfg web_ui_class bases app r)
     = fst (discover_tasks w bases r)
  /\ actions (run h w p cfg web_ui_class bases app r) = fst (serve p cfg).
Proof.
  unfold run.
  destruct (initialize h web_ui_class app) as [app1 [e|]]; [intros H; contradiction H; reflexivity|].
  destruct (discover_output_plugins p); [intros H; contradiction H; reflexivity|].
  destruct (discover_environments p); [intros H; contradiction H; reflexivity|].
  destruct (discover_tasks w bases r) as [r1 [e|]]; [intros H; contradiction H; reflexivity|].
  destruct (serve p cfg) as [done o]. intros _. repeat split.
Qed.

Lemma run_acts_after_startup_witness :
  snd (discover_tasks Scenarios.two_tasklets ["/tasks"] empty_registry) = None.
Proof.
  refine (proj1 (proj2 (proj2 (proj2
            (run_acts_after_startup Scenarios.no_webui_package Scenarios.two_tasklets
               Scenarios.parent_process Scenarios.daemon_cfg
               (Some "jinjamator_daemon_webui") ["/tasks"]
               Scenarios.fresh_app empty_registry _))))).
  vm_compute. discriminate.
Defined.

(** X22: the child of the fork never starts the HTTP server.  It starts
    the worker and leaves through [sys.exit(0)], or it fails with
    [KeyError] before the worker starts, when the configuration has no
    [celery_broker] or no [celery_beat_database]. *)
Theorem worker_child_never_serves (p : Platform) (cfg : list (string * pyobj)) :
  In (Forked 0) (fst (serve p cfg)) ->
  existsb is_app_run (fst (serve p cfg)) = false
  /\ ((exists broker argv,
         serve p cfg = ([Forked 0; WorkerStart broker argv], Some (Exn SystemExit_ "0")))
      \/ (exists e, serve p cfg = ([Forked 0], Some e) /\ exn_cls e = KeyError_)).
Proof.
  intros Hin.
  destruct (serve_cases p cfg)
    as [E|[E|[[e E]|[(done & o & E & Hw)|(pid & Hpid & [E|E])]]]];
    rewrite E in *; cbn [fst] in Hin.
  - destruct Hin as [H|[H|[]]]; discriminate.
  - destruct Hin as [H|[H|[]]]; discriminate.
  - destruct Hin.
  - destruct (worker_cases cfg) as [(e & He & Hk)|(broker & argv & He)];
      rewrite He in Hw; injection Hw as <- <-.
    + split; [reflexivity|]. right. exists e. split; [reflexivity | exact Hk].
    + split; [reflexivity|]. left. exists broker, argv. reflexivity.
  - destruct Hin as [H|[H|[H|[H|[]]]]]; try discriminate. injection H as ->. contradiction.
  - destruct Hin as [H|[H|[]]]; try discriminate. injection H as ->. contradiction.
Qed.

Lemma worker_child_never_serves_witness :
  existsb is_app_run (fst (serve Scenarios.child_process Scenarios.daemon_cfg)) = false.
Proof.
  refine (proj1 (worker_child_never_serves Scenarios.child_process Scenarios.daemon_cfg _)).
  left. reflexivity.
Defined.

(** X23: in one process [run] forks at most once and starts the server at
    most once, and wherever it starts it, in the reloader's process, in
    the parent of the worker or without a worker, the server listens on
    [daemon_listen_address] and [daemon_listen_port] of the configuration,
    ['127.0.0.1'] and ['5000'] where they are missing. *)
Theorem server_started_once_on_configured_address
    (p : Platform) (cfg : list (string * pyobj)) :
  (forall host port,
     In (AppRun host port) (fst (serve p cfg)) ->
     host = PyDict.get_default cfg "daemon_listen_address" (PStr "127.0.0.1")
     /\ port = PyDict.get_default cfg "daemon_listen_port" (PStr "5000"))
  /\ List.length (filter is_app_run (fst (serve p cfg))) <= 1
  /\ List.length (filter is_fork (fst (serve p cfg))) <= 1.
Proof.
  destruct (serve_cases p cfg)
    as [E|[E|[[e E]|[(done & o & E & Hw)|(pid & Hpid & [E|E])]]]];
    rewrite E; cbn [fst].
  1,2,5: split; [|split; cbn; lia];
         intros host port Hin; simpl in Hin;
         repeat (destruct Hin as [Hin|Hin]; try discriminate; try contradiction);
         injection Hin as <- <-; split; reflexivity.
  - split; [intros host port []|split; cbn; lia].
  - destruct (worker_cases cfg) as [(e & He & Hk)|(broker & argv & He)];
      rewrite He in Hw; injection Hw as <- <-;
      (split; [|split; cbn; lia]);
      intros host port Hin; simpl in Hin;
      repeat (destruct Hin as [Hin|Hin]; try discriminate; try contradiction).
  - split; [|split; cbn; lia].
    intros host port Hin; simpl in Hin;
      repeat (destruct Hin as [Hin|Hin]; try discriminate; try contradiction).
Qed.

(** X24: the HTTP server is started exactly in these cases: in the process
    of Werkzeug's reloader; when [no_worker] is set, whatever [just_worker]
    says; and in the parent of a successful fork when [just_worker] is not
    set. *)
Theorem server_started_iff (p : Platform) (cfg : list (string * pyobj)) :
  existsb is_app_run (fst (serve p cfg)) = true
  <-> PyDict.mem "WERKZEUG_RUN_MAIN" (os_environ p) = true
      \/ truth (PyDict.get_default cfg "no_worker" PNone) = true
      \/ (exists pid, os_fork p = Ok pid /\ pid <> 0%Z
                      /\ truth (PyDict.get_default cfg "just_worker" PNone) = false).
Proof.
  unfold serve.
  destruct (PyDict.mem "WERKZEUG_RUN_MAIN" (os_environ p)); cbn [negb];
    [split; [intros _; left; reflexivity | reflexivity]|].
  destruct (truth (PyDict.get_default cfg "no_worker" PNone)); cbn [negb];
    [split; [intros _; right; left; reflexivity | reflexivity]|].
  destruct (os_fork p) as [pid|e].
  - destruct (Z.eqb_spec pid 0) as [->|Hpid].
    + destruct (worker_cases cfg) as [(e & He & _)|(broker & argv & He)];
        rewrite He; cbn; split; try discriminate;
        intros [H|[H|(pid & [= <-] & Hp & _)]]; try discriminate; contradiction.
    + destruct (truth (PyDict.get_default cfg "just_worker" PNone)) eqn:Ej; cbn.
      * split; [discriminate|].
        intros [H|[H|(pid' & _ & _ & H)]]; discriminate.
      * split; [|reflexivity]. intros _. right; right. exists pid. repeat split. exact Hpid.
  - cbn. split; [discriminate|].
    intros [H|[H|(pid & H & _)]]; discriminate.
Qed.

End RunFacts.
